(** * Release scripts of the Remotion monorepo (Verdaccio publishing)

    A shallow embedding of [publish-to-verdaccio.ts] (the pipeline
    orchestrator), [update-version.ts] (manifest version propagation),
    [update-version-files.ts] (regeneration of the [version.ts] constants)
    and [publish-single.ts] (publishing one package), followed by the
    properties of the release pipeline they implement.

    The scripts are effectful: they print to the console, spawn child
    processes, read and write files and may terminate the process.  Each
    script is embedded in a small state monad whose state records what the
    script did (console lines, spawned commands, file contents) and whose
    result says how it ended (returned, exited, threw). *)

From Stdlib Require Import ZArith String Ascii List Bool Lia.
From stdpp Require Import base tactics option list gmap strings pretty.

Local Open Scope string_scope.
Local Open Scope Z_scope.
Local Open Scope list_scope.
Local Open Scope stdpp_scope.

#[local] Set Warnings "-register-all".

(* ===================================================================== *)
(** * Strings as JavaScript uses them *)
(* ===================================================================== *)

Module JsString.

(** The line feed of a JavaScript [\n] escape and the escape character of
    [\x1b]. *)
Definition LF : string := String (ascii_of_nat 10) "".
Definition ESC : string := String (ascii_of_nat 27) "".

(** [s.startsWith(search)] *)
Fixpoint startsWith (search s : string) : bool :=
  match search, s with
  | EmptyString, _ => true
  | String _ _, EmptyString => false
  | String a search', String b s' => Ascii.eqb a b && startsWith search' s'
  end.

(** [s.includes(search)]: [search] occurs in [s] as a substring. *)
Fixpoint includes (search s : string) : bool :=
  startsWith search s ||
  match s with
  | EmptyString => false
  | String _ s' => includes search s'
  end.

(** [!s] for a value that is a string or [undefined]: a missing and an
    empty string are both falsy. *)
Definition falsy (s : option string) : bool :=
  match s with
  | None => true
  | Some EmptyString => true
  | Some _ => false
  end.

(** [list.join(sep)] on strings. *)
Fixpoint join (sep : string) (l : list string) : string :=
  match l with
  | [] => ""
  | [x] => x
  | x :: l' => x +:+ sep +:+ join sep l'
  end.

End JsString.

(* ===================================================================== *)
(** * Regular expressions *)
(* ===================================================================== *)

(** The orchestrator validates its argument with [/^4\.0\.\d+$/.test(v)].
    The pattern is kept as a syntax tree and matched by derivatives; the two
    anchors of the source pattern (no [m] flag) make [test] a match of the
    whole string. *)
Module Regex.

Inductive regex : Type :=
  | Void                         (* matches nothing *)
  | Eps                          (* matches the empty string *)
  | Chr (c : ascii)              (* a literal character, e.g. [\.] *)
  | Digit                        (* [\d], i.e. [0-9] *)
  | Cat (r1 r2 : regex)
  | Alt (r1 r2 : regex)
  | Star (r : regex).

(** [r+] *)
Definition Plus (r : regex) : regex := Cat r (Star r).

Definition is_digit (c : ascii) : bool :=
  ((48 <=? nat_of_ascii c) && (nat_of_ascii c <=? 57))%nat.

Fixpoint nullable (r : regex) : bool :=
  match r with
  | Void => false
  | Eps => true
  | Chr _ => false
  | Digit => false
  | Cat r1 r2 => nullable r1 && nullable r2
  | Alt r1 r2 => nullable r1 || nullable r2
  | Star _ => true
  end.

Fixpoint deriv (c : ascii) (r : regex) : regex :=
  match r with
  | Void => Void
  | Eps => Void
  | Chr c' => if Ascii.eqb c c' then Eps else Void
  | Digit => if is_digit c then Eps else Void
  | Cat r1 r2 =>
      if nullable r1
      then Alt (Cat (deriv c r1) r2) (deriv c r2)
      else Cat (deriv c r1) r2
  | Alt r1 r2 => Alt (deriv c r1) (deriv c r2)
  | Star r' => Cat (deriv c r') (Star r')
  end.

(** [/^r$/.test(s)] *)
Fixpoint test (r : regex) (s : string) : bool :=
  match s with
  | EmptyString => nullable r
  | String c s' => test (deriv c r) s'
  end.

End Regex.

(* ===================================================================== *)
(** * publish-to-verdaccio.ts: the pipeline orchestrator *)
(* ===================================================================== *)

Module Publish.
Import JsString.

(** ** What the process does and how it ends *)

(** What [spawnSync] hands back, as far as [exec] looks at it:
    [result.error] (the message of the error object, when the child could
    not be started) and [result.status] (the exit code, or [null] when the
    child was ended by a signal). *)
Record SpawnSyncReturns : Type := mkResult {
    result_error : option string;
    result_status : option Z
  }.

(** The observable actions of the script, in the order they happen. *)
Inductive event : Type :=
  | ConsoleLog (line : string)
  | SpawnSync (command : string) (args : list string).

(** The state of the running process: what it did so far, and how many
    children it spawned (the next child is number [spawned]). *)
Record process : Type := mkProcess {
    trace : list event;
    spawned : nat
  }.

Definition start : process := {| trace := []; spawned := 0 |}.

(** A computation either returns to its caller or ends the process
    through [process.exit(code)]. *)
Inductive outcome (A : Type) : Type :=
  | Returned (a : A)
  | Exited (code : Z).
Arguments Returned {A} a.
Arguments Exited {A} code.

Definition M (A : Type) : Type := process -> process * outcome A.

Definition ret {A} (a : A) : M A := fun p => (p, Returned a).

Definition bind {A B} (m : M A) (f : A -> M B) : M B :=
  fun p =>
    match m p with
    | (p', Returned a) => f a p'
    | (p', Exited code) => (p', Exited code)
    end.

Notation "x <- m ;; k" := (bind m (fun x => k))
  (at level 100, m at next level, right associativity).
Notation "m ;; k" := (bind m (fun _ => k))
  (at level 100, right associativity).

Definition emit (e : event) : M unit :=
  fun p => ({| trace := trace p ++ [e]; spawned := spawned p |}, Returned tt).

Definition console_log (line : string) : M unit := emit (ConsoleLog line).

Definition process_exit {A} (code : Z) : M A := fun p => (p, Exited code).

(** [for (const x of l) body(x)] *)
Fixpoint for_of {A} (l : list A) (body : A -> M unit) : M unit :=
  match l with
  | [] => ret tt
  | x :: l' => body x ;; for_of l' body
  end.

(** ANSI color codes for pretty output *)
Record palette : Type := mkPalette {
    reset : string; green : string; yellow : string; blue : string; red : string
  }.

Definition colors : palette := {|
    reset := ESC +:+ "[0m";
    green := ESC +:+ "[32m";
    yellow := ESC +:+ "[33m";
    blue := ESC +:+ "[34m";
    red := ESC +:+ "[31m"
  |}.

Definition log (emoji message color : string) : M unit :=
  console_log (color +:+ emoji +:+ "  " +:+ message +:+ reset colors).

Definition error {A} (message : string) : M A :=
  log "❌" message (red colors) ;;
  process_exit 1.

Section Orchestrator.

(** The outside world: [child k] is what the [k]-th [spawnSync] call of
    the run returns (the children run one at a time, to completion). *)
Variable child : nat -> SpawnSyncReturns.

Definition spawnSync (command : string) (args : list string)
  : M SpawnSyncReturns :=
  fun p =>
    ({| trace := trace p ++ [SpawnSync command args];
        spawned := S (spawned p) |},
     Returned (child (spawned p))).

Definition exec (command : string) (args : list string)
    (description : string) : M unit :=
  log "▶" (description +:+ "...") (blue colors) ;;
  result <- spawnSync command args ;;
  match result_error result with
  | Some message =>
      error ("Failed to " +:+ description +:+ ": " +:+ message)
  | None => ret tt
  end ;;
  match result_status result with
  | Some status =>
      if negb (status =? 0) then
        (* Allow build to continue with warnings *)
        if includes "Build" description
        then log "!" "Build had warnings, continuing..." (yellow colors)
        else error ("Failed to " +:+ description +:+ " (exit code "
                    +:+ pretty status +:+ ")")
      else ret tt
  | None => ret tt
  end.

Definition publishOrder : list string := [
    (* Core dependencies first *)
    "bundler";
    "cli";
    "compositor-darwin-arm64";
    "compositor-darwin-x64";
    "compositor-linux-arm64-gnu";
    "compositor-linux-arm64-musl";
    "compositor-linux-x64-gnu";
    "compositor-linux-x64-musl";
    "compositor-win32-x64-msvc";
    "lambda";
    "lambda-client";
    "licensing";
    "media-parser";
    "media-utils";
    "player";
    "renderer";
    "serverless";
    "serverless-client";
    "streaming";
    "studio";
    "studio-server";
    "studio-shared";
    "web-renderer";
    "webcodecs";
    "zod-types";
    (* Additional packages from original list *)
    "core";
    "tailwind-v4";
    "enable-scss";
    "skia"
  ].

Definition publishPackages : M (list string) :=
  log "📤" "Publishing packages to Verdaccio in dependency order..."
    (blue colors) ;;
  for_of publishOrder (fun pkg =>
    exec "bun" ["publish-single.ts"; pkg]
      ("Publishing @remotion/" +:+ pkg)) ;;
  ret publishOrder.

(** The local [packageName] of [tagPackagesAsLatest]: the package name
    with scope. *)
Definition packageName (pkg : string) : string :=
  if String.eqb pkg "core" then "remotion" else "@remotion/" +:+ pkg.

Definition tagPackagesAsLatest (version : string) (packages : list string)
  : M unit :=
  log "🏷" "Tagging packages as latest in Verdaccio..." (blue colors) ;;
  for_of packages (fun pkg =>
    exec "npm"
      ["dist-tag"; "add"; packageName pkg +:+ "@" +:+ version; "latest";
       "--registry"; "http://localhost:4873/"]
      ("Tagging " +:+ packageName pkg +:+ "@" +:+ version
       +:+ " as latest")) ;;
  log "✓" "All packages tagged as latest" (green colors).

(** [/^4\.0\.\d+$/] *)
Definition version_format : Regex.regex :=
  Regex.Cat (Regex.Chr "4")
    (Regex.Cat (Regex.Chr ".")
      (Regex.Cat (Regex.Chr "0")
        (Regex.Cat (Regex.Chr ".") (Regex.Plus Regex.Digit)))).

(** [argv2] is [process.argv[2]], [None] when the script got no
    argument. *)
Definition main (argv2 : option string) : M unit :=
  (if falsy argv2 then
     error ("Usage: bun publish-to-verdaccio.ts <version>" +:+ LF +:+
            "Example: bun publish-to-verdaccio.ts 4.0.428")
   else ret tt) ;;
  let version := default "" argv2 in
  (* Validate version format *)
  (if negb (Regex.test version_format version) then
     error ("Invalid version format: " +:+ version +:+ LF +:+
            "Expected format: 4.0.XXX")
   else ret tt) ;;
  console_log "" ;;
  log "📦" ("Publishing Remotion " +:+ version +:+ " to Verdaccio")
    (green colors) ;;
  console_log "" ;;
  (* Step 1: Bump version *)
  log "1" "Step 1: Bump version" (yellow colors) ;;
  exec "bun" ["update-version.ts"; version]
    ("Bump version to " +:+ version) ;;
  console_log "" ;;
  (* Step 2: Update version.ts files (BEFORE build!) *)
  log "2" "Step 2: Update version.ts files" (yellow colors) ;;
  exec "bun" ["update-version-files.ts"; version]
    ("Update version.ts files to " +:+ version) ;;
  console_log "" ;;
  (* Step 3: Install dependencies *)
  log "3" "Step 3: Install dependencies" (yellow colors) ;;
  exec "bun" ["install"] "Install dependencies" ;;
  console_log "" ;;
  (* Step 4: Build *)
  log "4" "Step 4: Build all packages" (yellow colors) ;;
  exec "bun" ["run"; "build"] "Build all packages" ;;
  console_log "" ;;
  (* Step 5: Publish *)
  log "5" "Step 5: Publish to Verdaccio" (yellow colors) ;;
  publishedPackages <- publishPackages ;;
  console_log "" ;;
  (* Step 6: Tag as latest *)
  log "6" "Step 6: Tag packages as latest" (yellow colors) ;;
  tagPackagesAsLatest version publishedPackages ;;
  console_log "" ;;
  (* Success! *)
  log "✅" ("Successfully published all packages to Verdaccio at version "
           +:+ version +:+ "!") (green colors) ;;
  console_log "" ;;
  console_log "Packages are now available at: http://localhost:4873/" ;;
  console_log ("You can install them with: npm install @remotion/cli@"
               +:+ version +:+ " --registry http://localhost:4873/") ;;
  console_log "".

(** Running the script: the final state of the process and its exit
    code ([0] when [main] returns and the script ends normally). *)
Definition run (argv2 : option string) : process * Z :=
  match main argv2 start with
  | (p, Returned _) => (p, 0)
  | (p, Exited code) => (p, code)
  end.

End Orchestrator.

(** ** The vocabulary of the pipeline's properties *)

(** One call of [exec]: the step it runs and how it describes it. *)
Record step : Type := mkStep {
  command : string;
  args : list string;
  description : string
}.

(** The steps of [main], [publishPackages] and [tagPackagesAsLatest], in
    program order, for an accepted version. *)
Definition bump_step (version : string) : step :=
  mkStep "bun" ["update-version.ts"; version] ("Bump version to " +:+ version).
Definition version_files_step (version : string) : step :=
  mkStep "bun" ["update-version-files.ts"; version]
    ("Update version.ts files to " +:+ version).
Definition install_step : step :=
  mkStep "bun" ["install"] "Install dependencies".
Definition build_step : step :=
  mkStep "bun" ["run"; "build"] "Build all packages".
Definition publish_step (pkg : string) : step :=
  mkStep "bun" ["publish-single.ts"; pkg] ("Publishing @remotion/" +:+ pkg).
Definition tag_step (version pkg : string) : step :=
  mkStep "npm"
    ["dist-tag"; "add"; packageName pkg +:+ "@" +:+ version; "latest";
     "--registry"; "http://localhost:4873/"]
    ("Tagging " +:+ packageName pkg +:+ "@" +:+ version +:+ " as latest").

Definition plan (version : string) : list step :=
  [bump_step version; version_files_step version; install_step; build_step]
  ++ map publish_step publishOrder
  ++ map (tag_step version) publishOrder.

(** How [exec] treats what [spawnSync] returned for a step with the given
    description: it returns silently, it returns after the build warning,
    or it ends the process through [error]. *)
Inductive verdict : Type := Success | Tolerated | Fatal.

Definition classify (description : string) (r : SpawnSyncReturns) : verdict :=
  match result_error r, result_status r with
  | Some _, _ => Fatal
  | None, None => Success
  | None, Some status =>
      if status =? 0 then Success
      else if includes "Build" description then Tolerated else Fatal
  end.

(** A child that failed: it could not be started, or it ended with a
    non-zero exit code, or it ended without an exit code (by a signal). *)
Definition failed (r : SpawnSyncReturns) : Prop :=
  result_error r <> None \/ result_status r <> Some 0.

(** What a trace shows of the steps: the commands spawned, the build
    warnings and the error reports of [error]. *)
Inductive mark : Type :=
| Spawned (command : string) (args : list string)
| Warning
| Failure.

Definition warning_line : string :=
  yellow colors +:+ "!" +:+ "  " +:+ "Build had warnings, continuing..."
  +:+ reset colors.

Definition significant (e : event) : option mark :=
  match e with
  | SpawnSync command args => Some (Spawned command args)
  | ConsoleLog line =>
      if String.eqb line warning_line then Some Warning
      else if startsWith (red colors +:+ "❌") line then Some Failure
      else None
  end.

Definition digest (t : list event) : list mark := omap significant t.

Definition spawned_of (s : step) : mark := Spawned (command s) (args s).

(** The marks the steps [l] leave when the first of them is child number
    [k], and whether one of them ends the process. *)
Fixpoint marks (child : nat -> SpawnSyncReturns) (l : list step) (k : nat)
  : list mark :=
  match l with
  | [] => []
  | s :: l' =>
      match classify (description s) (child k) with
      | Success => spawned_of s :: marks child l' (S k)
      | Tolerated => spawned_of s :: Warning :: marks child l' (S k)
      | Fatal => [spawned_of s; Failure]
      end
  end.

Fixpoint halts (child : nat -> SpawnSyncReturns) (l : list step) (k : nat)
  : bool :=
  match l with
  | [] => false
  | s :: l' =>
      match classify (description s) (child k) with
      | Fatal => true
      | _ => halts child l' (S k)
      end
  end.

(** How many of the steps [l] are spawned: all of them, or those up to the
    first that ends the process. *)
Fixpoint executed (child : nat -> SpawnSyncReturns) (l : list step) (k : nat)
  : nat :=
  match l with
  | [] => 0
  | s :: l' =>
      match classify (description s) (child k) with
      | Fatal => 1
      | _ => S (executed child l' (S k))
      end
  end.

(** The commands among the marks. *)
Definition commands (ms : list mark) : list (string * list string) :=
  omap (fun m => match m with
                 | Spawned command args => Some (command, args)
                 | _ => None
                 end) ms.

Definition call (s : step) : string * list string := (command s, args s).

(** [performs child m l Q]: from any state, the computation [m] leaves the
    marks of the steps [l]; it ends the process with code 1 when one of them
    is fatal, and otherwise returns a value satisfying [Q] having spawned
    them all. *)
Definition performs {A} (child : nat -> SpawnSyncReturns) (m : M A)
    (l : list step) (Q : A -> Prop) : Prop :=
  forall p,
    digest (trace (m p).1) = digest (trace p) ++ marks child l (spawned p) /\
    if halts child l (spawned p)
    then (m p).2 = Exited 1
    else (exists a, (m p).2 = Returned a /\ Q a) /\
         spawned (m p).1 = (spawned p + length l)%nat.

(** Step number [k] of the plan is reached: no step before it ends the
    process. *)
Definition reaches (child : nat -> SpawnSyncReturns) (version : string)
    (k : nat) : Prop :=
  halts child (take k (plan version)) 0 = false.

(** Children, for examples. *)
Definition ok : SpawnSyncReturns := mkResult None (Some 0).
Definition exit_with (code : Z) : SpawnSyncReturns := mkResult None (Some code).
Definition killed : SpawnSyncReturns := mkResult None None.
Definition not_started (message : string) : SpawnSyncReturns :=
  mkResult (Some message) None.

(** All children succeed, but for child number [k]. *)
Definition only (k : nat) (r : SpawnSyncReturns) : nat -> SpawnSyncReturns :=
  fun i => if Nat.eqb i k then r else ok.

(** A step that could not be started.  [exec] calls [spawnSync] with
    [shell: true]: the child that is started is a shell, which is handed the
    command line.  When the shell itself cannot be started, [spawnSync]
    returns an error object.  When the shell does not find the command, the
    shell ends with exit code 127, and that is all [spawnSync] returns: a
    status and no error object. *)
Definition command_not_found : SpawnSyncReturns := exit_with 127.

Inductive not_startable : SpawnSyncReturns -> Prop :=
| shell_missing (message : string) : not_startable (not_started message)
| command_missing : not_startable command_not_found.

(** The policy on start failures as the specification words it: a step
    that is reached and cannot be started, the build step included, ends the
    run with an error report. *)
Definition start_failure_is_fatal (child : nat -> SpawnSyncReturns)
    (version : string) : Prop :=
  forall k s,
    plan version !! k = Some s -> reaches child version k ->
    not_startable (child k) ->
    (run child (Some version)).2 <> 0 /\
    Failure ∈ digest (trace (run child (Some version)).1).

(** Where a package stands in an order, and whether [pkg] is published
    after [dependency]. *)
Definition position (pkg : string) (order : list string) : option nat :=
  fst <$> list_find (fun x => x = pkg) order.

Definition published_after (order : list string) (pkg dependency : string)
  : Prop :=
  exists i j, position dependency order = Some i /\
              position pkg order = Some j /\ (i < j)%nat.

(** Modelled from the spec: the package manifests are not part of the
    sources at hand, so the workspace-relative dependencies are the ones the
    specification names ([cli] depends on [renderer], [renderer] depends on
    [bundler]), as pairs (package, dependency). *)
Definition workspace_dependencies : list (string * string) :=
  [("cli", "renderer"); ("renderer", "bundler")].

Definition respects_dependencies (order : list string)
    (dependencies : list (string * string)) : Prop :=
  forall pkg dependency,
    (pkg, dependency) ∈ dependencies -> published_after order pkg dependency.

(** The propagation policy as the specification words it: a step that is
    reached and failed ends the run with an error report, unless it is the
    build step ending with a non-zero exit code. *)
Definition surfaces_every_failure (child : nat -> SpawnSyncReturns)
    (version : string) : Prop :=
  forall k s,
    plan version !! k = Some s -> reaches child version k ->
    failed (child k) ->
    ~ (s = build_step /\ result_error (child k) = None /\
       exists code, result_status (child k) = Some code) ->
    (run child (Some version)).2 <> 0 /\
    Failure ∈ digest (trace (run child (Some version)).1).

(** The exit code convention as the specification words it: a fatal halt
    hands on the exit code of the step that failed. *)
Definition propagates_exit_code (child : nat -> SpawnSyncReturns)
    (version : string) : Prop :=
  forall k s code,
    plan version !! k = Some s -> reaches child version k ->
    classify (description s) (child k) = Fatal ->
    result_status (child k) = Some code ->
    (run child (Some version)).2 = code.

(** The version pattern in the words of the specification: major and minor
    pinned to 4 and 0, the patch any non-empty sequence of digits. *)
Definition all_digits (s : string) : bool :=
  forallb Regex.is_digit (list_ascii_of_string s).

Definition pinned_version (v : string) : Prop :=
  exists patch, v = "4.0." +:+ patch /\ patch <> "" /\ all_digits patch = true.

End Publish.

(* ===================================================================== *)
(** * JSON values and the [JSON] object *)
(* ===================================================================== *)

(** [update-version.ts] reads a manifest with [JSON.parse], assigns to its
    [version] property and writes it back with [JSON.stringify].  The values
    are the ones [JSON.parse] can produce; an object is the list of its own
    properties in the order JavaScript enumerates them, and a number is the
    numeral JavaScript prints for it ([0] for both zeros, [Infinity] and
    [-Infinity] for the numbers too large for a binary64 number).  A string
    is held as the bytes of its UTF-8 encoding; JavaScript strings are
    sequences of 16-bit code units, and a surrogate code unit that is not
    one of a pair is encoded like the other code units of its size, in
    three bytes the first of which is 237.  The two surrogates of a pair
    are the four bytes of their character; where their bytes follow each
    other instead, three and three, they stand for the same string. *)
Module JSON.
Import JsString.

Inductive json : Type :=
| JNull
| JBool (b : bool)
| JNumber (numeral : string)
| JString (s : string)
| JArray (elements : list json)
| JObject (members : list (string * json)).

(** A property key that is an array index (a canonical decimal numeral
    below 2^32 - 1): JavaScript enumerates these first, in ascending order. *)
Definition digit_value (c : ascii) : option N :=
  let n := N_of_ascii c in
  if ((48 <=? n) && (n <=? 57))%N then Some (n - 48)%N else None.

Fixpoint numeral (acc : N) (s : string) : option N :=
  match s with
  | EmptyString => Some acc
  | String c s' =>
      match digit_value c with
      | Some d => numeral (10 * acc + d) s'
      | None => None
      end
  end.

Definition array_index (key : string) : option N :=
  match key with
  | EmptyString => None
  | String c rest =>
      if Ascii.eqb c "0" && negb (String.eqb rest "") then None
      else match numeral 0 key with
           | Some n => if (n <? 4294967295)%N then Some n else None
           | None => None
           end
  end.

(** [o[key] = value] on the own properties of an ordinary object: an
    existing property keeps its place, a new index goes among the indices, a
    new name goes last. *)
Fixpoint replace (key : string) (value : json) (members : list (string * json))
  : option (list (string * json)) :=
  match members with
  | [] => None
  | (k, x) :: members' =>
      if String.eqb k key then Some ((k, value) :: members')
      else cons (k, x) <$> replace key value members'
  end.

Fixpoint insert_index (i : N) (key : string) (value : json)
    (members : list (string * json)) : list (string * json) :=
  match members with
  | [] => [(key, value)]
  | (k, x) :: members' =>
      match array_index k with
      | Some i' =>
          if (i' <? i)%N then (k, x) :: insert_index i key value members'
          else (key, value) :: members
      | None => (key, value) :: members
      end
  end.

Definition define (key : string) (value : json)
    (members : list (string * json)) : list (string * json) :=
  match replace key value members with
  | Some members' => members'
  | None =>
      match array_index key with
      | Some i => insert_index i key value members
      | None => members ++ [(key, value)]
      end
  end.

(** [value[key]], [None] for [undefined].  Only objects made by
    [JSON.parse] are read here, and only for names that no prototype
    defines. *)
Fixpoint member (key : string) (members : list (string * json))
  : option json :=
  match members with
  | [] => None
  | (k, x) :: members' => if String.eqb k key then Some x else member key members'
  end.

Definition get (key : string) (value : json) : option json :=
  match value with
  | JObject members => member key members
  | _ => None
  end.

(** [value[key] = x] in strict mode (the scripts are modules), for a [key]
    that is not an array index: [None] stands for the [TypeError] that
    assigning to a property of [null] or of a primitive raises.  A property
    put on an array is not one of its elements, and [JSON.stringify] does
    not see it. *)
Definition set (key : string) (x : json) (value : json) : option json :=
  match value with
  | JObject members => Some (JObject (define key x members))
  | JArray elements => Some (JArray elements)
  | _ => None
  end.

(** [`${value}`]: the string that the conversion of [value] gives, when it
    gives one (see [convertible] below). *)
Fixpoint to_string (value : json) : string :=
  match value with
  | JNull => "null"
  | JBool true => "true"
  | JBool false => "false"
  | JNumber numeral => numeral
  | JString s => s
  | JArray elements =>
      join ","
        (map (fun x => match x with JNull => "" | _ => to_string x end)
             elements)
  | JObject _ => "[object Object]"
  end.

Definition display (value : option json) : string :=
  match value with
  | Some x => to_string x
  | None => "undefined"
  end.

(** Whether [`${value}`] gives a string at all.  The conversion of an
    object calls its [toString] method; an object made by [JSON.parse] that
    has a property [toString] of its own has no function there (and
    [valueOf], its own or the inherited one, gives no primitive value), so
    the conversion throws a [TypeError].  Without such a property the
    object inherits [Object.prototype.toString].  An array is converted by
    [Array.prototype.join], which converts every element but [null]. *)
Fixpoint convertible (value : json) : bool :=
  match value with
  | JArray elements => forallb convertible elements
  | JObject members =>
      negb (existsb (fun m => String.eqb m.1 "toString") members)
  | _ => true
  end.

Definition displayable (value : option json) : bool :=
  match value with
  | Some x => convertible x
  | None => true
  end.

(** ** [JSON.stringify(value, null, '\t')] *)

Definition TAB : string := String (ascii_of_nat 9) "".
Definition QUOTE : ascii := ascii_of_nat 34.
Definition BACKSLASH : ascii := ascii_of_nat 92.

Definition hex_digit (n : N) : ascii :=
  if (n <? 10)%N then ascii_of_N (48 + n) else ascii_of_N (87 + n).

Definition escape_char (c : ascii) : string :=
  let n := N_of_ascii c in
  if Ascii.eqb c QUOTE then String BACKSLASH (String QUOTE "")
  else if Ascii.eqb c BACKSLASH then String BACKSLASH (String BACKSLASH "")
  else if (n =? 8)%N then String BACKSLASH "b"
  else if (n =? 9)%N then String BACKSLASH "t"
  else if (n =? 10)%N then String BACKSLASH "n"
  else if (n =? 12)%N then String BACKSLASH "f"
  else if (n =? 13)%N then String BACKSLASH "r"
  else if (n <? 32)%N then
    String BACKSLASH
      (String "u" (String "0" (String "0"
        (String (hex_digit (n / 16)) (String (hex_digit (n mod 16)) "")))))
  else String c "".

(** The second byte of the three bytes of a surrogate code unit: of a high
    surrogate (the first of a pair), of a low surrogate (the second); and a
    byte that continues a character. *)
Definition high_surrogate (c : ascii) : bool :=
  let n := N_of_ascii c in ((160 <=? n) && (n <=? 175))%N.

Definition low_surrogate (c : ascii) : bool :=
  let n := N_of_ascii c in ((176 <=? n) && (n <=? 191))%N.

Definition continuation (c : ascii) : bool :=
  let n := N_of_ascii c in ((128 <=? n) && (n <=? 191))%N.

(** The four bytes of the character of a pair of surrogates, the high one
    with the bytes [237; a; b] and the low one with the bytes [237; c; d]. *)
Definition pair (a b c d : ascii) : string :=
  let point :=
    (65536 + ((N_of_ascii a - 160) * 64 + (N_of_ascii b - 128)) * 1024
     + ((N_of_ascii c - 176) * 64 + (N_of_ascii d - 128)))%N in
  String (ascii_of_N (240 + point / 262144))
    (String (ascii_of_N (128 + (point / 4096) mod 64))
      (String (ascii_of_N (128 + (point / 64) mod 64))
        (String (ascii_of_N (128 + point mod 64)) ""))).

(** Whether a string starts with a high surrogate and a low surrogate, each
    in its three bytes: in a JavaScript string the two are one character. *)
Definition paired (s : string) : bool :=
  match s with
  | String h (String a (String b (String l (String c (String d _))))) =>
      (N_of_ascii h =? 237)%N && high_surrogate a && continuation b &&
      (N_of_ascii l =? 237)%N && low_surrogate c && continuation d
  | _ => false
  end.

(** A byte put before the characters read so far. *)
Definition cons_unit (c : ascii) (chars : string) : string :=
  if paired (String c chars) then
    match chars with
    | String a (String b (String _ (String c' (String d rest)))) =>
        pair a b c' d +:+ rest
    | _ => String c chars
    end
  else String c chars.

Fixpoint cons_units (bytes chars : string) : string :=
  match bytes with
  | EmptyString => chars
  | String c bytes' => cons_unit c (cons_units bytes' chars)
  end.

(** [\uXXXX], in lower case. *)
Definition unicode_escape (u : N) : string :=
  String BACKSLASH
    (String "u"
      (String (hex_digit (u / 4096))
        (String (hex_digit ((u / 256) mod 16))
          (String (hex_digit ((u / 16) mod 16))
            (String (hex_digit (u mod 16)) ""))))).

(** The surrogate code unit of the bytes [237; a; b]. *)
Definition surrogate (a b : ascii) : N :=
  (53248 + (N_of_ascii a - 128) * 64 + (N_of_ascii b - 128))%N.

(** A surrogate that is not one of a pair is written as its escape; every
    other character that is not escaped by [escape_char] is written as it
    is. *)
Fixpoint escape (s : string) : string :=
  match s with
  | EmptyString => ""
  | String c s' =>
      match s' with
      | String a (String b s'') =>
          if (N_of_ascii c =? 237)%N &&
             (high_surrogate a || low_surrogate a) && continuation b
          then unicode_escape (surrogate a b) +:+ escape s''
          else escape_char c +:+ escape s'
      | _ => escape_char c +:+ escape s'
      end
  end.

(** A string in quotes.  The bytes of two surrogates that make a pair stand
    for the same string as the four bytes of their character, and are
    written as that character. *)
Definition quote (s : string) : string :=
  String QUOTE (escape (cons_units s "") +:+ String QUOTE "").

(** The numerals of the numbers that are finite: [JSON.stringify] writes
    the other numbers as [null]. *)
Definition is_finite (numeral : string) : bool :=
  negb (String.eqb numeral "Infinity" || String.eqb numeral "-Infinity"
        || String.eqb numeral "NaN").

Fixpoint serialize (indent : string) (value : json) : string :=
  let stepback := indent in
  let indent := indent +:+ TAB in
  let separator := "," +:+ LF +:+ indent in
  match value with
  | JNull => "null"
  | JBool true => "true"
  | JBool false => "false"
  | JNumber numeral => if is_finite numeral then numeral else "null"
  | JString s => quote s
  | JArray [] => "[]"
  | JArray elements =>
      "[" +:+ LF +:+ indent +:+
      join separator (map (serialize indent) elements) +:+
      LF +:+ stepback +:+ "]"
  | JObject [] => "{}"
  | JObject members =>
      "{" +:+ LF +:+ indent +:+
      join separator
        (map (fun m => quote m.1 +:+ ": " +:+ serialize indent m.2) members)
      +:+ LF +:+ stepback +:+ "}"
  end.

Definition stringify (value : json) : string := serialize "" value.

(** ** [JSON.parse(text)] *)

(** The grammar of JSON texts.  [None] stands for the [SyntaxError] that
    [JSON.parse] raises. *)
Definition is_ws (c : ascii) : bool :=
  let n := N_of_ascii c in
  ((n =? 32) || (n =? 9) || (n =? 10) || (n =? 13))%N.

Fixpoint skip_ws (s : string) : string :=
  match s with
  | EmptyString => ""
  | String c s' => if is_ws c then skip_ws s' else s
  end.

Definition hex_value (c : ascii) : option N :=
  let n := N_of_ascii c in
  if ((48 <=? n) && (n <=? 57))%N then Some (n - 48)%N
  else if ((97 <=? n) && (n <=? 102))%N then Some (n - 87)%N
  else if ((65 <=? n) && (n <=? 70))%N then Some (n - 55)%N
  else None.

(** *** Strings *)

(** The bytes of a code unit, a surrogate like any other. *)
Definition utf8 (u : N) : string :=
  if (u <? 128)%N then String (ascii_of_N u) ""
  else if (u <? 2048)%N then
    String (ascii_of_N (192 + u / 64))
      (String (ascii_of_N (128 + u mod 64)) "")
  else
    String (ascii_of_N (224 + u / 4096))
      (String (ascii_of_N (128 + (u / 64) mod 64))
        (String (ascii_of_N (128 + u mod 64)) "")).

Definition unescape (e : ascii) : option string :=
  if Ascii.eqb e QUOTE then Some (String QUOTE "")
  else if Ascii.eqb e BACKSLASH then Some (String BACKSLASH "")
  else if Ascii.eqb e "/" then Some "/"
  else if Ascii.eqb e "b" then Some (String (ascii_of_nat 8) "")
  else if Ascii.eqb e "f" then Some (String (ascii_of_nat 12) "")
  else if Ascii.eqb e "n" then Some LF
  else if Ascii.eqb e "r" then Some (String (ascii_of_nat 13) "")
  else if Ascii.eqb e "t" then Some TAB
  else None.

(** The characters of a string literal, after its opening quote. *)
Fixpoint parse_chars (s : string) : option (string * string) :=
  match s with
  | EmptyString => None
  | String c s' =>
      if Ascii.eqb c QUOTE then Some ("", s')
      else if Ascii.eqb c BACKSLASH then
        match s' with
        | EmptyString => None
        | String e s'' =>
            if Ascii.eqb e "u" then
              match s'' with
              | String h1 (String h2 (String h3 (String h4 s3))) =>
                  a ← hex_value h1; b ← hex_value h2;
                  c ← hex_value h3; d ← hex_value h4;
                  '(chars, rest) ← parse_chars s3;
                  Some (cons_units
                          (utf8 (4096 * a + 256 * b + 16 * c + d)%N) chars,
                        rest)
              | _ => None
              end
            else
              bytes ← unescape e;
              '(chars, rest) ← parse_chars s'';
              Some (cons_units bytes chars, rest)
        end
      else if (N_of_ascii c <? 32)%N then None
      else
        '(chars, rest) ← parse_chars s';
        Some (cons_unit c chars, rest)
  end.

(** *** Numbers *)

Definition is_digit (c : ascii) : bool :=
  if digit_value c is Some _ then true else false.

(** The digits a string starts with, and what follows them. *)
Fixpoint parse_digits (s : string) : string * string :=
  match s with
  | EmptyString => ("", "")
  | String c s' =>
      if is_digit c
      then let '(digits, rest) := parse_digits s' in (String c digits, rest)
      else ("", s)
  end.

(** The text of a number, after its sign: the digits before the decimal
    point, the digits after it, and the exponent. *)
Definition lex_int (s : string) : option (string * string) :=
  match s with
  | String c s' =>
      if Ascii.eqb c "0" then Some ("0", s')
      else
        let '(digits, rest) := parse_digits s in
        if String.eqb digits "" then None else Some (digits, rest)
  | EmptyString => None
  end.

Definition lex_frac (s : string) : option (string * string) :=
  match s with
  | String c s' =>
      if Ascii.eqb c "." then
        let '(digits, rest) := parse_digits s' in
        if String.eqb digits "" then None else Some (digits, rest)
      else Some ("", s)
  | EmptyString => Some ("", s)
  end.

Definition lex_digits (negative : bool) (s : string) : option (Z * string) :=
  let '(digits, rest) := parse_digits s in
  if String.eqb digits "" then None
  else
    n ← numeral 0 digits;
    Some (if negative then - Z.of_N n else Z.of_N n, rest).

Definition lex_exp (s : string) : option (Z * string) :=
  match s with
  | String c s' =>
      if Ascii.eqb c "e" || Ascii.eqb c "E" then
        match s' with
        | String c' s'' =>
            if Ascii.eqb c' "+" then lex_digits false s''
            else if Ascii.eqb c' "-" then lex_digits true s''
            else lex_digits false s'
        | EmptyString => None
        end
      else Some (0, s)
  | EmptyString => Some (0, s)
  end.

(** The decimal [m * 10^e] that the text of a number stands for, and what
    follows the number. *)
Definition lex_number (s : string) : option (N * Z * string) :=
  '(whole, rest) ← lex_int s;
  '(part, rest) ← lex_frac rest;
  '(power, rest) ← lex_exp rest;
  m ← numeral 0 (whole +:+ part);
  Some (m, power - Z.of_nat (String.length part), rest).

(** A binary64 number that is not negative: zero, the finite number
    [mantissa * 2^exponent] (with a mantissa below [2^53], and of 53 bits
    unless the exponent is the least one, -1074), or infinity. *)
Inductive binary64 : Type :=
| Zero
| Finite (mantissa : N) (exponent : Z)
| Infinite.

(** [a / b] rounded to the nearest integer, a tie to the even one. *)
Definition round_half_even (a b : N) : N :=
  let q := (a / b)%N in
  match (2 * (a mod b) ?= b)%N with
  | Lt => q
  | Gt => (q + 1)%N
  | Eq => if N.even q then q else (q + 1)%N
  end.

(** Whether [2^l <= num / den]. *)
Definition reaches_power (num den : N) (l : Z) : bool :=
  if 0 <=? l then (den * 2 ^ Z.to_N l <=? num)%N
  else (den <=? num * 2 ^ Z.to_N (- l))%N.

(** The largest [l] with [2^l <= num / den], for [num > 0]. *)
Definition floor_log2 (num den : N) : Z :=
  let l := Z.of_N (N.log2 num) - Z.of_N (N.log2 den) in
  if reaches_power num den l then l else l - 1.

(** The binary64 number nearest to [num / den], a tie going to the even
    mantissa. *)
Definition nearest (num den : N) : binary64 :=
  if (num =? 0)%N then Zero
  else
    let q := Z.max (floor_log2 num den - 52) (-1074) in
    let m :=
      if 0 <=? q then round_half_even num (den * 2 ^ Z.to_N q)
      else round_half_even (num * 2 ^ Z.to_N (- q)) den in
    let '(m, q) := if (m =? 2 ^ 53)%N then ((2 ^ 52)%N, q + 1) else (m, q) in
    if (m =? 0)%N then Zero
    else if 971 <? q then Infinite
    else Finite m q.

(** The decimal [m * 10^e] as a fraction, and the number it is read as. *)
Definition fraction (m : N) (e : Z) : N * N :=
  if 0 <=? e then ((m * 10 ^ Z.to_N e)%N, 1%N)
  else (m, (10 ^ Z.to_N (- e))%N).

Definition number_of_decimal (m : N) (e : Z) : binary64 :=
  let '(num, den) := fraction m e in nearest num den.

(** [m * 10^e] without the zeros that [m] ends with. *)
Fixpoint strip_zeros (fuel : nat) (m : N) (e : Z) : N * Z :=
  match fuel with
  | O => (m, e)
  | S fuel' =>
      if ((m mod 10 =? 0) && negb (m =? 0))%N
      then strip_zeros fuel' (m / 10)%N (e + 1)
      else (m, e)
  end.

Definition normal (m : N) (e : Z) : N * Z := strip_zeros (N.size_nat m) m e.

(** [Number::toString] prints a number with the digits of the decimal
    that has the fewest digits among those that are read as the number, and
    is the closest to the number if there are several.  It is found by
    cutting the decimal expansion of the number ever later: the decimal
    below the cut and the one above it are tried. *)
Section Shortest.
Variable mantissa : N.
Variable exponent : Z.

(** The number itself as a decimal. *)
Definition exact : N * Z :=
  if 0 <=? exponent then ((mantissa * 2 ^ Z.to_N exponent)%N, 0)
  else ((mantissa * 5 ^ Z.to_N (- exponent))%N, exponent).

Definition reads_as_it (d : N * Z) : bool :=
  match number_of_decimal d.1 d.2 with
  | Finite m e => (m =? mantissa)%N && (e =? exponent)
  | _ => false
  end.

(** The decimals around the number that end [cut] digits before its
    expansion ends. *)
Definition candidate (cut : nat) : option (N * Z) :=
  let '(m, e) := exact in
  let unit := (10 ^ N.of_nat cut)%N in
  let below := normal (m / unit)%N (e + Z.of_nat cut) in
  let above := normal (m / unit + 1)%N (e + Z.of_nat cut) in
  if reads_as_it below && reads_as_it above
  then if (2 * (m mod unit) <=? unit)%N then Some below else Some above
  else if reads_as_it below then Some below
  else if reads_as_it above then Some above
  else None.

Fixpoint search (cut : nat) : option (N * Z) :=
  match candidate cut with
  | Some d => Some d
  | None =>
      match cut with
      | O => None
      | S cut' => search cut'
      end
  end.

Definition shortest : option (N * Z) :=
  search (String.length (pretty exact.1) - 1).

End Shortest.

Fixpoint zeros (n : nat) : string :=
  match n with
  | O => ""
  | S n' => String "0" (zeros n')
  end.

Fixpoint split_at (n : nat) (s : string) : string * string :=
  match n, s with
  | S n', String c s' => let '(a, b) := split_at n' s' in (String c a, b)
  | _, _ => ("", s)
  end.

(** The text of the decimal [s * 10^e], with [k] the number of digits of
    [s] and [n = e + k] the place of the decimal point: the digits and
    zeros up to 21 places, a decimal point inside up to 21 places or in
    front down to 6 zeros, an exponent otherwise. *)
Definition format (s : N) (e : Z) : string :=
  let digits := pretty s in
  let k := Z.of_nat (String.length digits) in
  let n := e + k in
  if (k <=? n) && (n <=? 21) then digits +:+ zeros (Z.to_nat (n - k))
  else if (0 <? n) && (n <=? 21) then
    let '(whole, part) := split_at (Z.to_nat n) digits in
    whole +:+ "." +:+ part
  else if (-6 <? n) && (n <=? 0) then
    "0." +:+ zeros (Z.to_nat (- n)) +:+ digits
  else
    let power :=
      (if 0 <? n - 1 then "+" else "-") +:+ pretty (Z.abs_N (n - 1)) in
    match digits with
    | String c EmptyString => String c ("e" +:+ power)
    | String c rest => String c ("." +:+ rest +:+ "e" +:+ power)
    | EmptyString => ""
    end.

(** The numeral that JavaScript prints for a number.  (The search for the
    digits always finds some, the decimal expansion of the number at the
    latest.) *)
Definition numeral_of (negative : bool) (x : binary64) : string :=
  match x with
  | Zero => "0"
  | Infinite => if negative then "-Infinity" else "Infinity"
  | Finite m q =>
      match shortest m q with
      | Some (s, e) => (if negative then "-" else "") +:+ format s e
      | None => "NaN"
      end
  end.

(** A number, after its sign. *)
Definition parse_number (negative : bool) (s : string)
  : option (json * string) :=
  '(m, e, rest) ← lex_number s;
  Some (JNumber (numeral_of negative (number_of_decimal m e)), rest).

(** [s] without the [word] it starts with. *)
Fixpoint after (word s : string) : option string :=
  match word, s with
  | EmptyString, _ => Some s
  | String _ _, EmptyString => None
  | String a word', String b s' =>
      if Ascii.eqb a b then after word' s' else None
  end.

Definition literal (word : string) (value : json) (s : string)
  : option (json * string) :=
  rest ← after word s; Some (value, rest).

(** The next character that is not white space, and what follows it. *)
Definition next (s : string) : option (ascii * string) :=
  match skip_ws s with
  | EmptyString => None
  | String c rest => Some (c, rest)
  end.

Fixpoint parse_value (fuel : nat) (s : string) : option (json * string) :=
  match fuel with
  | O => None
  | S fuel' =>
      '(c, s') ← next s;
      if Ascii.eqb c QUOTE then
        '(chars, rest) ← parse_chars s'; Some (JString chars, rest)
      else if Ascii.eqb c "[" then
        '(c', rest) ← next s';
        if Ascii.eqb c' "]" then Some (JArray [], rest)
        else
          '(elements, rest) ← parse_elements fuel' s';
          Some (JArray elements, rest)
      else if Ascii.eqb c "{" then
        '(c', rest) ← next s';
        if Ascii.eqb c' "}" then Some (JObject [], rest)
        else
          '(members, rest) ← parse_members fuel' [] s';
          Some (JObject members, rest)
      else if Ascii.eqb c "-" then parse_number true s'
      else if Ascii.eqb c "t" then literal "true" (JBool true) (String c s')
      else if Ascii.eqb c "f" then literal "false" (JBool false) (String c s')
      else if Ascii.eqb c "n" then literal "null" JNull (String c s')
      else parse_number false (String c s')
  end
with parse_elements (fuel : nat) (s : string) : option (list json * string) :=
  match fuel with
  | O => None
  | S fuel' =>
      '(x, rest) ← parse_value fuel' s;
      '(c, rest') ← next rest;
      if Ascii.eqb c "," then
        '(elements, rest'') ← parse_elements fuel' rest';
        Some (x :: elements, rest'')
      else if Ascii.eqb c "]" then Some ([x], rest')
      else None
  end
with parse_members (fuel : nat) (members : list (string * json)) (s : string)
  : option (list (string * json) * string) :=
  match fuel with
  | O => None
  | S fuel' =>
      '(c, s') ← next s;
      if Ascii.eqb c QUOTE then
        '(key, rest) ← parse_chars s';
        '(c', rest') ← next rest;
        if Ascii.eqb c' ":" then
          '(x, rest'') ← parse_value fuel' rest';
          let members := define key x members in
          '(c'', rest3) ← next rest'';
          if Ascii.eqb c'' "," then parse_members fuel' members rest3
          else if Ascii.eqb c'' "}" then Some (members, rest3)
          else None
        else None
      else None
  end.

Definition parse (text : string) : option json :=
  '(value, rest) ← parse_value (2 * String.length text + 2) text;
  if String.eqb (skip_ws rest) "" then Some value else None.

(** ** Values in the form [parse] gives them *)

Fixpoint all_digits (s : string) : bool :=
  match s with
  | EmptyString => true
  | String c s' => is_digit c && all_digits s'
  end.

(** The numerals of the finite numbers: the texts that are read as the
    number that is printed in this way. *)
Definition canonical_numeral (numeral : string) : bool :=
  match numeral with
  | EmptyString => false
  | String c digits =>
      if Ascii.eqb c "-"
      then if parse_number true digits is Some (JNumber numeral', "")
           then String.eqb numeral' numeral else false
      else if parse_number false numeral is Some (JNumber numeral', "")
           then String.eqb numeral' numeral else false
  end.

(** The strings in which no two surrogates stand for one character. *)
Fixpoint canonical_string (s : string) : bool :=
  negb (paired s) &&
  match s with
  | EmptyString => true
  | String _ s' => canonical_string s'
  end.

(** The keys of an object: the array indices, ascending, then the other
    names, each once. *)
Fixpoint names_only (keys : list string) : bool :=
  match keys with
  | [] => true
  | key :: keys' =>
      (if array_index key is Some _ then false else true) &&
      negb (existsb (String.eqb key) keys') && names_only keys'
  end.

Fixpoint ordered_keys (above : option N) (keys : list string) : bool :=
  match keys with
  | [] => true
  | key :: keys' =>
      match array_index key with
      | Some i =>
          (if above is Some low then (low <? i)%N else true) &&
          ordered_keys (Some i) keys'
      | None => names_only keys
      end
  end.

Fixpoint well_formed (value : json) : bool :=
  match value with
  | JNumber numeral => canonical_numeral numeral
  | JString s => canonical_string s
  | JArray elements => forallb well_formed elements
  | JObject members =>
      ordered_keys None (map fst members) &&
      forallb (fun m => canonical_string m.1 && well_formed m.2) members
  | _ => true
  end.

(** A value as [JSON.stringify] writes it: with [null] for the numbers
    that are not finite, and with one character for two surrogates that
    make a pair. *)
Fixpoint as_written (value : json) : json :=
  match value with
  | JNumber numeral => if is_finite numeral then value else JNull
  | JString s => JString (cons_units s "")
  | JArray elements => JArray (map as_written elements)
  | JObject members => JObject (map (fun m => (m.1, as_written m.2)) members)
  | _ => value
  end.

(** The size of a value, to bound the recursion of [parse_value]. *)
Fixpoint size (value : json) : nat :=
  match value with
  | JArray elements => S (list_sum (map (fun x => S (size x)) elements))
  | JObject members => S (list_sum (map (fun m => S (size m.2)) members))
  | _ => 1
  end.

(** ** Reading back what was written *)

(** What may not follow a number for it to end there. *)
Definition goes_on (rest : string) : bool :=
  match rest with
  | String c _ =>
      Ascii.eqb c "." || Ascii.eqb c "e" || Ascii.eqb c "E" || is_digit c
  | EmptyString => false
  end.

(** Whether a string starts with a digit. *)
Definition digit_first (s : string) : bool :=
  match s with
  | String c _ => is_digit c
  | EmptyString => false
  end.

(** White space only. *)
Fixpoint blank (s : string) : bool :=
  match s with
  | EmptyString => true
  | String c s' => is_ws c && blank s'
  end.

(** The text of a member of an object whose members are indented by
    [indent]. *)
Definition member_text (indent : string) (m : string * json) : string :=
  quote m.1 +:+ ": " +:+ serialize indent m.2.

(** [parse_value] reads [value] back from its serialization at any
    indentation, whatever white space comes before it and whatever follows
    it that does not go on with a number. *)
Definition reads_back (value : json) : Prop :=
  forall fuel indent ws rest,
    blank indent = true -> blank ws = true -> goes_on rest = false ->
    well_formed value = true -> (size value <= fuel)%nat ->
    parse_value fuel (ws +:+ serialize indent value +:+ rest)
      = Some (value, rest).

(** [key] is an array index below [i]. *)
Definition below (i : N) (key : string) : Prop :=
  exists i', array_index key = Some i' /\ (i' < i)%N.

End JSON.


(* ===================================================================== *)
(** * update-version.ts and update-version-files.ts: the propagation *)
(* ===================================================================== *)

Module Propagate.
Import JsString JSON.

(** ** The file system and the process *)

(** What the scripts find on the disk and do not change: the entries of
    the [packages] directory as [readdirSync] lists them, which paths
    [lstatSync] finds to be directories, which paths cannot be written, the
    error that reading a path as a file raises although something is there
    (a directory in the place of the file, a file that may not be read), and
    the error, if any, that listing [packages] and examining its entries
    ends with (no such directory, no permission).  Paths are relative to
    [process.cwd()]. *)
Record layout : Type := mkLayout {
  entries : list string;
  is_directory : string -> bool;
  read_only : string -> bool;
  read_error : string -> option string;
  scan_error : option string
}.

(** What a script changes: the text of the files, by path, and the lines on
    the console; [written] logs the paths handed to [writeFileSync], in
    order.  A file is held as the text that [readFileSync(path, 'utf-8')]
    gives for it, not as its bytes (bytes that are no UTF-8 are read as the
    replacement character), and [writeFileSync] stores the text it is
    handed, which is what is read back of the UTF-8 encoding it writes
    when no surrogate of the text is without its pair ([JSON.stringify]
    escapes such surrogates, so a manifest that is written has none). *)
Record state : Type := mkState {
  files : gmap string string;
  console : list string;
  written : list string
}.

(** A script returns or ends with an uncaught exception. *)
Inductive outcome (A : Type) : Type :=
| Returned (a : A)
| Thrown (message : string).
Arguments Returned {A} a.
Arguments Thrown {A} message.

Definition Script (A : Type) : Type := state -> state * outcome A.

Definition ret {A} (a : A) : Script A := fun s => (s, Returned a).

Definition bind {A B} (m : Script A) (f : A -> Script B) : Script B :=
  fun s =>
    match m s with
    | (s', Returned a) => f a s'
    | (s', Thrown message) => (s', Thrown message)
    end.

Notation "x <- m ;; k" := (bind m (fun x => k))
  (at level 100, m at next level, right associativity).
Notation "m ;; k" := (bind m (fun _ => k))
  (at level 100, right associativity).

Definition throw {A} (message : string) : Script A :=
  fun s => (s, Thrown message).

Definition console_log (line : string) : Script unit :=
  fun s =>
    ({| files := files s; console := console s ++ [line];
        written := written s |}, Returned tt).

(** [for (const x of l) body], with the variables the body updates handed
    from one round to the next ([continue] is the body returning early). *)
Fixpoint for_of {A B} (l : list A) (vars : B) (body : B -> A -> Script B)
  : Script B :=
  match l with
  | [] => ret vars
  | x :: l' => vars' <- body vars x ;; for_of l' vars' body
  end.

(** [path.join(process.cwd(), ...parts)], relative to [process.cwd()]. *)
Definition path_join (parts : list string) : string := join "/" parts.

(** One entry of [FEATURED_TEMPLATES] in [create-video/src/templates.ts], as
    far as the script reads it. *)
Record Template : Type := mkTemplate {
  templateInMonorepo : option string
}.

(** The lines the scripts print. *)
Definition updated_line (name version : string) : string :=
  "✓ Updated " +:+ name +:+ " to v" +:+ version.

Definition summary_line (updated : nat) (version : string) : string :=
  LF +:+ "✅ Updated " +:+ pretty updated +:+ " packages to version "
  +:+ version.

Definition next_line : string :=
  LF +:+ "Next: bun run build && bun publish.ts".

Record VersionFile : Type := mkVersionFile {
  name : string;
  path : string;
  template : string
}.

Definition version_file_line (name version : string) : string :=
  "✓ Updated " +:+ name +:+ " version.ts to " +:+ version.

Definition version_files_summary (count : nat) : string :=
  LF +:+ "✅ Updated " +:+ pretty count +:+ " version.ts files".

Section Scripts.

(** [JSON.parse] ([None] when it throws) and
    [fun value => JSON.stringify(value, null, '\t')], the template registry
    [FEATURED_TEMPLATES], and the disk. *)
Variable parse : string -> option json.
Variable stringify : json -> string.
Variable FEATURED_TEMPLATES : list Template.
Variable disk : layout.

Definition lstat_isDirectory (path : string) : bool := is_directory disk path.

(** A path exists when it holds a file or something that cannot be read
    as one. *)
Definition existsSync (s : state) (path : string) : bool :=
  bool_decide (is_Some (files s !! path)) ||
  bool_decide (is_Some (read_error disk path)).

Definition readFileSync (path : string) : Script string :=
  fun s =>
    match read_error disk path with
    | Some message => (s, Thrown message)
    | None =>
        match files s !! path with
        | Some text => (s, Returned text)
        | None =>
            (s, Thrown ("ENOENT: no such file or directory, open '" +:+ path
                        +:+ "'"))
        end
    end.

Definition writeFileSync (path data : string) : Script unit :=
  fun s =>
    if read_only disk path
    then (s, Thrown ("EACCES: permission denied, open '" +:+ path +:+ "'"))
    else ({| files := <[path := data]> (files s); console := console s;
             written := written s ++ [path] |}, Returned tt).

Definition JSON_parse (text : string) : Script json :=
  match parse text with
  | Some value => ret value
  | None => throw "SyntaxError: JSON Parse error"
  end.

(** [packageJson.version = version] *)
Definition assign_version (version : string) (packageJson : json)
  : Script json :=
  match set "version" (JString version) packageJson with
  | Some packageJson' => ret packageJson'
  | None => throw "TypeError: Attempted to assign to readonly property."
  end.

(** [`${value}`] inside a template literal *)
Definition interpolate (value : option json) : Script string :=
  if displayable value then ret (display value)
  else throw "TypeError: No default value".

(** [FEATURED_TEMPLATES.map((t) => t.templateInMonorepo).filter(Boolean)] *)
Definition localTemplates : list string :=
  omap (fun t => match templateInMonorepo t with
                 | Some EmptyString => None
                 | other => other
                 end) FEATURED_TEMPLATES.

Definition packageJsonPath (dir : string) : string :=
  path_join ["packages"; dir; "package.json"].

(** The [dirs] of the script: the entries of [packages] that are
    directories and hold a [package.json]. *)
Definition dirs (s : state) : list string :=
  List.filter (fun dir => existsSync s (packageJsonPath dir))
    (List.filter (fun dir => lstat_isDirectory (path_join ["packages"; dir]))
       (entries disk)).

(** The body of the loop over [dirs]. *)
Definition update_package (version : string) (updated : nat) (dir : string)
  : Script nat :=
  if existsb (String.eqb dir) localTemplates then ret updated
  else
    text <- readFileSync (packageJsonPath dir) ;;
    packageJson <- JSON_parse text ;;
    packageJson <- assign_version version packageJson ;;
    writeFileSync (packageJsonPath dir) (stringify packageJson +:+ LF) ;;
    let updated := S updated in
    name <- interpolate (get "name" packageJson) ;;
    console_log (updated_line name version) ;;
    ret updated.

(** What one round of the loop comes to, given the content of the manifest
    of [dir] (if there is one): the package is skipped (a template), its
    manifest is written back as [packageJson] and the line is printed, the
    manifest is written back but the round throws before it prints the
    line, or the round throws before it writes. *)
Inductive round : Type :=
| Skipped
| Updated (packageJson : json)
| Unreported (packageJson : json) (message : string)
| Failed (message : string).

Definition attempt (version dir : string) (content : option string) : round :=
  if existsb (String.eqb dir) localTemplates then Skipped
  else
    match read_error disk (packageJsonPath dir), content with
    | Some message, _ => Failed message
    | None, None =>
        Failed ("ENOENT: no such file or directory, open '"
                +:+ packageJsonPath dir +:+ "'")
    | None, Some text =>
        match parse text with
        | None => Failed "SyntaxError: JSON Parse error"
        | Some packageJson =>
            match set "version" (JString version) packageJson with
            | None =>
                Failed "TypeError: Attempted to assign to readonly property."
            | Some packageJson' =>
                if read_only disk (packageJsonPath dir)
                then Failed ("EACCES: permission denied, open '"
                             +:+ packageJsonPath dir +:+ "'")
                else if displayable (get "name" packageJson')
                then Updated packageJson'
                else Unreported packageJson' "TypeError: No default value"
            end
        end
    end.

(** The state after the manifest of [dir] was written back. *)
Definition updated_state (version dir : string) (packageJson : json)
    (s : state) : state :=
  {| files :=
       <[packageJsonPath dir := stringify packageJson +:+ LF]> (files s);
     console :=
       console s ++ [updated_line (display (get "name" packageJson)) version];
     written := written s ++ [packageJsonPath dir] |}.

(** The state after the manifest of [dir] was written back and its line
    was not printed. *)
Definition unreported_state (dir : string) (packageJson : json) (s : state)
  : state :=
  {| files :=
       <[packageJsonPath dir := stringify packageJson +:+ LF]> (files s);
     console := console s;
     written := written s ++ [packageJsonPath dir] |}.

(** [readdirSync('packages')] with its two filters: the [dirs] of the
    script, or the exception that listing the directory or examining an
    entry ends with. *)
Definition scan : Script (list string) :=
  fun s =>
    match scan_error disk with
    | Some message => (s, Thrown message)
    | None => (s, Returned (dirs s))
    end.

(** [update-version.ts]; [argv2] is [process.argv[2]]. *)
Definition update_version (argv2 : option string) : Script unit :=
  if falsy argv2 then
    throw "Please specify a version: bun update-version.ts 4.0.408"
  else
    let version := default "" argv2 in
    dirs <- scan ;;
    updated <- for_of dirs 0%nat (update_package version) ;;
    console_log (summary_line updated version) ;;
    console_log next_line.

(** Packages that have version.ts files that need to be updated *)
Definition packagesWithVersionFiles (version : string) : list VersionFile := [
  {| name := "remotion (core)";
     path := "packages/core/src/version.ts";
     template :=
       "// Automatically generated on publish" +:+ LF +:+
       LF +:+
       "/**" +:+ LF +:+
       " * @description Provides the current version number of the Remotion library."
       +:+ LF +:+
       " * @see [Documentation](https://remotion.dev/docs/version)" +:+ LF +:+
       " * @returns {string} The current version of the remotion package"
       +:+ LF +:+
       " */" +:+ LF +:+
       "export const VERSION = '" +:+ version +:+ "';" +:+ LF |};
  {| name := "@remotion/media-parser";
     path := "packages/media-parser/src/version.ts";
     template :=
       "// Automatically generated on publish" +:+ LF +:+
       "export const VERSION = '" +:+ version +:+ "';" +:+ LF |}
].

(** [update-version-files.ts] *)
Definition update_version_files (argv2 : option string) : Script unit :=
  if falsy argv2 then
    throw "Please specify a version: bun update-version-files.ts 4.0.425"
  else
    let version := default "" argv2 in
    for_of (packagesWithVersionFiles version) tt (fun _ pkg =>
      let fullPath := path_join [path pkg] in
      writeFileSync fullPath (template pkg) ;;
      console_log (version_file_line (name pkg) version)) ;;
    console_log
      (version_files_summary (length (packagesWithVersionFiles version))).

End Scripts.

(** ** The vocabulary of the propagation's properties *)

(** An assignment to [version] changed nothing else: the other properties
    keep their values, and the names keep their order, with [version] added
    last when it was missing.  (An array has only its elements written
    out.) *)
Definition only_version_changed (version : string) (before after : json)
  : Prop :=
  match before, after with
  | JObject members, JObject members' =>
      member "version" members' = Some (JString version) /\
      (forall key, key <> "version" ->
                   member key members' = member key members) /\
      (map fst members' = map fst members \/
       map fst members' = map fst members ++ ["version"])
  | JArray elements, JArray elements' => elements' = elements
  | _, _ => False
  end.

(** What the specification asks of a propagation that fails partway: the
    console still shows a count of the updates. *)
Definition reports_count_after_failure (run : Script unit) (version : string)
    (s : state) : Prop :=
  forall message,
    (run s).2 = Thrown message ->
    exists updated, summary_line updated version ∈ console (run s).1.

Definition reports_files_count_after_failure (run : Script unit) (s : state)
  : Prop :=
  forall message,
    (run s).2 = Thrown message ->
    exists count, version_files_summary count ∈ console (run s).1.

(** A disk and its files, for examples: two packages and a template; the
    manifest of the second package cannot be written. *)
Definition example_disk : layout := {|
  entries := ["cli"; "README.md"; "template-still"; "core"];
  is_directory := fun path => negb (String.eqb path "packages/README.md");
  read_only := fun path =>
    String.eqb path "packages/core/package.json" ||
    String.eqb path "packages/media-parser/src/version.ts";
  read_error := fun _ => None;
  scan_error := None
|}.

Definition writable_disk : layout := {|
  entries := entries example_disk;
  is_directory := is_directory example_disk;
  read_only := fun _ => false;
  read_error := fun _ => None;
  scan_error := None
|}.

Definition example_templates : list Template :=
  [mkTemplate None; mkTemplate (Some "template-still"); mkTemplate (Some "")].

(** JSON texts are written with ['] for the double quote. *)
Fixpoint double_quoted (s : string) : string :=
  match s with
  | EmptyString => ""
  | String c s' =>
      String (if Ascii.eqb c "'" then QUOTE else c) (double_quoted s')
  end.

Definition example_files : state := {|
  files :=
    list_to_map
      [("packages/cli/package.json",
        double_quoted
          "{ 'name': '@remotion/cli', 'version': '4.0.1', 'dependencies': {'remotion': 'workspace:*'} }");
       ("packages/template-still/package.json",
        double_quoted "{ 'name': 'template-still', 'version': '1.0.0' }");
       ("packages/core/package.json",
        double_quoted "{ 'name': 'remotion', 'files': ['dist'] }")];
  console := [];
  written := []
|}.

(** The same files, but for the first manifest, whose [name] is an object
    with a property [toString]. *)
Definition example_unnamed : state := {|
  files :=
    <["packages/cli/package.json" :=
        double_quoted "{ 'name': {'toString': 'cli'}, 'version': '4.0.1' }"]>
      (files example_files);
  console := [];
  written := []
|}.

End Propagate.

(* ===================================================================== *)
(** * Further vocabulary of the propagation *)
(* ===================================================================== *)

Module PropagateTerms.
Import JsString JSON Propagate.

(** A value that a property can be assigned to: an object or an array. *)
Definition assignable (value : json) : bool :=
  match value with
  | JObject _ | JArray _ => true
  | _ => false
  end.

(** The text that a round of [update-version.ts] writes in the place of
    the manifest [text]; [None] when the round throws before it writes,
    because [text] is no JSON text or its value takes no property. *)
Definition rewritten (parse : string -> option json)
    (stringify : json -> string) (version text : string) : option string :=
  packageJson ← parse text;
  packageJson' ← set "version" (JString version) packageJson;
  Some (stringify packageJson' +:+ LF).

(** Whether the round can print the [name] of the manifest [text] in its
    line. *)
Definition nameable (parse : string -> option json) (text : string)
  : option bool :=
  packageJson ← parse text; Some (displayable (get "name" packageJson)).

(** What a run with [version'] asks of [JSON.parse] and [JSON.stringify]
    on a manifest [text] that an earlier run, with [version], rewrote:
    reading the rewritten text and assigning [version'] gives the text that
    reading [text] itself and assigning [version'] gives, and the [name] is
    as printable as it was.  (The [JSON] object of ECMA-262 writes a value
    so that it reads it back: a string with the escapes of its characters,
    a number with the digits that identify it among the numbers, the
    properties in the order of their enumeration, which is the order in
    which [JSON.parse] makes them.) *)
Definition rereads (parse : string -> option json)
    (stringify : json -> string) (version version' text : string) : Prop :=
  forall text',
    rewritten parse stringify version text = Some text' ->
    rewritten parse stringify version' text'
      = rewritten parse stringify version' text /\
    nameable parse text' = nameable parse text.

(** The name under which [update-version.ts] reports the package of a
    manifest: [`${packageJson.name}`]. *)
Definition reported_name (parse : string -> option json) (text : string)
  : string :=
  display (parse text ≫= get "name").

(** The state after [update-version-files.ts] wrote the version file
    [pkg]. *)
Definition written_state (version : string) (pkg : VersionFile) (s : state)
  : state :=
  {| files := <[path pkg := template pkg]> (files s);
     console := console s ++ [version_file_line (name pkg) version];
     written := written s ++ [path pkg] |}.

End PropagateTerms.

(* ===================================================================== *)
(** * The console of the orchestrator *)
(* ===================================================================== *)

Module Console.
Import JsString Publish.

(** The line that [log] prints. *)
Definition line (emoji message color : string) : string :=
  color +:+ emoji +:+ "  " +:+ message +:+ reset colors.

(** What [exec] prints before it spawns the child, what [error] prints
    before it ends the process, and the line [main] prints after the last
    step. *)
Definition announcement (description : string) : event :=
  ConsoleLog (line "▶" (description +:+ "...") (blue colors)).

Definition error_report (message : string) : event :=
  ConsoleLog (line "❌" message (red colors)).

Definition success_line (version : string) : string :=
  line "✅"
    ("Successfully published all packages to Verdaccio at version "
     +:+ version +:+ "!")
    (green colors).

(** Lines that start like an error report or like the success line. *)
Definition is_error (e : event) : bool :=
  match e with
  | ConsoleLog l => startsWith (red colors +:+ "❌") l
  | SpawnSync _ _ => false
  end.

Definition is_success (e : event) : bool :=
  match e with
  | ConsoleLog l => startsWith (green colors +:+ "✅") l
  | SpawnSync _ _ => false
  end.

Definition quiet (e : event) : Prop :=
  is_error e = false /\ is_success e = false.

(** [adds m P]: from any state, [m] only adds events to the trace, and
    [P] holds of what it added and of how it ended. *)
Definition adds {A} (m : M A) (P : list event -> outcome A -> Prop) : Prop :=
  forall p, exists added,
    trace (m p).1 = trace p ++ added /\ P added (m p).2.

(** The process was ended by [error]: the error report is the last thing
    that happened. *)
Definition ended_by_error (added : list event) (code : Z) : Prop :=
  code = 1 /\
  exists init message,
    added = init ++ [error_report message] /\ Forall quiet init.

(** [m] returns without a word of error or success, or is ended by
    [error]. *)
Definition calm {A} (m : M A) : Prop :=
  adds m (fun added o =>
    match o with
    | Returned _ => Forall quiet added
    | Exited code => ended_by_error added code
    end).

(** [m] returns having printed the success line once, or is ended by
    [error]. *)
Definition triumphant {A} (version : string) (m : M A) : Prop :=
  adds m (fun added o =>
    match o with
    | Returned _ =>
        exists init tail,
          added = init ++ ConsoleLog (success_line version) :: tail /\
          Forall quiet init /\ Forall quiet tail
    | Exited code => ended_by_error added code
    end).

(** A trace in which every child is spawned right after the announcement
    of one of [steps] that runs its command. *)
Inductive announced (steps : list step) : list event -> Prop :=
| announced_nil : announced steps []
| announced_line l t :
    announced steps t -> announced steps (ConsoleLog l :: t)
| announced_child s t :
    s ∈ steps -> announced steps t ->
    announced steps
      (announcement (description s) :: SpawnSync (command s) (args s) :: t).

(** [m] announces every child it spawns, and returns a value satisfying
    [R] when it returns. *)
Definition orderly {A} (steps : list step) (m : M A) (R : A -> Prop) : Prop :=
  adds m (fun added o =>
    announced steps added /\ forall a, o = Returned a -> R a).

(** The characters that a POSIX shell takes as they are, and the words
    made of them: what [spawnSync] hands to the shell ([shell: true]) as one
    word of the command line reaches the child as one argument, unchanged,
    when it is such a word. *)
Definition plain_char (c : ascii) : bool :=
  let n := nat_of_ascii c in
  ((48 <=? n) && (n <=? 57))%nat || ((65 <=? n) && (n <=? 90))%nat ||
  ((97 <=? n) && (n <=? 122))%nat ||
  existsb (Ascii.eqb c) (list_ascii_of_string "-._/:@").

Definition plain_chars (s : string) : bool :=
  forallb plain_char (list_ascii_of_string s).

Definition word (s : string) : bool :=
  negb (String.eqb s "") && plain_chars s.

(** The message of the error report of [exec] for a step that was fatal:
    it names the step by its description and gives the message of the error
    when the child could not be started, the exit code of the child
    otherwise. *)
Definition failure_message (description : string) (r : SpawnSyncReturns)
  : string :=
  match result_error r, result_status r with
  | Some message, _ => "Failed to " +:+ description +:+ ": " +:+ message
  | None, Some status =>
      "Failed to " +:+ description +:+ " (exit code " +:+ pretty status
      +:+ ")"
  | None, None => ""
  end.

(** The number of children spawned in a trace. *)
Fixpoint children (t : list event) : nat :=
  match t with
  | [] => 0
  | SpawnSync _ _ :: t' => S (children t')
  | ConsoleLog _ :: t' => children t'
  end.

(** A trace that ends with the report of the failure of the child spawned
    last: the announcement of the step, the child, and the error report
    with the failure message for what [spawnSync] returned for this
    child. *)
Definition explained (child : nat -> SpawnSyncReturns) (t : list event)
  : Prop :=
  exists init description command args,
    t = init ++ [announcement description; SpawnSync command args;
                 error_report
                   (failure_message description (child (children init)))] /\
    classify description (child (children init)) = Fatal.

(** The counter of the process is the number of children in its trace. *)
Definition counted (p : process) : Prop := spawned p = children (trace p).

(** [m] keeps the count, and when it ends the process, the trace ends with
    the report of the failure of the last child. *)
Definition explains {A} (child : nat -> SpawnSyncReturns) (m : M A) : Prop :=
  forall p, counted p ->
    counted (m p).1 /\
    forall code, (m p).2 = Exited code -> explained child (trace (m p).1).

End Console.

(* ===================================================================== *)
(** * publish-single.ts: publishing one package *)
(* ===================================================================== *)

(** The script the orchestrator starts once for each package.  Paths are
    relative to [process.cwd()], as in the propagation, and written as
    [path.join] puts them together: for the name of a directory of
    [packages], [path.join] has nothing to normalise. *)
Module PublishSingle.
Import JsString.

(** What the script does: the commands it hands to the shell of Bun, each
    with the directory it runs in, and the lines it prints. *)
Record process : Type := mkProcess {
  shell : list (string * string);
  console : list string
}.

Definition start : process := {| shell := []; console := [] |}.

(** The script returns or ends with an uncaught exception. *)
Definition Script (A : Type) : Type :=
  process -> process * Propagate.outcome A.

Definition ret {A} (a : A) : Script A := fun p => (p, Propagate.Returned a).

Definition bind {A B} (m : Script A) (f : A -> Script B) : Script B :=
  fun p =>
    match m p with
    | (p', Propagate.Returned a) => f a p'
    | (p', Propagate.Thrown message) => (p', Propagate.Thrown message)
    end.

Notation "m ;; k" := (bind m (fun _ => k))
  (at level 100, right associativity).

Definition throw {A} (message : string) : Script A :=
  fun p => (p, Propagate.Thrown message).

Definition console_log (line : string) : Script unit :=
  fun p =>
    ({| shell := shell p; console := console p ++ [line] |},
     Propagate.Returned tt).

Section Script.

(** The outside world: the exit code of a command run in a directory. *)
Variable exit_code : string -> string -> Z.

(** [await $`command`.cwd(cwd)]: the shell of Bun runs the command to its
    end and throws when the exit code is not 0. *)
Definition dollar (command cwd : string) : Script unit :=
  fun p =>
    let p' := {| shell := shell p ++ [(command, cwd)];
                 console := console p |} in
    let code := exit_code command cwd in
    if code =? 0 then (p', Propagate.Returned tt)
    else (p', Propagate.Thrown ("ShellError: Failed with exit code "
                                +:+ pretty code)).

Definition bun_publish : string :=
  "bun publish --tolerate-republish --registry http://localhost:4873".

(** [publish-single.ts]; [argv2] is [process.argv[2]]. *)
Definition publish_single (argv2 : option string) : Script unit :=
  if falsy argv2 then
    throw "Please specify a package name: bun publish-single.ts lambda-client"
  else
    let packageName := default "" argv2 in
    let packagePath := Propagate.path_join ["packages"; packageName] in
    dollar bun_publish packagePath ;;
    console_log ("✅ Published @remotion/" +:+ packageName).

End Script.

End PublishSingle.

(* ===================================================================== *)
(** * The scripts as children of the orchestrator *)
(* ===================================================================== *)

Module Release.

(** What [spawnSync] returns for a script that Bun ran to its end: exit
    code 0 when the script returned, 1 when it ended with an uncaught
    exception. *)
Definition script_result {A} (o : Propagate.outcome A)
  : Publish.SpawnSyncReturns :=
  match o with
  | Propagate.Returned _ => Publish.ok
  | Propagate.Thrown _ => Publish.exit_with 1
  end.

End Release.


(* ===================================================================== *)
(** * Properties of the orchestrator *)
(* ===================================================================== *)

Module PublishFacts.
Import JsString Regex Publish.

(** Let [simpl] and [cbn] compute string concatenation up to a variable. *)
#[local] Arguments String.append : simpl nomatch.

(** ** The version pattern *)

Lemma test_Cat_Void r s : test (Cat Void r) s = false.
Proof. induction s as [|c s IH]; simpl; auto. Qed.

Lemma test_Alt r1 r2 s : test (Alt r1 r2) s = test r1 s || test r2 s.
Proof. revert r1 r2; induction s as [|c s IH]; intros; simpl; auto. Qed.

Lemma test_Cat_Eps r s : test (Cat Eps r) s = test r s.
Proof.
  destruct s as [|c s]; simpl; [reflexivity|].
  now rewrite test_Alt, test_Cat_Void.
Qed.

Lemma test_Cat_Chr c r s :
  test (Cat (Chr c) r) s =
  match s with
  | EmptyString => false
  | String c' s' => Ascii.eqb c' c && test r s'
  end.
Proof.
  destruct s as [|c' s]; simpl; [reflexivity|].
  destruct (Ascii.eqb c' c); simpl; [apply test_Cat_Eps | apply test_Cat_Void].
Qed.

Lemma test_Cat_Digit r s :
  test (Cat Digit r) s =
  match s with
  | EmptyString => false
  | String c' s' => is_digit c' && test r s'
  end.
Proof.
  destruct s as [|c' s]; simpl; [reflexivity|].
  destruct (is_digit c'); simpl; [apply test_Cat_Eps | apply test_Cat_Void].
Qed.

Lemma test_Star_Digit s : test (Star Digit) s = all_digits s.
Proof.
  induction s as [|c s IH]; [reflexivity|].
  change (test (Star Digit) (String c s))
    with (test (Cat (deriv c Digit) (Star Digit)) s).
  change (all_digits (String c s)) with (is_digit c && all_digits s).
  simpl deriv. destruct (is_digit c); simpl.
  - now rewrite test_Cat_Eps.
  - apply test_Cat_Void.
Qed.

Lemma test_Plus_Digit s :
  test (Plus Digit) s = negb (String.eqb s "") && all_digits s.
Proof.
  unfold Plus. rewrite test_Cat_Digit. destruct s as [|c s]; [reflexivity|].
  now rewrite test_Star_Digit.
Qed.

(** The pattern of the source accepts exactly the versions the
    specification describes. *)
Lemma test_version_format v :
  test version_format v = true <-> pinned_version v.
Proof.
  unfold version_format, pinned_version.
  split.
  - repeat (rewrite test_Cat_Chr;
            destruct v as [|? v]; [discriminate|];
            intros [->%Ascii.eqb_eq H]%andb_prop; revert H).
    rewrite test_Plus_Digit. intros [Hne Hd]%andb_prop.
    exists v. split; [reflexivity|]. split; [|assumption].
    intros ->. discriminate.
  - intros (patch & -> & Hne & Hd).
    change ("4.0." +:+ patch)
      with (String "4" (String "." (String "0" (String "." patch)))).
    repeat (rewrite test_Cat_Chr; cbv beta iota;
            rewrite Ascii.eqb_refl, andb_true_l).
    rewrite test_Plus_Digit, Hd.
    destruct patch; [congruence|reflexivity].
Qed.

Lemma pinned_version_nonempty v : pinned_version v -> falsy (Some v) = false.
Proof. intros (patch & -> & _). reflexivity. Qed.

(** No accepted version brings the word that marks the tolerated step into
    a description. *)
Lemma digit_not_B c : is_digit c = true -> c <> "B"%char.
Proof. intros H ->. discriminate. Qed.

Lemma includes_digits patch rest :
  all_digits patch = true ->
  includes "Build" (patch +:+ rest) = includes "Build" rest.
Proof.
  induction patch as [|c patch IH]; [reflexivity|].
  change (all_digits (String c patch)) with (is_digit c && all_digits patch).
  intros [Hc Hp]%andb_prop.
  change (includes "Build" (String c (patch +:+ rest)) =
          includes "Build" rest).
  cbn [includes startsWith].
  destruct (Ascii.eqb_spec "B" c) as [<-|_]; [discriminate|].
  now apply IH.
Qed.

(** ** The marks a computation leaves *)

Lemma digest_app t1 t2 : digest (t1 ++ t2) = digest t1 ++ digest t2.
Proof. apply omap_app. Qed.

Lemma digest_snoc t e :
  digest (t ++ [e]) =
  digest t ++ match significant e with Some m => [m] | None => [] end.
Proof.
  rewrite digest_app. unfold digest; simpl.
  destruct (significant e); reflexivity.
Qed.

Section Runs.
Variable child : nat -> SpawnSyncReturns.

Lemma marks_app l1 l2 k :
  marks child (l1 ++ l2) k =
  if halts child l1 k then marks child l1 k
  else marks child l1 k ++ marks child l2 (k + length l1).
Proof.
  revert k; induction l1 as [|s l1 IH]; intros k; simpl.
  - now rewrite Nat.add_0_r.
  - rewrite IH, <- Nat.add_succ_comm.
    destruct (classify _ _); [| |reflexivity];
      destruct (halts child l1 (S k)); reflexivity.
Qed.

Lemma halts_app l1 l2 k :
  halts child (l1 ++ l2) k =
  halts child l1 k || halts child l2 (k + length l1).
Proof.
  revert k; induction l1 as [|s l1 IH]; intros k; simpl.
  - now rewrite Nat.add_0_r.
  - rewrite IH, <- Nat.add_succ_comm. now destruct (classify _ _).
Qed.

Lemma performs_ret {A} (a : A) : performs child (ret a) [] (fun x => x = a).
Proof.
  intros p; simpl. rewrite app_nil_r, Nat.add_0_r. eauto.
Qed.

Lemma performs_console_log line :
  significant (ConsoleLog line) = None ->
  performs child (console_log line) [] (fun _ => True).
Proof.
  intros H p. unfold console_log, emit.
  cbn [fst snd trace spawned marks halts length].
  rewrite digest_snoc, H, Nat.add_0_r.
  split; [reflexivity|]. split; [|reflexivity]. exists tt; auto.
Qed.

Lemma performs_log emoji message color :
  significant
    (ConsoleLog (color +:+ emoji +:+ "  " +:+ message +:+ reset colors))
    = None ->
  performs child (log emoji message color) [] (fun _ => True).
Proof. apply performs_console_log. Qed.

Lemma performs_bind {A B} (m : M A) (f : A -> M B) l1 l2 Q R :
  performs child m l1 Q ->
  (forall a, Q a -> performs child (f a) l2 R) ->
  performs child (bind m f) (l1 ++ l2) R.
Proof.
  intros Hm Hf p. specialize (Hm p). unfold bind.
  rewrite marks_app, halts_app.
  destruct (m p) as [p1 [a|code]]; simpl in Hm; destruct Hm as [Hd Hm];
    destruct (halts child l1 (spawned p)); simpl orb; cbv iota.
  - discriminate Hm.
  - destruct Hm as [(a' & [= <-] & HQ) Hs].
    specialize (Hf a HQ p1). rewrite Hs in Hf. destruct Hf as [Hd' Hf].
    rewrite Hd', Hd, <- app_assoc. split; [reflexivity|].
    destruct (halts child l2 _); [assumption|].
    destruct Hf as [Hf ->]. split; [assumption|].
    rewrite length_app. lia.
  - injection Hm as ->. split; [assumption|reflexivity].
  - destruct Hm as [(a' & [=] & _) _].
Qed.

Lemma performs_weaken {A} (m : M A) l l' (Q Q' : A -> Prop) :
  performs child m l Q -> l = l' -> (forall a, Q a -> Q' a) ->
  performs child m l' Q'.
Proof.
  intros H <- HQ p. specialize (H p). destruct H as [Hd H].
  split; [assumption|].
  destruct (halts child l (spawned p)); [assumption|].
  destruct H as [(a & Ha & Hq) Hs]. eauto.
Qed.

Lemma blue_line_silent emoji message :
  significant
    (ConsoleLog (blue colors +:+ emoji +:+ "  " +:+ message +:+ reset colors))
    = None.
Proof. reflexivity. Qed.

Lemma green_line_silent emoji message :
  significant
    (ConsoleLog (green colors +:+ emoji +:+ "  " +:+ message +:+ reset colors))
    = None.
Proof. reflexivity. Qed.

Lemma error_line_failure message :
  significant
    (ConsoleLog (red colors +:+ "❌" +:+ "  " +:+ message +:+ reset colors))
    = Some Failure.
Proof. reflexivity. Qed.

Lemma warning_line_warning :
  significant (ConsoleLog warning_line) = Some Warning.
Proof. reflexivity. Qed.

(** [exec] performs its one step. *)
Lemma performs_exec c a d :
  performs child (exec child c a d) [mkStep c a d] (fun _ => True).
Proof.
  intros p.
  cbv beta iota delta
    [exec bind log console_log emit spawnSync error process_exit ret].
  cbn [marks halts length trace spawned fst snd description spawned_of
       command args].
  unfold classify.
  destruct (child (spawned p)) as [[message|] [status|]];
    cbn [result_error result_status fst snd trace spawned];
    try destruct (Z.eqb_spec status 0); cbn [negb];
    try destruct (includes "Build" d);
    cbv beta iota; cbn [fst snd trace spawned];
    rewrite ?digest_snoc, ?blue_line_silent, ?error_line_failure,
      ?warning_line_warning;
    cbn [significant]; rewrite <- ?app_assoc; cbn [app];
    (split; [reflexivity|]); try reflexivity;
    (split; [exists tt; split; [reflexivity|exact I] | lia]).
Qed.

Lemma performs_for_of {A} (l : list A) (body : A -> M unit) (g : A -> step) :
  (forall x, performs child (body x) [g x] (fun _ => True)) ->
  performs child (for_of l body) (map g l) (fun _ => True).
Proof.
  intros Hbody. induction l as [|x l IH]; simpl.
  - eapply performs_weaken; [apply performs_ret|reflexivity|auto].
  - change (g x :: map g l) with ([g x] ++ map g l).
    eapply performs_bind; [apply Hbody|]. intros _ _. exact IH.
Qed.

End Runs.

(** ** The whole run *)

Ltac perform :=
  lazymatch goal with
  | |- performs _ (bind _ _) _ _ =>
      eapply performs_bind;
      [perform
      | let Hret := fresh "Hret" in
        intros ? Hret; try (cbv beta in Hret; subst); perform]
  | |- performs _ (ret _) _ _ => apply performs_ret
  | |- performs _ (console_log _) _ _ =>
      apply performs_console_log; reflexivity
  | |- performs _ (log _ _ _) _ _ => apply performs_log; reflexivity
  | |- performs _ (exec _ _ _ _) _ _ => apply performs_exec
  | |- performs _ (for_of _ _) _ _ =>
      eapply performs_for_of; intros ?; apply performs_exec
  | |- performs _ (publishPackages _) _ _ =>
      unfold publishPackages; perform
  | |- performs _ (tagPackagesAsLatest _ _ _) _ _ =>
      unfold tagPackagesAsLatest; perform
  end.

Section Pipeline.
Variable child : nat -> SpawnSyncReturns.

Lemma publishPackages_performs :
  performs child (publishPackages child) (map publish_step publishOrder)
    (fun published => published = publishOrder).
Proof. eapply performs_weaken; [perform|reflexivity|auto]. Qed.

Lemma tagPackagesAsLatest_performs version packages :
  performs child (tagPackagesAsLatest child version packages)
    (map (tag_step version) packages) (fun _ => True).
Proof.
  eapply performs_weaken; [perform| |auto].
  simpl. now rewrite app_nil_r.
Qed.

Lemma main_performs v :
  pinned_version v ->
  performs child (main child (Some v)) (plan v) (fun _ => True).
Proof.
  intros Hv. unfold main.
  rewrite (pinned_version_nonempty v Hv).
  apply test_version_format in Hv.
  change (default "" (Some v)) with v. rewrite Hv. cbn [negb].
  eapply performs_weaken; [perform| |auto].
  cbn [app]. rewrite app_nil_r. reflexivity.
Qed.

(** An accepted version: the run leaves the marks of the planned steps and
    its exit code tells whether one of them was fatal. *)
Lemma run_accepted v :
  pinned_version v ->
  digest (trace (run child (Some v)).1) = marks child (plan v) 0 /\
  (run child (Some v)).2 = if halts child (plan v) 0 then 1 else 0.
Proof.
  intros Hv. destruct (main_performs v Hv start) as [Hd Hh].
  unfold run. destruct (main child (Some v) start) as [p [[]|code]];
    unfold start in *; cbn [fst snd spawned trace digest omap app] in *;
    (split; [assumption|]);
    destruct (halts child (plan v) 0).
  - discriminate Hh.
  - reflexivity.
  - now injection Hh as ->.
  - now destruct Hh as [(a & [=] & _) _].
Qed.

(** A missing or malformed argument: one error line, exit code 1, and
    nothing else happened. *)
Lemma run_rejected argv2 :
  falsy argv2 = true \/ test version_format (default "" argv2) = false ->
  exists message,
    run child argv2 =
    ({| trace := [ConsoleLog (red colors +:+ "❌" +:+ "  " +:+ message
                              +:+ reset colors)];
        spawned := 0 |}, 1).
Proof.
  unfold run, main. destruct (falsy argv2) eqn:Hf.
  - intros _. eexists. reflexivity.
  - intros [[=]|Ht]. rewrite Ht. eexists. reflexivity.
Qed.

End Pipeline.

(** ** What the marks of a list of steps look like *)

Section Marks.
Variable child : nat -> SpawnSyncReturns.

Lemma commands_marks l k :
  commands (marks child l k) = map call (take (executed child l k) l).
Proof.
  revert k; induction l as [|s l IH]; intros k; [reflexivity|].
  cbn [marks executed]. destruct (classify _ _); cbn [take map];
    cbn; rewrite ?take_0; try reflexivity;
    f_equal; apply IH.
Qed.

Lemma executed_fatal l k i s :
  l !! i = Some s ->
  classify (description s) (child (k + i)) = Fatal ->
  (executed child l k <= S i)%nat.
Proof.
  revert k i; induction l as [|s' l IH]; intros k i Hl Hc; [discriminate|].
  cbn [executed]. destruct i as [|i]; cbn in Hl.
  - injection Hl as ->. rewrite Nat.add_0_r in Hc. rewrite Hc. lia.
  - rewrite <- Nat.add_succ_comm in Hc. specialize (IH _ _ Hl Hc).
    destruct (classify (description s') (child k)); lia.
Qed.

Lemma executed_all l k :
  halts child l k = false -> executed child l k = length l.
Proof.
  revert k; induction l as [|s l IH]; intros k; [reflexivity|].
  cbn [halts executed length]. destruct (classify _ _);
    [intros H; f_equal; auto..|discriminate].
Qed.

Lemma halts_true l k :
  halts child l k = true ->
  exists i s, l !! i = Some s /\
              classify (description s) (child (k + i)) = Fatal.
Proof.
  revert k; induction l as [|s l IH]; intros k; [discriminate|].
  cbn [halts]. destruct (classify _ _) eqn:Hc.
  1,2: intros (i & s' & Hi & Hf)%IH; exists (S i), s';
       rewrite <- Nat.add_succ_comm; split; assumption.
  intros _. exists 0%nat, s. rewrite Nat.add_0_r. split; [reflexivity|assumption].
Qed.

Lemma halts_false l k i s :
  halts child l k = false -> l !! i = Some s ->
  classify (description s) (child (k + i)) <> Fatal.
Proof.
  revert k i; induction l as [|s' l IH]; intros k i Hh Hl; [discriminate|].
  cbn [halts] in Hh. destruct i as [|i]; cbn in Hl.
  - injection Hl as ->. rewrite Nat.add_0_r.
    destruct (classify _ _); congruence.
  - rewrite <- Nat.add_succ_comm. apply IH; [|assumption].
    destruct (classify _ _); congruence.
Qed.

(** Splitting the plan at a step that is reached. *)
Lemma marks_at l k i s :
  l !! i = Some s -> halts child (take i l) k = false ->
  marks child l k =
    marks child (take i l) k ++ marks child (s :: drop (S i) l) (k + i) /\
  halts child l k = halts child (s :: drop (S i) l) (k + i).
Proof.
  intros Hl Hh.
  assert (Hlen : length (take i l) = i).
  { apply length_take_le. apply lookup_lt_Some in Hl. lia. }
  pose proof (take_drop_middle l i s Hl) as E. split.
  - rewrite <- E at 1. now rewrite marks_app, Hh, Hlen.
  - rewrite <- E at 1. now rewrite halts_app, Hh, Hlen.
Qed.

Lemma marks_failure l k :
  Failure ∈ marks child l k <-> halts child l k = true.
Proof.
  revert k; induction l as [|s l IH]; intros k; cbn [marks halts].
  - split; [intros H; inversion H|discriminate].
  - destruct (classify _ _); rewrite <- ?IH, !elem_of_cons; unfold spawned_of.
    + split; [intros [[=]|H]; exact H|now right].
    + split; [intros [[=]|[[=]|H]]; exact H|now right; right].
    + split; [reflexivity|intros _; right; now left].
Qed.

Lemma marks_halted l k :
  halts child l k = true ->
  exists before s, s ∈ l /\ marks child l k = before ++ [spawned_of s; Failure].
Proof.
  revert k; induction l as [|s l IH]; intros k; [discriminate|].
  cbn [marks halts]. destruct (classify _ _).
  - intros (b & s' & Hs & ->)%IH. exists (spawned_of s :: b), s'.
    split; [now right|reflexivity].
  - intros (b & s' & Hs & ->)%IH. exists (spawned_of s :: Warning :: b), s'.
    split; [now right|reflexivity].
  - intros _. exists [], s. split; [now left|reflexivity].
Qed.

End Marks.

(** ** The plan of an accepted version *)

Lemma includes_all_digits patch :
  all_digits patch = true -> includes "Build" patch = false.
Proof.
  induction patch as [|c patch IH]; [reflexivity|].
  change (all_digits (String c patch)) with (is_digit c && all_digits patch).
  intros [Hc Hp]%andb_prop. cbn [includes startsWith].
  destruct (Ascii.eqb_spec "B" c) as [<-|_]; [discriminate|].
  now apply IH.
Qed.

Lemma publish_not_tolerated :
  Forall (fun pkg => includes "Build" (description (publish_step pkg)) = false)
    publishOrder.
Proof. repeat (constructor; [reflexivity|]). constructor. Qed.

Lemma tag_not_tolerated v :
  pinned_version v ->
  Forall (fun pkg => includes "Build" (description (tag_step v pkg)) = false)
    publishOrder.
Proof.
  intros (patch & -> & _ & Hd).
  repeat (constructor; [cbn; now rewrite includes_digits|]). constructor.
Qed.

Lemma plan_tolerated v k s :
  pinned_version v -> plan v !! k = Some s ->
  includes "Build" (description s) = true -> k = 3%nat.
Proof.
  intros Hv Hk Hb. pose proof (tag_not_tolerated v Hv) as Htag.
  destruct Hv as (patch & -> & _ & Hd).
  destruct k as [|[|[|[|k]]]]; [..|reflexivity|].
  1-3: apply (inj Some) in Hk; subst s; cbn in Hb;
       try rewrite includes_all_digits in Hb by assumption; discriminate Hb.
  exfalso. unfold plan in Hk.
  change ((map publish_step publishOrder ++
           map (tag_step ("4.0." +:+ patch)) publishOrder) !! k = Some s) in Hk.
  apply lookup_app_Some in Hk as [Hk|[_ Hk]];
    apply list_elem_of_lookup_2, list_elem_of_fmap in Hk as (pkg & -> & Hin).
  - pose proof publish_not_tolerated as Hp.
    rewrite Forall_forall in Hp. specialize (Hp _ Hin). congruence.
  - rewrite Forall_forall in Htag. specialize (Htag _ Hin). congruence.
Qed.

Lemma plan_publish v i pkg :
  publishOrder !! i = Some pkg -> plan v !! (4 + i)%nat = Some (publish_step pkg).
Proof.
  intros H.
  change ((map publish_step publishOrder ++ map (tag_step v) publishOrder)
            !! i = Some (publish_step pkg)).
  rewrite lookup_app_l.
  - now rewrite list_lookup_fmap, H.
  - rewrite length_map. now apply lookup_lt_Some in H.
Qed.

Lemma take_plan_publish v i :
  take (5 + i) (plan v) =
  take (5 + i)
    ([bump_step v; version_files_step v; install_step; build_step]
     ++ map publish_step publishOrder ++ map (tag_step v) publishOrder).
Proof. reflexivity. Qed.

Lemma publishOrder_NoDup : NoDup publishOrder.
Proof. apply (bool_decide_unpack (NoDup publishOrder)). vm_compute. exact I. Qed.

Lemma mark_in_commands s ms : spawned_of s ∈ ms -> call s ∈ commands ms.
Proof.
  intros H. apply list_elem_of_omap. exists (spawned_of s). auto.
Qed.

(** ** Runs seen from one step of the plan *)

Lemma run_halts_at child v k s :
  pinned_version v -> plan v !! k = Some s -> reaches child v k ->
  classify (description s) (child k) = Fatal ->
  (run child (Some v)).2 = 1 /\
  digest (trace (run child (Some v)).1) =
    marks child (take k (plan v)) 0 ++ [spawned_of s; Failure].
Proof.
  intros Hv Hk Hr Hc.
  destruct (run_accepted child v Hv) as [-> ->].
  destruct (marks_at child _ 0 k s Hk Hr) as [-> ->].
  cbn [marks halts Nat.add]. now rewrite Hc.
Qed.

Lemma run_passes child v k s :
  pinned_version v -> plan v !! k = Some s -> reaches child v k ->
  classify (description s) (child k) <> Fatal ->
  digest (trace (run child (Some v)).1) =
    marks child (take k (plan v)) 0 ++
    spawned_of s ::
    match classify (description s) (child k) with
    | Tolerated => [Warning]
    | _ => []
    end ++ marks child (drop (S k) (plan v)) (S k).
Proof.
  intros Hv Hk Hr Hc.
  destruct (run_accepted child v Hv) as [-> _].
  destruct (marks_at child _ 0 k s Hk Hr) as [-> _].
  cbn [marks Nat.add]. now destruct (classify _ _).
Qed.

(** ** The claims about the orchestrator *)

(** C1 (the code departs from it).  The specification wants every package
    published after the packages it depends on, in particular [bundler]
    before [renderer] and [renderer] before [cli].  The order of the source
    has [bundler] first, but [cli] second and [renderer] sixteenth: [cli] is
    published before [renderer], in the order itself and in the run where
    every step succeeds. *)
Theorem C1_cli_published_before_renderer :
  position "bundler" publishOrder = Some 0%nat /\
  position "cli" publishOrder = Some 1%nat /\
  position "renderer" publishOrder = Some 15%nat /\
  published_after publishOrder "renderer" "bundler" /\
  ~ published_after publishOrder "cli" "renderer" /\
  ~ respects_dependencies publishOrder workspace_dependencies /\
  let cs := commands (digest (trace (run (fun _ => ok) (Some "4.0.500")).1)) in
  cs !! 5%nat = Some (call (publish_step "cli")) /\
  cs !! 19%nat = Some (call (publish_step "renderer")).
Proof.
  assert (Hb : position "bundler" publishOrder = Some 0%nat)
    by (vm_compute; reflexivity).
  assert (Hc : position "cli" publishOrder = Some 1%nat)
    by (vm_compute; reflexivity).
  assert (Hr : position "renderer" publishOrder = Some 15%nat)
    by (vm_compute; reflexivity).
  assert (Hn : ~ published_after publishOrder "cli" "renderer").
  { intros (i & j & Hi & Hj & Hlt). rewrite Hr in Hi. rewrite Hc in Hj.
    injection Hi as <-. injection Hj as <-. lia. }
  split; [exact Hb|]. split; [exact Hc|]. split; [exact Hr|].
  split; [exists 0%nat, 15%nat; repeat split; [assumption..|lia]|].
  split; [exact Hn|].
  split; [intros H; apply Hn, H; unfold workspace_dependencies; left|].
  cbv zeta. split; vm_compute; reflexivity.
Qed.

(** C2.  [main] goes on to its first step exactly for the versions that
    match the fixed pattern (major 4, minor 0, patch a non-empty sequence of
    digits): for these the first step is spawned; for every other string the
    run ends with exit code 1 after one error line, before any child is
    spawned.  [4.0.428] is accepted and [4.1.0] is not. *)
Theorem C2_version_validation child v :
  (test version_format v = true <-> pinned_version v) /\
  (pinned_version v ->
   exists rest,
     digest (trace (run child (Some v)).1) = spawned_of (bump_step v) :: rest) /\
  (~ pinned_version v ->
   (run child (Some v)).2 = 1 /\
   spawned (run child (Some v)).1 = 0%nat /\
   digest (trace (run child (Some v)).1) = [Failure]) /\
  pinned_version "4.0.428" /\
  ~ pinned_version "4.1.0".
Proof.
  split; [apply test_version_format|]. split; [|split; [|split]].
  - intros Hv. destruct (run_accepted child v Hv) as [-> _].
    change (plan v) with (bump_step v :: tail (plan v)).
    cbn [marks]. destruct (classify _ _); eauto.
  - intros Hv.
    destruct (run_rejected child (Some v)) as [message ->].
    + right. change (default "" (Some v)) with v.
      rewrite <- test_version_format in Hv. now destruct (test _ _).
    + cbn [fst snd spawned trace]. repeat split.
  - apply test_version_format. reflexivity.
  - rewrite <- test_version_format. discriminate.
Qed.

Lemma plan_build v : plan v !! 3%nat = Some build_step.
Proof. reflexivity. Qed.

Lemma drop_plan_4 v :
  drop 4 (plan v) = publish_step "bundler" :: drop 5 (plan v).
Proof. reflexivity. Qed.

Lemma marks_cons child s l k :
  marks child (s :: l) k =
  match classify (description s) (child k) with
  | Success => spawned_of s :: marks child l (S k)
  | Tolerated => spawned_of s :: Warning :: marks child l (S k)
  | Fatal => [spawned_of s; Failure]
  end.
Proof. reflexivity. Qed.

Lemma pinned_4_0_428 : pinned_version "4.0.428".
Proof. exists "428". split; [reflexivity|]. split; [discriminate|reflexivity]. Qed.

(** C3 (amended).  When the build step (step 3 of the plan) is reached and
    ends with a non-zero exit code, whatever the code (127, with which the
    shell ends when it does not find the build tool, included), the run
    records the build warning and goes on to publish the first package.
    Only when [spawnSync] returns an error object for the build, which it
    does when the shell itself could not be started, the run ends there
    with an error report and exit code 1.  Every other step that ends with
    a non-zero exit code ends the run in the same way. *)
Theorem C3_build_failure_tolerated child v :
  pinned_version v -> reaches child v 3 ->
  (forall code,
     result_error (child 3%nat) = None ->
     result_status (child 3%nat) = Some code -> code <> 0 ->
     exists after,
       digest (trace (run child (Some v)).1) =
         marks child (take 3 (plan v)) 0 ++
         spawned_of build_step :: Warning ::
         spawned_of (publish_step "bundler") :: after) /\
  (forall message,
     result_error (child 3%nat) = Some message ->
     (run child (Some v)).2 = 1 /\
     digest (trace (run child (Some v)).1) =
       marks child (take 3 (plan v)) 0 ++ [spawned_of build_step; Failure]) /\
  (forall k s code,
     plan v !! k = Some s -> k <> 3%nat -> reaches child v k ->
     result_status (child k) = Some code -> code <> 0 ->
     (run child (Some v)).2 = 1 /\
     digest (trace (run child (Some v)).1) =
       marks child (take k (plan v)) 0 ++ [spawned_of s; Failure]).
Proof.
  intros Hv Hr. split; [|split].
  - intros code He Hs Hc.
    assert (Hcl : classify (description build_step) (child 3%nat) = Tolerated).
    { unfold classify. rewrite He, Hs.
      destruct (Z.eqb_spec code 0); [contradiction|reflexivity]. }
    rewrite (run_passes child v 3 build_step Hv (plan_build v) Hr)
      by congruence.
    rewrite Hcl, drop_plan_4, marks_cons.
    destruct (classify _ (child 4%nat)); eexists; reflexivity.
  - intros message He.
    apply (run_halts_at child v 3 build_step Hv (plan_build v) Hr).
    unfold classify. now rewrite He.
  - intros k s code Hk Hne Hrk Hs Hc.
    apply (run_halts_at child v k s Hv Hk Hrk).
    unfold classify. rewrite Hs. destruct (result_error _); [reflexivity|].
    destruct (Z.eqb_spec code 0); [contradiction|].
    destruct (includes "Build" (description s)) eqn:Hb; [|reflexivity].
    now apply (plan_tolerated v k s Hv Hk) in Hb.
Qed.

Lemma C3_build_failure_tolerated_witness :
  exists after,
    digest (trace (run (only 3 (exit_with 2)) (Some "4.0.428")).1) =
      marks (only 3 (exit_with 2)) (take 3 (plan "4.0.428")) 0 ++
      spawned_of build_step :: Warning ::
      spawned_of (publish_step "bundler") :: after.
Proof.
  refine (proj1 (C3_build_failure_tolerated (only 3 (exit_with 2)) "4.0.428"
                   pinned_4_0_428 _) 2 _ _ _).
  - vm_compute. reflexivity.
  - reflexivity.
  - reflexivity.
  - discriminate.
Defined.

(** C3 as the specification words it fails: when the shell does not find
    the build tool, the build step could not be started, yet the run records
    the build warning, goes through all the steps that follow and ends with
    exit code 0. *)
Lemma C3_missing_build_tool_tolerated :
  ~ start_failure_is_fatal (only 3 command_not_found) "4.0.428" /\
  (run (only 3 command_not_found) (Some "4.0.428")).2 = 0 /\
  digest (trace (run (only 3 command_not_found) (Some "4.0.428")).1) =
    map spawned_of (take 4 (plan "4.0.428")) ++
    Warning :: map spawned_of (drop 4 (plan "4.0.428")).
Proof.
  assert (Hcode : (run (only 3 command_not_found) (Some "4.0.428")).2 = 0)
    by (vm_compute; reflexivity).
  split; [|split; [exact Hcode|vm_compute; reflexivity]].
  intros H.
  destruct (H 3%nat build_step) as [Hexit _].
  - reflexivity.
  - reflexivity.
  - apply command_missing.
  - now apply Hexit.
Qed.

(** C4.  When the publish step of the package at index [i] of the publish
    order is fatal, the run spawns at most the steps up to that one, and no
    publish or tag command for a package at an index greater than [i]
    appears in it. *)
Theorem C4_fail_fast child v i pkg :
  pinned_version v -> publishOrder !! i = Some pkg ->
  classify (description (publish_step pkg)) (child (4 + i)%nat) = Fatal ->
  (exists n, (n <= 5 + i)%nat /\
     commands (digest (trace (run child (Some v)).1)) =
       map call (take n (plan v))) /\
  forall j pkg', (i < j)%nat -> publishOrder !! j = Some pkg' ->
    (spawned_of (publish_step pkg') ∉ digest (trace (run child (Some v)).1)) /\
    (spawned_of (tag_step v pkg') ∉ digest (trace (run child (Some v)).1)).
Proof.
  intros Hv Hi Hc. destruct (run_accepted child v Hv) as [-> _].
  pose proof (executed_fatal child (plan v) 0 (4 + i) _
                (plan_publish v i pkg Hi) Hc) as Hn.
  split.
  { exists (executed child (plan v) 0). split; [lia|apply commands_marks]. }
  assert (Hearly : forall s, spawned_of s ∈ marks child (plan v) 0 ->
            command s = "bun" /\
            forall p, args s = ["publish-single.ts"; p] ->
              exists q, (q <= i)%nat /\ publishOrder !! q = Some p).
  { intros s Hin%mark_in_commands. rewrite commands_marks in Hin.
    apply list_elem_of_fmap in Hin as (s' & Hcall & Hs').
    injection Hcall as -> ->.
    apply elem_of_take in Hs' as (q & Hq & Hlt).
    destruct q as [|[|[|[|q]]]];
      [apply (inj Some) in Hq; subst s'; split; [reflexivity|discriminate]..|].
    unfold plan in Hq.
    change ((map publish_step publishOrder ++ map (tag_step v) publishOrder)
              !! q = Some s') in Hq.
    rewrite lookup_app_l in Hq
      by (rewrite length_map; apply lookup_lt_Some in Hi; lia).
    rewrite list_lookup_fmap in Hq.
    destruct (publishOrder !! q) as [p'|] eqn:Hp; [|discriminate].
    injection Hq as <-. split; [reflexivity|].
    intros p [= <-]. exists q. split; [lia|assumption]. }
  intros j pkg' Hij Hj. split; intros [Hcmd Hargs]%Hearly.
  - destruct (Hargs pkg' eq_refl) as (q & Hq & Hp).
    pose proof (NoDup_lookup _ _ _ _ publishOrder_NoDup Hp Hj). lia.
  - discriminate Hcmd.
Qed.

Lemma C4_fail_fast_witness :
  (spawned_of (publish_step "skia")
     ∉ digest (trace (run (only 6 (exit_with 1)) (Some "4.0.428")).1)) /\
  (spawned_of (tag_step "4.0.428" "skia")
     ∉ digest (trace (run (only 6 (exit_with 1)) (Some "4.0.428")).1)).
Proof.
  refine (proj2 (C4_fail_fast (only 6 (exit_with 1)) "4.0.428" 2
                   "compositor-darwin-arm64" pinned_4_0_428 _ _)
            28%nat "skia" _ _).
  - reflexivity.
  - reflexivity.
  - lia.
  - reflexivity.
Defined.

(** C5 (amended).  A step of the plan that is reached and could not be
    started, or that is not the build step and ends with a non-zero exit
    code, ends the run with exit code 1 right after an error report.  The
    build step ending with a non-zero exit code leaves a warning.  A step
    that ends without an exit code and without an error (a child ended by a
    signal) is taken for a success: the run goes on with the next step and
    reports nothing. *)
Theorem C5_failures_surfaced child v k s :
  pinned_version v -> plan v !! k = Some s -> reaches child v k ->
  ((result_error (child k) <> None \/
    exists code, result_status (child k) = Some code /\ code <> 0 /\
                 s <> build_step) ->
   (run child (Some v)).2 = 1 /\
   digest (trace (run child (Some v)).1) =
     marks child (take k (plan v)) 0 ++ [spawned_of s; Failure]) /\
  (s = build_step -> result_error (child k) = None ->
   (exists code, result_status (child k) = Some code /\ code <> 0) ->
   digest (trace (run child (Some v)).1) =
     marks child (take k (plan v)) 0 ++
     spawned_of s :: Warning :: marks child (drop (S k) (plan v)) (S k)) /\
  (child k = killed ->
   digest (trace (run child (Some v)).1) =
     marks child (take k (plan v)) 0 ++
     spawned_of s :: marks child (drop (S k) (plan v)) (S k)).
Proof.
  intros Hv Hk Hr. split; [|split].
  - intros H. apply (run_halts_at child v k s Hv Hk Hr).
    unfold classify. destruct H as [He|(code & Hs & Hc & Hb)].
    + destruct (result_error (child k)); [reflexivity|contradiction].
    + rewrite Hs. destruct (result_error (child k)); [reflexivity|].
      destruct (Z.eqb_spec code 0); [contradiction|].
      destruct (includes "Build" (description s)) eqn:Hi; [|reflexivity].
      apply (plan_tolerated v k s Hv Hk) in Hi. subst k.
      rewrite plan_build in Hk. congruence.
  - intros -> He (code & Hs & Hc).
    assert (Hcl : classify (description build_step) (child k) = Tolerated).
    { unfold classify. rewrite He, Hs.
      destruct (Z.eqb_spec code 0); [contradiction|reflexivity]. }
    rewrite (run_passes child v k build_step Hv Hk Hr) by congruence.
    now rewrite Hcl.
  - intros Hkilled.
    assert (Hcl : classify (description s) (child k) = Success)
      by now rewrite Hkilled.
    rewrite (run_passes child v k s Hv Hk Hr) by congruence.
    now rewrite Hcl.
Qed.

Lemma C5_failures_surfaced_witness :
  (run (only 2 (exit_with 127)) (Some "4.0.428")).2 = 1 /\
  digest (trace (run (only 2 (exit_with 127)) (Some "4.0.428")).1) =
    marks (only 2 (exit_with 127)) (take 2 (plan "4.0.428")) 0
    ++ [spawned_of install_step; Failure].
Proof.
  refine (proj1 (C5_failures_surfaced (only 2 (exit_with 127)) "4.0.428" 2
                   install_step pinned_4_0_428 _ _) _).
  - reflexivity.
  - reflexivity.
  - right. exists 127. repeat split; discriminate.
Defined.

(** C5 as the specification words it fails: when every child is ended by a
    signal, the first step has failed, yet the run goes through all steps
    and ends with exit code 0, no warning and no error report. *)
Lemma C5_signal_swallowed :
  ~ surfaces_every_failure (fun _ => killed) "4.0.428".
Proof.
  intros H.
  destruct (H 0%nat (bump_step "4.0.428")) as [Hcode _].
  - reflexivity.
  - reflexivity.
  - right. discriminate.
  - intros [[=] _].
  - apply Hcode. vm_compute. reflexivity.
Qed.

Lemma halts_false_iff child l :
  halts child l 0 = false <->
  forall k s, l !! k = Some s -> classify (description s) (child k) <> Fatal.
Proof.
  split.
  - intros H k s Hk. exact (halts_false child l 0 k s H Hk).
  - intros H. destruct (halts child l 0) eqn:Hh; [|reflexivity].
    apply halts_true in Hh as (i & s & Hi & Hf). now apply H in Hi.
Qed.

(** C6 (amended).  The exit code is 0 or 1.  It is 0 exactly when the
    argument is an accepted version and no step of the plan is fatal, and
    then every step of the plan was spawned; every fatal halt, whatever the
    exit code of the step that failed, and every usage or validation failure
    gives exit code 1. *)
Theorem C6_exit_code child argv2 :
  ((run child argv2).2 = 0 \/ (run child argv2).2 = 1) /\
  ((run child argv2).2 = 0 <->
   exists v, argv2 = Some v /\ pinned_version v /\
     forall k s, plan v !! k = Some s ->
                 classify (description s) (child k) <> Fatal) /\
  (forall v, argv2 = Some v -> (run child argv2).2 = 0 ->
     commands (digest (trace (run child argv2).1)) = map call (plan v)).
Proof.
  destruct argv2 as [v|];
    [destruct (test version_format v) eqn:Ht|].
  - apply test_version_format in Ht.
    destruct (run_accepted child v Ht) as [Hd ->].
    rewrite Hd, commands_marks.
    destruct (halts child (plan v) 0) eqn:Hh.
    + split; [now right|]. split; [|discriminate].
      split; [discriminate|]. intros (v' & [= <-] & _ & H).
      apply halts_false_iff in H. congruence.
    + split; [now left|]. split.
      * split; [|reflexivity]. intros _. exists v.
        split; [reflexivity|]. split; [assumption|].
        now apply halts_false_iff.
      * intros v' [= <-] _. now rewrite executed_all, firstn_all.
  - destruct (run_rejected child (Some v)) as [message ->]; [now right|].
    cbn [snd]. split; [now right|]. split; [|discriminate].
    split; [discriminate|]. intros (v' & [= <-] & Hv & _).
    apply test_version_format in Hv. congruence.
  - destruct (run_rejected child None) as [message ->]; [now left|].
    cbn [snd]. split; [now right|]. split; [|discriminate].
    split; [discriminate|]. intros (v' & [=] & _).
Qed.

(** C6 as the specification words it fails: the first step ends with exit
    code 2 and the run ends with exit code 1. *)
Lemma C6_exit_code_not_propagated :
  ~ propagates_exit_code (only 0 (exit_with 2)) "4.0.428".
Proof.
  intros H.
  specialize (H 0%nat (bump_step "4.0.428") 2 eq_refl eq_refl eq_refl eq_refl).
  vm_compute in H. discriminate H.
Qed.

Lemma plan_npm v i s :
  plan v !! i = Some s -> command s = "npm" -> (33 <= i)%nat.
Proof.
  intros Hi Hc.
  destruct i as [|[|[|[|i]]]];
    [apply (inj Some) in Hi; subst s; discriminate Hc..|].
  unfold plan in Hi.
  change ((map publish_step publishOrder ++ map (tag_step v) publishOrder)
            !! i = Some s) in Hi.
  apply lookup_app_Some in Hi as [Hi|[Hlen _]].
  - rewrite list_lookup_fmap in Hi.
    destruct (publishOrder !! i); [|discriminate].
    injection Hi as <-. discriminate Hc.
  - rewrite length_map in Hlen. change (length publishOrder) with 29%nat in Hlen.
    lia.
Qed.

Lemma tag_commands v :
  filter (fun c => c.1 = "npm") (map call (plan v)) =
  map (fun pkg =>
         ("npm",
          ["dist-tag"; "add";
           (if String.eqb pkg "core" then "remotion" else "@remotion/" +:+ pkg)
             +:+ "@" +:+ v;
           "latest"; "--registry"; "http://localhost:4873/"]))
      publishOrder.
Proof. vm_compute. reflexivity. Qed.

(** C7.  The commands of a run are an initial part of the plan: the four
    preparation steps, then one publish per package of the publish order,
    then one tag per package.  So a tag command comes only after the publish
    command of every package, none of which was fatal; and in a run that
    ends with exit code 0 the tag commands are, in the publish order, one per
    package that [publishPackages] returned, each naming [remotion] for the
    package [core] and [@remotion/<pkg>] for every other, at the accepted
    version. *)
Theorem C7_tagging_after_publishing child v :
  pinned_version v ->
  let cs := commands (digest (trace (run child (Some v)).1)) in
  (exists n, cs = take n (map call (plan v))) /\
  (forall i c, cs !! i = Some c -> c.1 = "npm" ->
     forall j pkg, publishOrder !! j = Some pkg ->
       (4 + j < i)%nat /\
       cs !! (4 + j)%nat = Some (call (publish_step pkg)) /\
       classify (description (publish_step pkg)) (child (4 + j)%nat)
         <> Fatal) /\
  ((run child (Some v)).2 = 0 ->
     filter (fun c => c.1 = "npm") cs =
     map (fun pkg =>
            ("npm",
             ["dist-tag"; "add";
              (if String.eqb pkg "core" then "remotion"
               else "@remotion/" +:+ pkg) +:+ "@" +:+ v;
              "latest"; "--registry"; "http://localhost:4873/"]))
         publishOrder) /\
  (forall p published,
     (publishPackages child p).2 = Returned published ->
     published = publishOrder) /\
  (forall version packages,
     performs child (tagPackagesAsLatest child version packages)
       (map (tag_step version) packages) (fun _ => True)).
Proof.
  intros Hv cs. subst cs.
  destruct (run_accepted child v Hv) as [-> ->].
  rewrite commands_marks.
  set (n := executed child (plan v) 0).
  split; [exists n; apply fmap_take|]. split; [|split; [|split]].
  - intros i c Hi Hc j pkg Hj.
    rewrite list_lookup_fmap in Hi.
    destruct (take _ _ !! i) as [s|] eqn:Hs; [|discriminate].
    injection Hi as <-. apply lookup_take_Some in Hs as [Hs Hlt].
    apply plan_npm in Hs; [|exact Hc].
    assert (Hj' : (j < 29)%nat) by now apply lookup_lt_Some in Hj.
    split; [lia|].
    rewrite list_lookup_fmap, lookup_take_lt, (plan_publish v j pkg Hj)
      by (fold n; lia).
    split; [reflexivity|]. intros Hf.
    pose proof (executed_fatal child (plan v) 0 (4 + j) _
                  (plan_publish v j pkg Hj) Hf). lia.
  - destruct (halts child (plan v) 0) eqn:Hh; [discriminate|]. intros _.
    subst n. rewrite executed_all, firstn_all by assumption.
    apply tag_commands.
  - intros p published Hp.
    destruct (publishPackages_performs child p) as [_ H].
    destruct (halts child _ _); [congruence|].
    destruct H as [(a & Ha & ->) _]. congruence.
  - apply tagPackagesAsLatest_performs.
Qed.

Lemma C7_tagging_after_publishing_witness :
  (4 + 28 < 33)%nat /\
  commands (digest (trace (run (fun _ => ok) (Some "4.0.428")).1))
    !! (4 + 28)%nat = Some (call (publish_step "skia")) /\
  classify (description (publish_step "skia")) (ok) <> Fatal.
Proof.
  refine (proj1 (proj2 (C7_tagging_after_publishing (fun _ => ok) "4.0.428"
                          pinned_4_0_428))
            33%nat (call (tag_step "4.0.428" "bundler")) _ _ 28%nat "skia" _).
  - vm_compute. reflexivity.
  - reflexivity.
  - reflexivity.
Defined.

End PublishFacts.

(* ===================================================================== *)
(** * Properties of the JSON model *)
(* ===================================================================== *)

Module JSONFacts.
Import JsString JSON.

#[local] Arguments String.append : simpl nomatch.

(** Divisions by constants, for [lia]. *)
#[local] Ltac Zify.zify_post_hook ::= Z.to_euclidean_division_equations.

(** ** Strings *)

Lemma append_assoc (a b c : string) : (a +:+ b) +:+ c = a +:+ (b +:+ c).
Proof. induction a as [|x a IH]; simpl; congruence. Qed.

Lemma append_nil_r (a : string) : a +:+ "" = a.
Proof. induction a as [|x a IH]; simpl; congruence. Qed.

Lemma length_append (a b : string) :
  String.length (a +:+ b) = (String.length a + String.length b)%nat.
Proof. induction a as [|c a IH]; simpl; congruence. Qed.

(** ** White space *)

Lemma skip_ws_blank ws s : blank ws = true -> skip_ws (ws +:+ s) = skip_ws s.
Proof.
  induction ws as [|c ws IH]; [reflexivity|]. simpl.
  intros [-> H]%andb_prop. auto.
Qed.

(** ** String literals *)

Lemma paired_head c s : N_of_ascii c <> 237%N -> paired (String c s) = false.
Proof.
  intros Hc. unfold paired.
  destruct s as [|a [|b [|l [|c' [|d s]]]]]; try reflexivity.
  destruct (N.eqb_spec (N_of_ascii c) 237); [contradiction|reflexivity].
Qed.

Lemma canonical_string_tail c s :
  canonical_string (String c s) = true -> canonical_string s = true.
Proof. cbn [canonical_string]. now intros [_ H]%andb_prop. Qed.

Lemma cons_unit_canonical c s :
  canonical_string (String c s) = true -> cons_unit c s = String c s.
Proof.
  cbn [canonical_string]. intros [Hp _]%andb_prop. unfold cons_unit.
  now destruct (paired (String c s)).
Qed.

Lemma parse_chars_escape_char c s :
  parse_chars (escape_char c +:+ s) =
  '(chars, rest) ← parse_chars s; Some (cons_unit c chars, rest).
Proof.
  destruct c as [[] [] [] [] [] [] [] []]; reflexivity.
Qed.

Lemma hex_value_digit n : (n < 16)%N -> hex_value (hex_digit n) = Some n.
Proof.
  intros H. destruct n as [|p]; [reflexivity|].
  do 5 (try (destruct p as [p|p|]; try reflexivity; try lia)).
Qed.

Lemma surrogate_bounds a b :
  (high_surrogate a || low_surrogate a) && continuation b = true ->
  (160 <= N_of_ascii a <= 191)%N /\ (128 <= N_of_ascii b <= 191)%N.
Proof.
  unfold high_surrogate, low_surrogate, continuation. cbv zeta.
  intros [[[H1 H2]%andb_prop|[H1 H2]%andb_prop]%orb_prop
          [H3 H4]%andb_prop]%andb_prop;
    apply N.leb_le in H1, H2, H3, H4; lia.
Qed.

Lemma utf8_surrogate a b :
  (high_surrogate a || low_surrogate a) && continuation b = true ->
  utf8 (surrogate a b) = String "237" (String a (String b "")).
Proof.
  intros [Ha Hb]%surrogate_bounds. unfold utf8, surrogate.
  remember (53248 + (N_of_ascii a - 128) * 64 + (N_of_ascii b - 128))%N
    as u eqn:Hu.
  destruct (N.ltb_spec u 128); [lia|]. destruct (N.ltb_spec u 2048); [lia|].
  assert (H1 : (224 + u / 4096 = 237)%N) by lia.
  assert (H2 : (128 + (u / 64) mod 64 = N_of_ascii a)%N) by lia.
  assert (H3 : (128 + u mod 64 = N_of_ascii b)%N) by lia.
  now rewrite H1, H2, H3, !ascii_N_embedding.
Qed.

Lemma parse_chars_surrogate a b s :
  (high_surrogate a || low_surrogate a) && continuation b = true ->
  parse_chars (unicode_escape (surrogate a b) +:+ s) =
  '(chars, rest) ← parse_chars s;
  Some (cons_units (String "237" (String a (String b ""))) chars, rest).
Proof.
  intros H. pose proof (utf8_surrogate a b H) as Hu.
  apply surrogate_bounds in H as [Ha Hb].
  unfold unicode_escape. cbn [String.append parse_chars].
  change (Ascii.eqb BACKSLASH QUOTE) with false.
  change (Ascii.eqb BACKSLASH BACKSLASH) with true.
  change (Ascii.eqb "u" "u") with true. cbv iota.
  assert (Hrange : (55296 <= surrogate a b <= 57343)%N)
    by (unfold surrogate; lia).
  remember (surrogate a b) as u eqn:Hdef. clear Hdef.
  rewrite !hex_value_digit by lia. cbn [mbind option_bind].
  assert (Hsum : (4096 * (u / 4096) + 256 * ((u / 256) mod 16)
                  + 16 * ((u / 16) mod 16) + u mod 16 = u)%N) by lia.
  now rewrite Hsum, Hu.
Qed.

Lemma parse_chars_escape s :
  forall rest, canonical_string s = true ->
  parse_chars (escape s +:+ String QUOTE rest) = Some (s, rest).
Proof.
  assert (H : forall n s rest, (String.length s <= n)%nat ->
            canonical_string s = true ->
            parse_chars (escape s +:+ String QUOTE rest) = Some (s, rest)).
  { clear s. induction n as [|n IH]; intros s rest Hlen Hc.
    { destruct s; [reflexivity|cbn in Hlen; lia]. }
    destruct s as [|c s']; [reflexivity|].
    assert (Htail : parse_chars (escape s' +:+ String QUOTE rest)
                    = Some (s', rest)).
    { apply IH; [cbn in Hlen; lia|now apply canonical_string_tail in Hc]. }
    assert (Hplain : parse_chars ((escape_char c +:+ escape s')
                                  +:+ String QUOTE rest)
                     = Some (String c s', rest)).
    { rewrite append_assoc, parse_chars_escape_char, Htail.
      cbn [mbind option_bind]. now rewrite cons_unit_canonical. }
    destruct s' as [|a [|b s'']]; [exact Hplain..|].
    cbn [escape].
    destruct ((N_of_ascii c =? 237)%N &&
              (high_surrogate a || low_surrogate a) && continuation b)
      eqn:Hs; [|exact Hplain].
    apply andb_prop in Hs as [[Hc237%N.eqb_eq Ha]%andb_prop Hb].
    rewrite append_assoc, parse_chars_surrogate by now rewrite Ha, Hb.
    rewrite IH; [|cbn in Hlen; lia
                 |now do 3 apply canonical_string_tail in Hc].
    cbn [mbind option_bind cons_units].
    assert (Hc' : c = "237"%char).
    { rewrite <- (ascii_N_embedding c), Hc237. reflexivity. }
    subst c. pose proof Hc as Hc1. apply canonical_string_tail in Hc1.
    pose proof Hc1 as Hc2. apply canonical_string_tail in Hc2.
    now rewrite (cons_unit_canonical b s'' Hc2),
      (cons_unit_canonical a _ Hc1), (cons_unit_canonical _ _ Hc). }
  intros rest. now apply (H (String.length s)).
Qed.

Lemma cons_units_canonical s :
  canonical_string s = true -> cons_units s "" = s.
Proof.
  induction s as [|c s IH]; [reflexivity|]. intros Hc. cbn [cons_units].
  rewrite IH by now apply canonical_string_tail in Hc.
  now apply cons_unit_canonical.
Qed.

Lemma quote_head s rest :
  quote s +:+ rest
  = String QUOTE (escape (cons_units s "") +:+ String QUOTE rest).
Proof. unfold quote. cbn. now rewrite append_assoc. Qed.

Lemma quote_append s rest :
  canonical_string s = true ->
  quote s +:+ rest = String QUOTE (escape s +:+ String QUOTE rest).
Proof. intros Hc. now rewrite quote_head, cons_units_canonical. Qed.

(** What [parse_chars] gives is a string of JavaScript. *)
Lemma paired_bounds h a b l c d s :
  paired (String h (String a (String b (String l (String c (String d s))))))
  = true ->
  (160 <= N_of_ascii a <= 175)%N /\ (128 <= N_of_ascii b <= 191)%N /\
  (176 <= N_of_ascii c <= 191)%N /\ (128 <= N_of_ascii d <= 191)%N.
Proof.
  unfold paired, high_surrogate, low_surrogate, continuation. cbv zeta.
  intros [[[[[_ [H1 H2]%andb_prop]%andb_prop [H3 H4]%andb_prop]%andb_prop _]
            %andb_prop [H5 H6]%andb_prop]%andb_prop [H7 H8]%andb_prop]
         %andb_prop.
  apply N.leb_le in H1, H2, H3, H4, H5, H6, H7, H8. lia.
Qed.

Lemma N_of_ascii_of_N n : (n < 256)%N -> N_of_ascii (ascii_of_N n) = n.
Proof. apply N_ascii_embedding. Qed.

Lemma cons_unit_keeps c chars :
  canonical_string chars = true -> canonical_string (cons_unit c chars) = true.
Proof.
  intros Hc. unfold cons_unit. destruct (paired (String c chars)) eqn:Hp;
    [|cbn [canonical_string]; now rewrite Hp, Hc].
  destruct chars as [|a [|b [|l [|c' [|d rest]]]]]; try discriminate Hp.
  apply paired_bounds in Hp as (Ha & Hb & Hc' & Hd).
  assert (Hrest : canonical_string rest = true)
    by now do 5 apply canonical_string_tail in Hc.
  unfold pair.
  remember (65536 + ((N_of_ascii a - 160) * 64 + (N_of_ascii b - 128)) * 1024
            + ((N_of_ascii c' - 176) * 64 + (N_of_ascii d - 128)))%N
    as point eqn:Hdef.
  assert (Hpoint : (65536 <= point < 1114112)%N) by lia. clear Hdef.
  cbn [String.append canonical_string].
  rewrite !paired_head, Hrest; [reflexivity|..];
    rewrite N_of_ascii_of_N; lia.
Qed.

Lemma cons_units_keeps bytes chars :
  canonical_string chars = true ->
  canonical_string (cons_units bytes chars) = true.
Proof.
  intros Hc. induction bytes as [|c bytes IH]; [exact Hc|].
  cbn [cons_units]. now apply cons_unit_keeps.
Qed.

Lemma parse_chars_canonical s :
  forall chars rest,
    parse_chars s = Some (chars, rest) -> canonical_string chars = true.
Proof.
  assert (H : forall n s chars rest, (String.length s <= n)%nat ->
            parse_chars s = Some (chars, rest) ->
            canonical_string chars = true).
  { clear s. induction n as [|n IH]; intros s chars rest Hlen;
      (destruct s as [|c s']; [discriminate|]); [cbn in Hlen; lia|].
    cbn [parse_chars]. cbn [String.length] in Hlen.
    destruct (Ascii.eqb c QUOTE); [now intros [= <- <-]|].
    destruct (Ascii.eqb c BACKSLASH).
    - destruct s' as [|e s'']; [discriminate|]. cbn [String.length] in Hlen.
      destruct (Ascii.eqb e "u").
      + destruct s'' as [|h1 [|h2 [|h3 [|h4 s3]]]]; try discriminate.
        cbn [String.length] in Hlen.
        destruct (hex_value h1); [|discriminate].
        destruct (hex_value h2); [|discriminate].
        destruct (hex_value h3); [|discriminate].
        destruct (hex_value h4); [|discriminate].
        cbn [mbind option_bind].
        destruct (parse_chars s3) as [[chars' rest']|] eqn:Hp;
          [|discriminate].
        cbn [mbind option_bind]. intros [= <- <-].
        apply cons_units_keeps. apply (IH s3 chars' rest'); [lia|exact Hp].
      + destruct (unescape e) as [bytes|]; [|discriminate].
        cbn [mbind option_bind].
        destruct (parse_chars s'') as [[chars' rest']|] eqn:Hp;
          [|discriminate].
        cbn [mbind option_bind]. intros [= <- <-].
        apply cons_units_keeps. apply (IH s'' chars' rest'); [lia|exact Hp].
    - destruct (N_of_ascii c <? 32)%N; [discriminate|].
      destruct (parse_chars s') as [[chars' rest']|] eqn:Hp; [|discriminate].
      cbn [mbind option_bind]. intros [= <- <-].
      apply cons_unit_keeps. apply (IH s' chars' rest'); [lia|exact Hp]. }
  intros chars rest. now apply (H (String.length s)).
Qed.

(** ** Numerals *)

(** *** Digits *)

Lemma numeral_app a : forall acc b,
  numeral acc (a +:+ b) = numeral acc a ≫= fun n => numeral n b.
Proof.
  induction a as [|c a IH]; intros acc b; [reflexivity|].
  cbn [String.append numeral]. destruct (digit_value c); [apply IH|reflexivity].
Qed.

Lemma all_digits_app a b :
  all_digits (a +:+ b) = all_digits a && all_digits b.
Proof.
  induction a as [|c a IH]; [reflexivity|]. cbn [String.append all_digits].
  now rewrite IH, andb_assoc.
Qed.

Lemma pretty_N_char_digit d :
  (d < 10)%N ->
  digit_value (pretty_N_char d) = Some d /\
  (d <> 0%N -> pretty_N_char d <> "0"%char).
Proof.
  intros H. destruct d as [|p]; [now split|].
  do 4 (try (destruct p as [p|p|]; try (split; [reflexivity|discriminate]);
             try lia)).
Qed.

(** The digits that [pretty] puts before a string. *)
Lemma pretty_N_go_digits x :
  (0 < x)%N -> forall s,
  exists c ds,
    pretty_N_go x s = String c ds +:+ s /\
    all_digits (String c ds) = true /\
    numeral 0 (String c ds) = Some x /\ c <> "0"%char.
Proof.
  induction (N.lt_wf_0 x) as [x _ IH]. intros Hx s.
  rewrite pretty_N_go_step by exact Hx.
  assert (Hmod : (x mod 10 < 10)%N) by (apply N.mod_lt; lia).
  destruct (pretty_N_char_digit (x mod 10) Hmod) as [Hd Hnz].
  destruct (N.eq_dec (x / 10)%N 0%N) as [Hsmall|Hbig].
  - rewrite Hsmall, pretty_N_go_0.
    exists (pretty_N_char (x mod 10)), "". cbn [String.append all_digits numeral].
    unfold is_digit. rewrite Hd. cbn.
    assert (Hsame : (x mod 10 = x)%N) by lia.
    repeat split; [f_equal; lia|apply Hnz; lia].
  - destruct (IH (x / 10)%N) with (s := String (pretty_N_char (x mod 10)) s)
      as (c & ds & Heq & Hall & Hnum & Hc); [lia|lia|].
    exists c, (ds +:+ String (pretty_N_char (x mod 10)) "").
    rewrite Heq. cbn [String.append].
    split; [now rewrite append_assoc|]. split; [|split; [|exact Hc]].
    + change (String c (ds +:+ String (pretty_N_char (x mod 10)) ""))
        with (String c ds +:+ String (pretty_N_char (x mod 10)) "").
      rewrite all_digits_app, Hall. cbn. unfold is_digit. now rewrite Hd.
    + change (String c (ds +:+ String (pretty_N_char (x mod 10)) ""))
        with (String c ds +:+ String (pretty_N_char (x mod 10)) "").
      rewrite numeral_app, Hnum. cbn [mbind option_bind numeral].
      rewrite Hd. f_equal. lia.
Qed.

Lemma pretty_digits (x : N) :
  exists c ds,
    pretty x = String c ds /\ all_digits (String c ds) = true /\
    numeral 0 (String c ds) = Some x /\
    ((0 < x)%N -> c <> "0"%char).
Proof.
  unfold pretty, pretty_N. destruct (decide (x = 0%N)) as [->|Hx].
  - exists "0"%char, "". repeat split. lia.
  - destruct (pretty_N_go_digits x ltac:(lia) "") as (c & ds & Heq & H).
    exists c, ds. rewrite Heq, append_nil_r. split; [reflexivity|].
    destruct H as (H1 & H2 & H3). auto.
Qed.

Lemma numeral_zeros n : forall acc,
  numeral acc (zeros n) = Some (acc * 10 ^ N.of_nat n)%N.
Proof.
  induction n as [|n IH]; intros acc.
  - cbn. f_equal. lia.
  - cbn [zeros numeral]. change (digit_value "0") with (Some 0%N).
    cbv iota. rewrite IH. f_equal. rewrite Nat2N.inj_succ, N.pow_succ_r'. lia.
Qed.

Lemma all_digits_zeros n : all_digits (zeros n) = true.
Proof. induction n as [|n IH]; [reflexivity|exact IH]. Qed.

Lemma length_zeros n : String.length (zeros n) = n.
Proof. induction n as [|n IH]; [reflexivity|]. cbn. now rewrite IH. Qed.

Lemma split_at_spec n : forall s whole part,
  split_at n s = (whole, part) ->
  s = whole +:+ part /\
  String.length whole = Nat.min n (String.length s).
Proof.
  induction n as [|n IH]; intros s whole part.
  - cbn. destruct s; intros [= <- <-]; now split.
  - destruct s as [|c s]; [cbn; intros [= <- <-]; now split|].
    cbn [split_at]. destruct (split_at n s) as [a b] eqn:Hs.
    intros [= <- <-]. destruct (IH _ _ _ Hs) as [-> Hl].
    split; [reflexivity|]. cbn [String.length]. rewrite Hl.
    rewrite length_append. cbn [String.length]. lia.
Qed.

Lemma goes_on_digit_first rest : goes_on rest = false -> digit_first rest = false.
Proof.
  destruct rest as [|c rest]; [reflexivity|]. cbn.
  now intros [_ H]%orb_false_elim.
Qed.

Lemma parse_digits_app digits rest :
  all_digits digits = true -> digit_first rest = false ->
  parse_digits (digits +:+ rest) = (digits, rest).
Proof.
  intros Hd Hr. induction digits as [|c digits IH].
  - destruct rest as [|c rest]; [reflexivity|]. cbn in *. now rewrite Hr.
  - cbn in *. apply andb_prop in Hd as [-> Hd]. now rewrite IH.
Qed.

Lemma parse_digits_all s : forall digits rest,
  parse_digits s = (digits, rest) -> all_digits digits = true.
Proof.
  induction s as [|c s IH]; intros digits rest; cbn.
  - now intros [= <- <-].
  - destruct (is_digit c) eqn:Hc.
    + destruct (parse_digits s) as [d r]. intros [= <- <-]. cbn.
      rewrite Hc. now apply (IH d r).
    + now intros [= <- <-].
Qed.

(** *** The text of a number, followed by something else *)

Lemma parse_digits_more s : forall digits r rest,
  parse_digits s = (digits, r) ->
  (r = "" -> digit_first rest = false) ->
  parse_digits (s +:+ rest) = (digits, r +:+ rest).
Proof.
  induction s as [|c s IH]; intros digits r rest.
  - cbn. intros [= <- <-] Hr. specialize (Hr eq_refl).
    destruct rest as [|c rest]; [reflexivity|]. cbn in *. now rewrite Hr.
  - cbn [parse_digits String.append]. destruct (is_digit c).
    + destruct (parse_digits s) as [d r'] eqn:Hs. intros [= <- <-] Hr.
      now rewrite (IH d r' rest eq_refl Hr).
    + now intros [= <- <-] _.
Qed.

Lemma lex_int_more s whole r rest :
  lex_int s = Some (whole, r) ->
  (r = "" -> digit_first rest = false) ->
  lex_int (s +:+ rest) = Some (whole, r +:+ rest).
Proof.
  destruct s as [|c s]; [discriminate|]. cbn [lex_int String.append].
  destruct (Ascii.eqb c "0"); [now intros [= <- <-]|].
  change (String c (s +:+ rest)) with (String c s +:+ rest).
  destruct (parse_digits (String c s)) as [d r'] eqn:Hs.
  destruct (String.eqb d "") eqn:Hd; [discriminate|].
  intros [= <- <-] Hr. now rewrite (parse_digits_more _ _ _ _ Hs Hr), Hd.
Qed.

Lemma lex_frac_more s part r rest :
  lex_frac s = Some (part, r) ->
  (r = "" -> goes_on rest = false) ->
  lex_frac (s +:+ rest) = Some (part, r +:+ rest).
Proof.
  destruct s as [|c s].
  - cbn. intros [= <- <-] Hr. specialize (Hr eq_refl).
    destruct rest as [|c rest]; [reflexivity|]. cbn in *.
    apply orb_false_elim in Hr as [[[-> _]%orb_false_elim _]%orb_false_elim _].
    reflexivity.
  - cbn [lex_frac String.append]. destruct (Ascii.eqb c ".").
    + destruct (parse_digits s) as [d r'] eqn:Hs.
      destruct (String.eqb d "") eqn:Hd; [discriminate|].
      intros [= <- <-] Hr.
      rewrite (parse_digits_more _ _ _ rest Hs), Hd; [reflexivity|].
      intros H. now apply goes_on_digit_first, Hr.
    + now intros [= <- <-] _.
Qed.

Lemma lex_digits_more negative s power r rest :
  lex_digits negative s = Some (power, r) ->
  (r = "" -> digit_first rest = false) ->
  lex_digits negative (s +:+ rest) = Some (power, r +:+ rest).
Proof.
  unfold lex_digits. destruct (parse_digits s) as [d r'] eqn:Hs.
  destruct (String.eqb d "") eqn:Hd; [discriminate|].
  destruct (numeral 0 d) as [n|] eqn:Hn; [|discriminate].
  cbn [mbind option_bind]. intros [= <- <-] Hr.
  rewrite (parse_digits_more _ _ _ rest Hs Hr), Hd, Hn. reflexivity.
Qed.

Lemma lex_exp_more s power r rest :
  lex_exp s = Some (power, r) ->
  (r = "" -> goes_on rest = false) ->
  lex_exp (s +:+ rest) = Some (power, r +:+ rest).
Proof.
  destruct s as [|c s].
  - cbn. intros [= <- <-] Hr. specialize (Hr eq_refl).
    destruct rest as [|c rest]; [reflexivity|]. cbn in *.
    apply orb_false_elim in Hr as [[[_ He]%orb_false_elim HE]%orb_false_elim _].
    now rewrite He, HE.
  - cbn [lex_exp String.append]. destruct (Ascii.eqb c "e" || Ascii.eqb c "E").
    + destruct s as [|c' s]; [discriminate|]. cbn [String.append].
      intros H Hr.
      assert (Hd : r = "" -> digit_first rest = false)
        by (intros Hnil; now apply goes_on_digit_first, Hr).
      destruct (Ascii.eqb c' "+"); [now apply lex_digits_more|].
      destruct (Ascii.eqb c' "-"); [now apply lex_digits_more|].
      change (String c' (s +:+ rest)) with (String c' s +:+ rest).
      now apply lex_digits_more.
    + now intros [= <- <-] _.
Qed.

Lemma lex_number_more s m e rest :
  lex_number s = Some (m, e, "") -> goes_on rest = false ->
  lex_number (s +:+ rest) = Some (m, e, rest).
Proof.
  unfold lex_number. intros H Hr.
  pose proof (goes_on_digit_first rest Hr) as Hd.
  destruct (lex_int s) as [[whole r1]|] eqn:H1; [|discriminate].
  cbn [mbind option_bind] in H.
  destruct (lex_frac r1) as [[part r2]|] eqn:H2; [|discriminate].
  cbn [mbind option_bind] in H.
  destruct (lex_exp r2) as [[power r3]|] eqn:H3; [|discriminate].
  cbn [mbind option_bind] in H.
  destruct (numeral 0 (whole +:+ part)) as [n|] eqn:Hn; [|discriminate].
  cbn [mbind option_bind] in H. injection H as <- <- ->.
  rewrite (lex_int_more _ _ _ rest H1) by auto. cbn [mbind option_bind].
  rewrite (lex_frac_more _ _ _ rest H2) by auto. cbn [mbind option_bind].
  rewrite (lex_exp_more _ _ _ rest H3) by auto. cbn [mbind option_bind].
  now rewrite Hn.
Qed.

(** *** What is printed is read as it is *)

Lemma digit_not_zero c : c <> "0"%char -> Ascii.eqb c "0" = false.
Proof. intros H. now destruct (Ascii.eqb_spec c "0"). Qed.

Lemma lex_int_digits c ds rest :
  all_digits (String c ds) = true -> c <> "0"%char ->
  digit_first rest = false ->
  lex_int (String c ds +:+ rest) = Some (String c ds, rest).
Proof.
  intros Hall Hc Hr. unfold lex_int. cbn [String.append].
  rewrite (digit_not_zero c Hc).
  change (String c (ds +:+ rest)) with (String c ds +:+ rest).
  now rewrite (parse_digits_app _ _ Hall Hr).
Qed.

Lemma lex_frac_digits c ds rest :
  all_digits (String c ds) = true -> digit_first rest = false ->
  lex_frac ("." +:+ String c ds +:+ rest) = Some (String c ds, rest).
Proof.
  intros Hall Hr. cbn [lex_frac String.append].
  change (Ascii.eqb "." ".") with true. cbv iota.
  change (String c (ds +:+ rest)) with (String c ds +:+ rest).
  now rewrite (parse_digits_app _ _ Hall Hr).
Qed.

Lemma lex_exp_power x :
  x <> 0 ->
  lex_exp ("e" +:+ (if 0 <? x then "+" else "-") +:+ pretty (Z.abs_N x))
  = Some (x, "").
Proof.
  intros Hx. destruct (pretty_digits (Z.abs_N x)) as (c & ds & Hp & Hall & Hn & _).
  rewrite Hp.
  assert (Hd : parse_digits (String c ds) = (String c ds, "")).
  { rewrite <- (append_nil_r (String c ds)) at 1.
    now apply parse_digits_app. }
  destruct (Z.ltb_spec 0 x).
  - cbn [lex_exp String.append]. cbn [Ascii.eqb Bool.eqb orb].
    unfold lex_digits. rewrite Hd. cbn [String.eqb]. rewrite Hn.
    cbn [mbind option_bind]. do 2 f_equal. lia.
  - cbn [lex_exp String.append]. cbn [Ascii.eqb Bool.eqb orb].
    unfold lex_digits. rewrite Hd. cbn [String.eqb]. rewrite Hn.
    cbn [mbind option_bind]. do 2 f_equal. lia.
Qed.

Lemma number_of_decimal_zeros s j :
  number_of_decimal (s * 10 ^ N.of_nat j) 0
  = number_of_decimal s (Z.of_nat j).
Proof.
  unfold number_of_decimal, fraction.
  destruct (Z.leb_spec 0 (Z.of_nat j)); [|lia].
  change (0 <=? 0) with true. cbv iota.
  change (Z.to_N 0) with 0%N. rewrite N.pow_0_r, N.mul_1_r.
  now rewrite <- nat_N_Z, N2Z.id.
Qed.

Lemma split_at_head n c ds whole part :
  split_at (S n) (String c ds) = (whole, part) ->
  exists whole', whole = String c whole'.
Proof.
  cbn [split_at]. destruct (split_at n ds). intros [= <- <-]. eauto.
Qed.

(** The text that [format] gives for a decimal is read as that decimal. *)
Lemma lex_format s e :
  (0 < s)%N ->
  exists m' e',
    lex_number (format s e) = Some (m', e', "") /\
    number_of_decimal m' e' = number_of_decimal s e /\
    exists c r, format s e = String c r /\ is_digit c = true.
Proof.
  intros Hs.
  destruct (pretty_digits s) as (c & ds & Hp & Hall & Hnum & Hc).
  specialize (Hc Hs).
  assert (Hdc : is_digit c = true)
    by (cbn [all_digits] in Hall; now apply andb_prop in Hall as [? _]).
  unfold format. rewrite Hp.
  set (k := Z.of_nat (String.length (String c ds))).
  assert (Hk : k = Z.of_nat (S (String.length ds))) by reflexivity.
  destruct ((k <=? e + k) && (e + k <=? 21)) eqn:HA;
    [|destruct ((0 <? e + k) && (e + k <=? 21)) eqn:HB;
      [|destruct ((-6 <? e + k) && (e + k <=? 0)) eqn:HC]].
  - (* the digits, and zeros *)
    apply andb_prop in HA as [HA1%Z.leb_le _].
    replace (e + k - k) with e by lia.
    exists (s * 10 ^ N.of_nat (Z.to_nat e))%N, 0.
    split; [|split; [|exists c, (ds +:+ zeros (Z.to_nat e)); now split]].
    + unfold lex_number.
      rewrite <- (append_nil_r (String c ds +:+ zeros (Z.to_nat e))).
      change (String c ds +:+ zeros (Z.to_nat e))
        with (String c (ds +:+ zeros (Z.to_nat e))).
      rewrite lex_int_digits; [|
        change (String c (ds +:+ zeros (Z.to_nat e)))
          with (String c ds +:+ zeros (Z.to_nat e));
        now rewrite all_digits_app, Hall, all_digits_zeros
        |exact Hc|reflexivity].
      cbn [mbind option_bind lex_frac lex_exp].
      rewrite append_nil_r.
      change (String c (ds +:+ zeros (Z.to_nat e)))
        with (String c ds +:+ zeros (Z.to_nat e)).
      rewrite numeral_app, Hnum. cbn [mbind option_bind].
      rewrite numeral_zeros. reflexivity.
    + rewrite number_of_decimal_zeros. f_equal. lia.
  - (* a decimal point inside *)
    apply andb_prop in HB as [HB1%Z.ltb_lt HB2].
    assert (Hlt : e + k < k).
    { destruct (Z.leb_spec k (e + k)); [|lia].
      rewrite HB2 in HA. discriminate. }
    destruct (split_at (Z.to_nat (e + k)) (String c ds)) as [whole part]
      eqn:Hsplit.
    destruct (split_at_spec _ _ _ _ Hsplit) as [Heq Hlen].
    assert (Hn : exists n, Z.to_nat (e + k) = S n)
      by (exists (Nat.pred (Z.to_nat (e + k))); lia).
    destruct Hn as [n Hn]. rewrite Hn in Hsplit.
    destruct (split_at_head _ _ _ _ _ Hsplit) as [whole' ->].
    assert (Hpart : exists p part', part = String p part').
    { destruct part as [|p part']; [|eauto]. exfalso.
      apply (f_equal String.length) in Heq.
      rewrite length_append in Heq. cbn [String.length] in Heq, Hlen. lia. }
    destruct Hpart as (p & part' & ->).
    pose proof Hall as Hall'. rewrite Heq, all_digits_app in Hall'.
    apply andb_prop in Hall' as [Hw Hpd].
    assert (Hcw : c = c) by reflexivity.
    injection Heq as Hds.
    exists s, e. split; [|split; [reflexivity|exists c, (whole' +:+ "." +:+ String p part'); now split]].
    unfold lex_number.
    rewrite lex_int_digits by (assumption || reflexivity).
    cbn [mbind option_bind].
    rewrite <- (append_nil_r (String p part')) at 1.
    rewrite lex_frac_digits by (assumption || reflexivity).
    cbn [mbind option_bind lex_exp].
    change (String c whole' +:+ String p part')
      with (String c (whole' +:+ String p part')).
    rewrite <- Hds, Hnum. cbn [mbind option_bind]. do 3 f_equal.
    apply (f_equal String.length) in Hds. rewrite length_append in Hds.
    cbn [String.length] in Hds, Hlen |- *. lia.
  - (* a decimal point in front *)
    apply andb_prop in HC as [HC1%Z.ltb_lt HC2%Z.leb_le].
    exists s, e. split; [|split; [reflexivity|eexists _, _; now split]].
    unfold lex_number. cbn [lex_int String.append].
    change (Ascii.eqb "0" "0") with true. cbv iota. cbn [mbind option_bind].
    assert (Hfrac : all_digits (zeros (Z.to_nat (- (e + k))) +:+ String c ds)
                    = true)
      by now rewrite all_digits_app, all_digits_zeros, Hall.
    rewrite <- (append_nil_r (zeros _ +:+ String c ds)).
    cbn [lex_frac]. change (Ascii.eqb "." ".") with true. cbv iota.
    rewrite (parse_digits_app _ "" Hfrac eq_refl).
    destruct (zeros (Z.to_nat (- (e + k))) +:+ String c ds) as [|z zs] eqn:Hz.
    { destruct (Z.to_nat (- (e + k))); discriminate Hz. }
    cbn [String.eqb]. rewrite <- Hz. cbn [mbind option_bind lex_exp].
    change ("0" +:+ zeros (Z.to_nat (- (e + k))) +:+ String c ds)
      with (zeros (S (Z.to_nat (- (e + k)))) +:+ String c ds).
    rewrite numeral_app, numeral_zeros. cbn [mbind option_bind].
    rewrite N.mul_0_l, Hnum. cbn [mbind option_bind]. do 3 f_equal.
    rewrite length_append, length_zeros. cbn [String.length]. lia.
  - (* an exponent *)
    assert (Hn : e + k - 1 <> 0).
    { intros Heq. assert (e + k = 1) by lia.
      destruct (Z.ltb_spec 0 (e + k)); [|lia].
      destruct (Z.leb_spec (e + k) 21); [|lia]. discriminate. }
    pose proof (lex_exp_power _ Hn) as Hexp.
    exists s, e. split; [|split; [reflexivity|]].
    + unfold lex_number. destruct ds as [|c2 ds'].
      * change (String c ("e" +:+ (if 0 <? e + k - 1 then "+" else "-")
                          +:+ pretty (Z.abs_N (e + k - 1))))
          with (String c "" +:+ "e"
                +:+ (if 0 <? e + k - 1 then "+" else "-")
                +:+ pretty (Z.abs_N (e + k - 1))).
        rewrite lex_int_digits by (assumption || reflexivity).
        cbn [mbind option_bind]. cbn [lex_frac String.append].
        change (Ascii.eqb "e" ".") with false. cbv iota.
        cbn [mbind option_bind].
        change (String "e" ((if 0 <? e + k - 1 then "+" else "-")
                            +:+ pretty (Z.abs_N (e + k - 1))))
          with ("e" +:+ (if 0 <? e + k - 1 then "+" else "-")
                +:+ pretty (Z.abs_N (e + k - 1))).
        rewrite Hexp. cbn [mbind option_bind String.append].
        rewrite Hnum. cbn [mbind option_bind].
        do 3 f_equal. cbn [String.length] in *. lia.
      * change (String c ("." +:+ String c2 ds' +:+ "e"
                          +:+ (if 0 <? e + k - 1 then "+" else "-")
                          +:+ pretty (Z.abs_N (e + k - 1))))
          with (String c "" +:+ "." +:+ String c2 ds' +:+ "e"
                +:+ (if 0 <? e + k - 1 then "+" else "-")
                +:+ pretty (Z.abs_N (e + k - 1))).
        cbn [all_digits] in Hall. apply andb_prop in Hall as [Hdc' Hall].
        rewrite lex_int_digits;
          [|cbn [all_digits]; now rewrite Hdc|exact Hc|reflexivity].
        cbn [mbind option_bind].
        rewrite lex_frac_digits by (assumption || reflexivity).
        cbn [mbind option_bind]. rewrite Hexp. cbn [mbind option_bind].
        change (String c "" +:+ String c2 ds') with (String c (String c2 ds')).
        rewrite Hnum. cbn [mbind option_bind].
        do 3 f_equal. cbn [String.length] in *. lia.
    + destruct ds as [|c2 ds']; eexists _, _; now split.
Qed.

(** *** The numerals of the finite numbers *)

Lemma reads_as_it_spec m q d :
  reads_as_it m q d = true ->
  number_of_decimal d.1 d.2 = Finite m q /\ (0 < d.1)%N.
Proof.
  unfold reads_as_it.
  destruct (number_of_decimal d.1 d.2) as [|m' q'|] eqn:Hn; try discriminate.
  intros [->%N.eqb_eq ->%Z.eqb_eq]%andb_prop. split; [reflexivity|].
  destruct (N.eq_dec d.1 0%N) as [Hz|]; [|lia]. exfalso.
  unfold number_of_decimal, fraction in Hn. rewrite Hz in Hn.
  destruct (0 <=? d.2); cbn in Hn; discriminate.
Qed.

Lemma candidate_reads m q cut d :
  candidate m q cut = Some d -> reads_as_it m q d = true.
Proof.
  unfold candidate. destruct (exact m q) as [x e].
  set (below := normal _ _). set (above := normal _ _).
  destruct (reads_as_it m q below) eqn:Hb, (reads_as_it m q above) eqn:Ha;
    cbn [andb]; try discriminate.
  - destruct (_ <=? _)%N; now intros [= <-].
  - now intros [= <-].
  - now intros [= <-].
Qed.

Lemma search_reads m q cut d :
  search m q cut = Some d -> reads_as_it m q d = true.
Proof.
  induction cut as [|cut IH]; cbn [search].
  - destruct (candidate m q 0) eqn:Hc; [|discriminate].
    intros [= <-]. now apply candidate_reads in Hc.
  - destruct (candidate m q (S cut)) eqn:Hc; [|exact IH].
    intros [= <-]. now apply candidate_reads in Hc.
Qed.

Lemma shortest_reads m q s e :
  shortest m q = Some (s, e) ->
  number_of_decimal s e = Finite m q /\ (0 < s)%N.
Proof.
  unfold shortest. intros H%search_reads. now apply reads_as_it_spec in H.
Qed.

(** What [parse_number] gives is the numeral of a finite number, or the
    name of a number that is not finite. *)
Lemma numeral_of_canonical negative x :
  is_finite (numeral_of negative x) = true ->
  canonical_numeral (numeral_of negative x) = true.
Proof.
  destruct x as [|m q|]; [reflexivity| |now destruct negative].
  cbn [numeral_of]. destruct (shortest m q) as [[s e]|] eqn:Hs;
    [|discriminate].
  intros _. pose proof Hs as Hs'. apply shortest_reads in Hs as [Hnum Hpos].
  destruct (lex_format s e Hpos) as (m' & e' & Hlex & Hsame & c & r & Hf & Hc).
  assert (Hread : forall negative',
            parse_number negative' (format s e)
            = Some (JNumber (numeral_of negative' (Finite m q)), "")).
  { intros negative'. unfold parse_number. rewrite Hlex.
    cbn [mbind option_bind]. now rewrite Hsame, Hnum. }
  assert (Hself : forall negative',
            numeral_of negative' (Finite m q)
            = (if negative' then "-" else "") +:+ format s e).
  { intros negative'. cbn [numeral_of]. now rewrite Hs'. }
  destruct negative.
  - cbn [String.append]. unfold canonical_numeral.
    change (Ascii.eqb "-" "-") with true. cbv iota.
    rewrite (Hread true), (Hself true). cbn [String.append].
    now rewrite String.eqb_refl.
  - cbn [String.append]. rewrite Hf. unfold canonical_numeral.
    destruct (Ascii.eqb_spec c "-") as [->|_]; [discriminate Hc|].
    rewrite <- Hf, (Hread false), (Hself false). cbn [String.append].
    now rewrite String.eqb_refl.
Qed.

Lemma parse_number_well_formed negative s value rest :
  parse_number negative s = Some (value, rest) ->
  well_formed (as_written value) = true.
Proof.
  unfold parse_number.
  destruct (lex_number s) as [[[m e] r]|]; [|discriminate].
  cbn [mbind option_bind]. intros [= <- <-]. cbn [as_written].
  destruct (is_finite _) eqn:Hf; [|reflexivity].
  cbn [well_formed]. now apply numeral_of_canonical.
Qed.

(** A numeral is read as the number it is the numeral of. *)
Lemma parse_number_more negative s value rest :
  parse_number negative s = Some (value, "") -> goes_on rest = false ->
  parse_number negative (s +:+ rest) = Some (value, rest).
Proof.
  unfold parse_number.
  destruct (lex_number s) as [[[m e] r]|] eqn:Hl; [|discriminate].
  cbn [mbind option_bind]. intros [= <- ->] Hr.
  now rewrite (lex_number_more _ _ _ _ Hl Hr).
Qed.

Lemma parse_number_head negative s value rest :
  parse_number negative s = Some (value, rest) ->
  exists c s', s = String c s' /\ is_digit c = true.
Proof.
  unfold parse_number, lex_number.
  destruct (lex_int s) as [[whole r]|] eqn:Hi; [|discriminate]. intros _.
  destruct s as [|c s']; [discriminate|]. exists c, s'.
  split; [reflexivity|]. unfold lex_int in Hi.
  destruct (Ascii.eqb_spec c "0") as [->|_]; [reflexivity|].
  cbn [parse_digits] in Hi. destruct (is_digit c); [reflexivity|].
  discriminate.
Qed.

Lemma canonical_numeral_cases numeral :
  canonical_numeral numeral = true ->
  exists c digits,
    numeral = String c digits /\
    (if Ascii.eqb c "-"
     then parse_number true digits = Some (JNumber numeral, "")
     else parse_number false numeral = Some (JNumber numeral, "")).
Proof.
  destruct numeral as [|c digits]; [discriminate|]. unfold canonical_numeral.
  intros H. exists c, digits. split; [reflexivity|].
  destruct (Ascii.eqb c "-").
  - destruct (parse_number true digits) as [[[] r]|]; try discriminate.
    destruct r; [|discriminate]. now apply String.eqb_eq in H as ->.
  - destruct (parse_number false (String c digits)) as [[[] r]|];
      try discriminate.
    destruct r; [|discriminate]. now apply String.eqb_eq in H as ->.
Qed.

Lemma canonical_numeral_head numeral :
  canonical_numeral numeral = true ->
  exists c digits,
    numeral = String c digits /\
    (c = "-"%char \/ is_digit c = true) /\ is_finite numeral = true.
Proof.
  intros (c & digits & -> & H)%canonical_numeral_cases.
  exists c, digits. split; [reflexivity|].
  destruct (Ascii.eqb_spec c "-") as [->|Hc].
  - split; [now left|].
    apply parse_number_head in H as (c' & s' & -> & Hd).
    destruct c' as [[] [] [] [] [] [] [] []]; try discriminate Hd;
      reflexivity.
  - apply parse_number_head in H as (c' & s' & [= <- <-] & Hd).
    split; [now right|].
    destruct c as [[] [] [] [] [] [] [] []]; try discriminate Hd;
      reflexivity.
Qed.

Lemma is_digit_dispatch c :
  is_digit c = true ->
  is_ws c = false /\
  Ascii.eqb c QUOTE = false /\ Ascii.eqb c "[" = false /\
  Ascii.eqb c "{" = false /\ Ascii.eqb c "-" = false /\
  Ascii.eqb c "t" = false /\ Ascii.eqb c "f" = false /\
  Ascii.eqb c "n" = false /\ Ascii.eqb c "]" = false /\
  Ascii.eqb c "}" = false.
Proof.
  destruct c as [[] [] [] [] [] [] [] []]; try discriminate; repeat split.
Qed.

Lemma next_blank ws c s :
  blank ws = true -> is_ws c = false -> next (ws +:+ String c s) = Some (c, s).
Proof.
  intros Hws Hc. unfold next. rewrite (skip_ws_blank _ _ Hws).
  cbn. now rewrite Hc.
Qed.

Lemma parse_value_number fuel ws numeral rest :
  blank ws = true -> canonical_numeral numeral = true ->
  goes_on rest = false ->
  parse_value (S fuel) (ws +:+ numeral +:+ rest) = Some (JNumber numeral, rest).
Proof.
  intros Hws (c & digits & -> & H)%canonical_numeral_cases Hr.
  destruct (Ascii.eqb_spec c "-") as [->|Hminus].
  - cbn [parse_value String.append]. rewrite next_blank by easy.
    cbn [mbind option_bind].
    change (Ascii.eqb "-" QUOTE) with false.
    change (Ascii.eqb "-" "[") with false.
    change (Ascii.eqb "-" "{") with false.
    change (Ascii.eqb "-" "-") with true. cbv iota.
    now apply parse_number_more.
  - pose proof H as (c' & s' & [= <- <-] & Hc)%parse_number_head.
    destruct (is_digit_dispatch c Hc)
      as (H0 & H1 & H2 & H3 & H4 & H5 & H6 & H7 & _).
    cbn [parse_value String.append]. rewrite next_blank by easy.
    cbn [mbind option_bind]. rewrite H1, H2, H3, H4, H5, H6, H7.
    change (String c (digits +:+ rest)) with (String c digits +:+ rest).
    now apply parse_number_more.
Qed.

(** ** Values *)

Lemma json_induction (P : json -> Prop) :
  P JNull -> (forall b, P (JBool b)) -> (forall n, P (JNumber n)) ->
  (forall s, P (JString s)) ->
  (forall elements, Forall P elements -> P (JArray elements)) ->
  (forall members, Forall (fun m => P m.2) members -> P (JObject members)) ->
  forall value, P value.
Proof.
  intros Hnull Hbool Hnumber Hstring Harray Hobject.
  fix IH 1. intros [| b | n | s | elements | members].
  - apply Hnull.
  - apply Hbool.
  - apply Hnumber.
  - apply Hstring.
  - apply Harray. induction elements as [|x l IHl]; constructor.
    + apply IH.
    + apply IHl.
  - apply Hobject. induction members as [|[k x] l IHl]; constructor.
    + apply IH.
    + apply IHl.
Qed.

Lemma serialize_array indent x l rest :
  serialize indent (JArray (x :: l)) +:+ rest =
  String "[" ((LF +:+ indent +:+ TAB) +:+
              join ("," +:+ LF +:+ indent +:+ TAB)
                (map (serialize (indent +:+ TAB)) (x :: l)) +:+
              (LF +:+ indent) +:+ String "]" rest).
Proof. cbn [serialize]. rewrite !append_assoc. reflexivity. Qed.

Lemma serialize_object indent m ms rest :
  serialize indent (JObject (m :: ms)) +:+ rest =
  String "{" ((LF +:+ indent +:+ TAB) +:+
              join ("," +:+ LF +:+ indent +:+ TAB)
                (map (member_text (indent +:+ TAB)) (m :: ms)) +:+
              (LF +:+ indent) +:+ String "}" rest).
Proof. cbn [serialize]. rewrite !append_assoc. reflexivity. Qed.

Lemma blank_append a b : blank a = true -> blank b = true -> blank (a +:+ b) = true.
Proof.
  induction a as [|c a IH]; [auto|]. cbn.
  intros [-> Ha]%andb_prop Hb. auto.
Qed.

Lemma bind_Some {A B} (a : A) (f : A -> option B) : Some a ≫= f = f a.
Proof. reflexivity. Qed.

Lemma next_comma s : next ("," +:+ s) = Some (","%char, s).
Proof. reflexivity. Qed.

Lemma goes_on_comma s : goes_on ("," +:+ s) = false.
Proof. reflexivity. Qed.

Lemma goes_on_LF s : goes_on (LF +:+ s) = false.
Proof. reflexivity. Qed.

Lemma blank_LF indent : blank indent = true -> blank (LF +:+ indent) = true.
Proof. intros H. cbn. exact H. Qed.

Lemma join_cons sep x y (l : list string) :
  join sep (x :: y :: l) = x +:+ sep +:+ join sep (y :: l).
Proof. reflexivity. Qed.

Ltac bind_step := rewrite bind_Some; cbv beta iota.

Lemma elements_read_back l :
  Forall reads_back l ->
  forall fuel indent ws tail rest,
    l <> [] -> blank indent = true -> blank ws = true ->
    goes_on tail = false -> next tail = Some ("]"%char, rest) ->
    forallb well_formed l = true ->
    (list_sum (map (fun x => S (size x)) l) <= fuel)%nat ->
    parse_elements fuel
      (ws +:+ join ("," +:+ LF +:+ indent) (map (serialize indent) l) +:+ tail)
    = Some (l, rest).
Proof.
  induction 1 as [|x l Hx Hl IH]; intros fuel indent ws tail rest Hne Hi Hws
    Htail Hnext Hwf Hfuel; [contradiction|].
  cbn [forallb] in Hwf. apply andb_prop in Hwf as [Hwx Hwl].
  cbn [map list_sum fold_right] in Hfuel.
  destruct fuel as [|fuel]; [lia|]. cbn [parse_elements].
  destruct l as [|y l'].
  - cbn [map join]. rewrite (Hx fuel indent ws tail) by (assumption || lia).
    bind_step. rewrite Hnext. reflexivity.
  - cbn [map]. rewrite join_cons, !append_assoc.
    rewrite (Hx fuel indent ws)
      by (assumption || apply goes_on_comma || lia).
    bind_step. rewrite next_comma. bind_step.
    rewrite Ascii.eqb_refl, <- (append_assoc LF indent).
    change (serialize indent y :: map (serialize indent) l')
      with (map (serialize indent) (y :: l')).
    rewrite (IH fuel indent (LF +:+ indent) tail rest);
      [reflexivity|discriminate|assumption|now apply blank_LF
      |assumption..|].
    cbn [map list_sum fold_right] in *. lia.
Qed.

Lemma next_colon s : next (": " +:+ s) = Some (":"%char, " " +:+ s).
Proof. reflexivity. Qed.

Lemma member_read_back fuel indent ws k x s acc :
  reads_back x -> blank indent = true -> blank ws = true ->
  goes_on s = false -> canonical_string k = true ->
  well_formed x = true -> (size x <= fuel)%nat ->
  parse_members (S fuel) acc (ws +:+ member_text indent (k, x) +:+ s) =
  '(c, rest) ← next s;
  if Ascii.eqb c "," then parse_members fuel (define k x acc) rest
  else if Ascii.eqb c "}" then Some (define k x acc, rest)
  else None.
Proof.
  intros Hx Hi Hws Hs Hk Hwf Hfuel. cbn [parse_members].
  unfold member_text. cbn [fst snd].
  rewrite !append_assoc, quote_append, next_blank by easy. bind_step.
  rewrite Ascii.eqb_refl, parse_chars_escape by exact Hk. bind_step.
  rewrite next_colon. bind_step. rewrite Ascii.eqb_refl.
  rewrite (Hx fuel indent " " s) by easy. bind_step. reflexivity.
Qed.

Lemma members_read_back ms :
  Forall (fun m => reads_back m.2) ms ->
  forall fuel indent ws tail rest acc,
    ms <> [] -> blank indent = true -> blank ws = true ->
    goes_on tail = false -> next tail = Some ("}"%char, rest) ->
    forallb (fun m => canonical_string m.1 && well_formed m.2) ms = true ->
    (list_sum (map (fun m => S (size m.2)) ms) <= fuel)%nat ->
    parse_members fuel acc
      (ws +:+ join ("," +:+ LF +:+ indent) (map (member_text indent) ms)
       +:+ tail)
    = Some (foldl (fun acc m => define m.1 m.2 acc) acc ms, rest).
Proof.
  induction 1 as [|[k x] ms Hx Hms IH];
    intros fuel indent ws tail rest acc Hne Hi Hws Htail Hnext Hwf Hfuel;
    [contradiction|].
  cbn [forallb fst snd] in Hwf.
  apply andb_prop in Hwf as [[Hk Hwx]%andb_prop Hwl].
  cbn [map list_sum fold_right snd] in Hfuel. cbn [snd] in Hx.
  destruct fuel as [|fuel]; [lia|]. cbn [foldl fst snd].
  destruct ms as [|m ms'].
  - cbn [map join]. rewrite member_read_back by (assumption || lia).
    rewrite Hnext. reflexivity.
  - cbn [map]. rewrite join_cons, (append_assoc (member_text _ _)).
    rewrite member_read_back by (assumption || apply goes_on_comma || lia).
    rewrite !append_assoc, next_comma. bind_step.
    rewrite Ascii.eqb_refl, <- (append_assoc LF indent).
    change (member_text indent m :: map (member_text indent) ms')
      with (map (member_text indent) (m :: ms')).
    apply IH;
      [discriminate|assumption|now apply blank_LF|assumption..|].
    cbn [map list_sum fold_right] in *. lia.
Qed.

(** ** Keys *)

Lemma names_only_ordered above keys :
  names_only keys = true -> ordered_keys above keys = true.
Proof.
  destruct keys as [|k keys]; [reflexivity|]. cbn.
  destruct (array_index k); [discriminate|]. auto.
Qed.

Lemma names_only_elem keys k :
  names_only keys = true -> In k keys -> array_index k = None.
Proof.
  induction keys as [|k' keys IH]; [contradiction|]. cbn.
  intros [[Hk' _]%andb_prop Hkeys]%andb_prop [->|Hin]; [|auto].
  now destruct (array_index k).
Qed.

Lemma names_only_app keys1 k keys2 :
  names_only (keys1 ++ k :: keys2) = true -> ~ In k keys1.
Proof.
  induction keys1 as [|k' keys1 IH]; [auto|]. cbn.
  intros [[_ Hk']%andb_prop Hkeys]%andb_prop [->|Hin]; [|now apply IH].
  apply negb_true_iff in Hk'.
  assert (existsb (String.eqb k) (keys1 ++ k :: keys2) = true);
    [|congruence].
  apply existsb_exists. exists k. split; [|apply String.eqb_refl].
  apply in_or_app. right. now left.
Qed.

Lemma ordered_keys_below above keys1 k keys2 i :
  ordered_keys above (keys1 ++ k :: keys2) = true ->
  array_index k = Some i ->
  (if above is Some low then (low < i)%N else True) /\
  Forall (below i) keys1.
Proof.
  revert above. induction keys1 as [|k' keys1 IH]; intros above Ho Hk.
  - cbn in Ho. rewrite Hk in Ho. apply andb_prop in Ho as [Hlow _].
    split; [|constructor]. destruct above; [|exact I].
    now apply N.ltb_lt.
  - cbn [app ordered_keys] in Ho. destruct (array_index k') as [i'|] eqn:Hk'.
    + apply andb_prop in Ho as [Hlow Ho].
      destruct (IH _ Ho Hk) as [Hi' Hall]. split.
      * destruct above; [|exact I]. apply N.ltb_lt in Hlow. lia.
      * constructor; [now exists i'|assumption].
    + apply names_only_elem with (k := k) in Ho; [congruence|].
      right. apply in_or_app. right. now left.
Qed.

Lemma ordered_keys_distinct above keys1 k keys2 :
  ordered_keys above (keys1 ++ k :: keys2) = true -> ~ In k keys1.
Proof.
  revert above. induction keys1 as [|k' keys1 IH]; intros above Ho; [auto|].
  cbn [app ordered_keys] in Ho. destruct (array_index k') as [i'|] eqn:Hk'.
  - apply andb_prop in Ho as [_ Ho]. intros [->|Hin]; [|now apply (IH _ Ho)].
    destruct (ordered_keys_below _ _ _ _ i' Ho Hk') as [Hlt _]. cbn in Hlt. lia.
  - exact (names_only_app (k' :: keys1) k keys2 Ho).
Qed.

Lemma replace_fresh k x members :
  ~ In k (map fst members) -> replace k x members = None.
Proof.
  induction members as [|[k' x'] members IH]; [reflexivity|]. cbn.
  intros Hin. destruct (String.eqb_spec k' k) as [->|Hne].
  - destruct Hin. now left.
  - rewrite IH; [reflexivity|]. intros H. apply Hin. now right.
Qed.

Lemma insert_index_last i k x members :
  Forall (below i) (map fst members) ->
  insert_index i k x members = members ++ [(k, x)].
Proof.
  induction members as [|[k' x'] members IH]; [reflexivity|]. cbn.
  intros Hall. apply Forall_cons in Hall as [(i' & -> & Hlt) Hall].
  apply N.ltb_lt in Hlt. rewrite Hlt, IH by assumption. reflexivity.
Qed.

Lemma define_last above members k x ms :
  ordered_keys above (map fst (members ++ (k, x) :: ms)) = true ->
  define k x members = members ++ [(k, x)].
Proof.
  rewrite map_app. cbn [map fst]. intros Ho. unfold define.
  rewrite replace_fresh by exact (ordered_keys_distinct _ _ _ _ Ho).
  destruct (array_index k) as [i|] eqn:Hk; [|reflexivity].
  apply insert_index_last. exact (proj2 (ordered_keys_below _ _ _ _ i Ho Hk)).
Qed.

Lemma foldl_define ms : forall members,
  ordered_keys None (map fst (members ++ ms)) = true ->
  foldl (fun acc m => define m.1 m.2 acc) members ms = members ++ ms.
Proof.
  induction ms as [|[k x] ms IH]; intros members Ho.
  - now rewrite app_nil_r.
  - cbn [foldl fst snd]. rewrite (define_last _ _ _ _ _ Ho).
    rewrite IH; rewrite <- app_assoc; [reflexivity|exact Ho].
Qed.

(** Two keys that are array indices and differ are different indices. *)
Lemma digit_value_spec c d :
  digit_value c = Some d -> (d < 10)%N /\ N_of_ascii c = (d + 48)%N.
Proof.
  unfold digit_value. destruct (_ && _) eqn:H; [|discriminate].
  apply andb_prop in H as [H1%N.leb_le H2%N.leb_le]. intros [= <-]. lia.
Qed.

Lemma digit_value_inj c c' d :
  digit_value c = Some d -> digit_value c' = Some d -> c = c'.
Proof.
  intros [_ H]%digit_value_spec [_ H']%digit_value_spec.
  rewrite <- (ascii_N_embedding c), <- (ascii_N_embedding c'). congruence.
Qed.

Lemma numeral_bounds s : forall acc n,
  numeral acc s = Some n ->
  (acc * 10 ^ N.of_nat (String.length s) <= n
   < (acc + 1) * 10 ^ N.of_nat (String.length s))%N.
Proof.
  induction s as [|c s IH]; intros acc n H.
  - cbn in *. injection H as <-. lia.
  - cbn [numeral] in H.
    destruct (digit_value c) as [d|] eqn:Hc; [|discriminate].
    apply digit_value_spec in Hc as [Hd _]. apply IH in H.
    cbn [String.length]. rewrite Nat2N.inj_succ, N.pow_succ_r'. nia.
Qed.

Lemma numeral_inj s1 : forall s2 a1 a2 n,
  String.length s1 = String.length s2 ->
  numeral a1 s1 = Some n -> numeral a2 s2 = Some n -> a1 = a2 /\ s1 = s2.
Proof.
  induction s1 as [|c1 s1 IH]; intros [|c2 s2] a1 a2 n Hl H1 H2;
    try discriminate.
  - cbn in *. split; congruence.
  - cbn [numeral] in H1, H2.
    destruct (digit_value c1) as [d1|] eqn:Hc1; [|discriminate].
    destruct (digit_value c2) as [d2|] eqn:Hc2; [|discriminate].
    injection Hl as Hl. destruct (IH _ _ _ _ Hl H1 H2) as [Ha ->].
    pose proof (digit_value_spec _ _ Hc1) as [? _].
    pose proof (digit_value_spec _ _ Hc2) as [? _].
    assert (d1 = d2) by lia. assert (a1 = a2) by lia. subst.
    split; [reflexivity|]. f_equal. eapply digit_value_inj; eauto.
Qed.

Lemma array_index_spec key i :
  array_index key = Some i ->
  numeral 0 key = Some i /\
  exists c rest d, key = String c rest /\ digit_value c = Some d /\
    (rest <> "" -> (0 < d)%N).
Proof.
  destruct key as [|c rest]; [discriminate|]. unfold array_index.
  destruct (Ascii.eqb c "0" && negb (String.eqb rest "")) eqn:Hz;
    [discriminate|].
  destruct (numeral 0 (String c rest)) as [n|] eqn:Hn; [|discriminate].
  destruct (n <? 4294967295)%N; [|discriminate]. intros [= <-].
  split; [reflexivity|]. cbn [numeral] in Hn.
  destruct (digit_value c) as [d|] eqn:Hc; [|discriminate].
  exists c, rest, d. split; [reflexivity|split; [exact Hc|]].
  intros Hrest.
  apply andb_false_iff in Hz as [Hz|Hz].
  - apply digit_value_spec in Hc as [_ Hc].
    destruct (N.eq_dec d 0%N) as [->|]; [|lia].
    rewrite <- (ascii_N_embedding c), Hc in Hz. discriminate.
  - apply negb_false_iff, String.eqb_eq in Hz. contradiction.
Qed.

Lemma array_index_longer k1 k2 i :
  array_index k1 = Some i -> array_index k2 = Some i ->
  ~ (String.length k1 < String.length k2)%nat.
Proof.
  intros [H1 (c1 & r1 & d1 & -> & _)]%array_index_spec
         [H2 (c2 & r2 & d2 & -> & Hc2 & Hd2)]%array_index_spec Hlt.
  cbn [String.length] in Hlt.
  assert (Hr2 : r2 <> "") by (destruct r2; [cbn in Hlt; lia|discriminate]).
  specialize (Hd2 Hr2). cbn [numeral] in H2. rewrite Hc2 in H2.
  apply numeral_bounds in H1, H2. cbn [String.length] in H1.
  assert (10 ^ N.of_nat (S (String.length r1))
          <= 10 ^ N.of_nat (String.length r2))%N
    by (apply N.pow_le_mono_r; lia).
  nia.
Qed.

Lemma array_index_inj k1 k2 i :
  array_index k1 = Some i -> array_index k2 = Some i -> k1 = k2.
Proof.
  intros H1 H2.
  destruct (Nat.lt_trichotomy (String.length k1) (String.length k2))
    as [Hlt|[Heq|Hlt]].
  - now destruct (array_index_longer _ _ _ H1 H2).
  - apply array_index_spec in H1 as [H1 _], H2 as [H2 _].
    exact (proj2 (numeral_inj _ _ _ _ _ Heq H1 H2)).
  - now destruct (array_index_longer _ _ _ H2 H1).
Qed.

(** [define] keeps the keys in the order JavaScript enumerates them. *)
Lemma replace_keys k x members : forall members',
  replace k x members = Some members' -> map fst members' = map fst members.
Proof.
  induction members as [|[k' x'] members IH]; intros members';
    [discriminate|].
  cbn. destruct (String.eqb_spec k' k).
  - now intros [= <-].
  - destruct (replace k x members) as [r|]; [|discriminate]. cbn.
    intros [= <-]. cbn. f_equal. now apply IH.
Qed.

Lemma replace_absent k x members :
  replace k x members = None -> ~ In k (map fst members).
Proof.
  induction members as [|[k' x'] members IH]; [auto|]. cbn.
  destruct (String.eqb_spec k' k); [discriminate|].
  destruct (replace k x members); [discriminate|].
  intros _ [?|?]; [congruence|]. now apply IH.
Qed.

Lemma names_only_snoc keys k :
  array_index k = None -> ~ In k keys -> names_only keys = true ->
  names_only (keys ++ [k]) = true.
Proof.
  intros Hk. induction keys as [|k' keys IH]; intros Hin Hn.
  - cbn. now rewrite Hk.
  - cbn [app names_only] in *.
    apply andb_prop in Hn as [[H1 H2]%andb_prop H3].
    rewrite H1, IH, existsb_app; [|intros ?; apply Hin; now right|assumption].
    apply negb_true_iff in H2. rewrite H2. cbn.
    destruct (String.eqb_spec k' k); [|reflexivity].
    destruct Hin. now left.
Qed.

Lemma ordered_keys_snoc keys k :
  array_index k = None -> forall above,
  ~ In k keys -> ordered_keys above keys = true ->
  ordered_keys above (keys ++ [k]) = true.
Proof.
  intros Hk. induction keys as [|k' keys IH]; intros above Hin Ho.
  - cbn. now rewrite Hk.
  - cbn [app ordered_keys] in *. destruct (array_index k') eqn:Hk'.
    + apply andb_prop in Ho as [-> Ho]. cbn [andb].
      apply IH; [|assumption]. intros ?; apply Hin; now right.
    + now apply (names_only_snoc (k' :: keys)).
Qed.

Lemma insert_index_ordered i k x :
  array_index k = Some i -> forall members above,
  (if above is Some low then (low < i)%N else True) ->
  ~ In k (map fst members) ->
  ordered_keys above (map fst members) = true ->
  ordered_keys above (map fst (insert_index i k x members)) = true.
Proof.
  intros Hk.
  assert (Hhead : forall above,
    (if above is Some low then (low < i)%N else True) ->
    (if above is Some low then (low <? i)%N else true) = true).
  { intros [low|] Hlow; [now apply N.ltb_lt|reflexivity]. }
  induction members as [|[k' x'] members IH]; intros above Hlow Hin Ho.
  - cbn. now rewrite Hk, Hhead.
  - cbn [insert_index map fst ordered_keys] in *.
    destruct (array_index k') as [i'|] eqn:Hk'.
    + apply andb_prop in Ho as [Hl Ho]. destruct (i' <? i)%N eqn:Hlt.
      * cbn [map fst ordered_keys]. rewrite Hk', Hl. cbn [andb].
        apply IH;
          [now apply N.ltb_lt|intros ?; apply Hin; now right|assumption].
      * cbn [map fst ordered_keys]. rewrite Hk, Hk', Hhead by assumption.
        assert (i <> i')
          by (intros ->; apply Hin; left; eapply array_index_inj; eauto).
        apply N.ltb_ge in Hlt.
        assert (Hii : (i <? i')%N = true) by (apply N.ltb_lt; lia).
        now rewrite Hii, Ho.
    + cbn [map fst ordered_keys]. rewrite Hk, Hk', Hhead by assumption.
      exact Ho.
Qed.

Lemma define_ordered k x members :
  ordered_keys None (map fst members) = true ->
  ordered_keys None (map fst (define k x members)) = true.
Proof.
  intros Ho. unfold define.
  destruct (replace k x members) as [members'|] eqn:Hr.
  - now rewrite (replace_keys _ _ _ _ Hr).
  - apply replace_absent in Hr. destruct (array_index k) as [i|] eqn:Hk.
    + now apply insert_index_ordered.
    + rewrite map_app. now apply ordered_keys_snoc.
Qed.

Lemma replace_In k x m members : forall members',
  replace k x members = Some members' ->
  In m members' -> m = (k, x) \/ In m members.
Proof.
  induction members as [|[k' x'] members IH]; intros members';
    [discriminate|].
  cbn. destruct (String.eqb_spec k' k) as [->|_].
  - intros [= <-] [<-|Hin]; [now left|right; now right].
  - destruct (replace k x members) as [r|]; [|discriminate]. cbn.
    intros [= <-] [<-|Hin]; [right; now left|].
    destruct (IH r eq_refl Hin); [now left|right; now right].
Qed.

Lemma insert_index_In i k x m members :
  In m (insert_index i k x members) -> m = (k, x) \/ In m members.
Proof.
  induction members as [|[k' x'] members IH]; cbn.
  - intros [<-|[]]. now left.
  - destruct (array_index k') as [i'|]; [destruct (i' <? i)%N|]; cbn;
      intuition auto.
Qed.

Lemma define_In k x m members :
  In m (define k x members) -> m = (k, x) \/ In m members.
Proof.
  unfold define. destruct (replace k x members) as [members'|] eqn:Hr.
  - now apply replace_In.
  - destruct (array_index k); [apply insert_index_In|].
    intros [Hin|[<-|[]]]%in_app_or; auto.
Qed.

Lemma define_well_formed k x members :
  well_formed (JObject members) = true -> canonical_string k = true ->
  well_formed x = true ->
  well_formed (JObject (define k x members)) = true.
Proof.
  cbn [well_formed]. intros [Ho Hv]%andb_prop Hk Hx.
  apply andb_true_intro. split; [now apply define_ordered|].
  rewrite forallb_forall in Hv |- *.
  intros m [->|Hm]%define_In; [|now apply Hv].
  cbn [fst snd]. now rewrite Hk, Hx.
Qed.

Lemma set_well_formed key x value value' :
  set key x value = Some value' ->
  well_formed value = true -> canonical_string key = true ->
  well_formed x = true ->
  well_formed value' = true.
Proof.
  destruct value; try discriminate; intros [= <-] Hwf Hk Hx.
  - exact Hwf.
  - now apply define_well_formed.
Qed.

(** ** Reading a serialization back *)

Lemma serialize_head indent value :
  well_formed value = true ->
  exists c s, serialize indent value = String c s /\
    is_ws c = false /\ Ascii.eqb c "]" = false.
Proof.
  destruct value as [| [] | numeral | s | [|x l] | [|m ms]]; intros Hwf;
    try (cbn; eauto 6; fail).
  cbn [well_formed] in Hwf.
  destruct (canonical_numeral_head _ Hwf) as (c & digits & -> & Hc & Hf).
  cbn [serialize]. rewrite Hf. exists c, digits. split; [reflexivity|].
  destruct Hc as [->|Hc]; [now split|].
  destruct (is_digit_dispatch c Hc) as (H0 & _ & _ & _ & _ & _ & _ & _ & H1 & _).
  now split.
Qed.

Lemma member_text_head indent m :
  member_text indent m =
  String QUOTE (escape (cons_units m.1 "")
                +:+ String QUOTE (": " +:+ serialize indent m.2)).
Proof. unfold member_text. apply quote_head. Qed.

Lemma next_join ws sep c s l tail :
  blank ws = true -> is_ws c = false ->
  exists rest, next (ws +:+ join sep (String c s :: l) +:+ tail) = Some (c, rest).
Proof.
  intros Hws Hc. destruct l as [|y l]; cbn [join String.append].
  - rewrite next_blank by assumption. eauto.
  - rewrite next_blank by assumption. eauto.
Qed.

Theorem parse_value_serialize value : reads_back value.
Proof.
  induction value as [| b | numeral | s | elements IH | members IH]
    using json_induction;
    intros fuel indent ws rest Hi Hws Hr Hwf Hfuel;
    (destruct fuel as [|fuel]; [cbn in Hfuel; lia|]).
  - cbn [serialize parse_value].
    change ("null" +:+ rest) with (String "n" ("ull" +:+ rest)).
    rewrite next_blank by easy. reflexivity.
  - destruct b; cbn [serialize parse_value].
    + change ("true" +:+ rest) with (String "t" ("rue" +:+ rest)).
      rewrite next_blank by easy. reflexivity.
    + change ("false" +:+ rest) with (String "f" ("alse" +:+ rest)).
      rewrite next_blank by easy. reflexivity.
  - cbn [well_formed] in Hwf.
    destruct (canonical_numeral_head _ Hwf) as (c & digits & _ & _ & Hf).
    cbn [serialize]. rewrite Hf. now apply parse_value_number.
  - cbn [serialize parse_value].
    rewrite quote_append, next_blank by easy. bind_step.
    rewrite Ascii.eqb_refl, parse_chars_escape by exact Hwf. reflexivity.
  - destruct elements as [|x l].
    + cbn [serialize parse_value].
      change ("[]" +:+ rest) with (String "[" (String "]" rest)).
      rewrite next_blank by easy. reflexivity.
    + rewrite serialize_array. cbn [parse_value].
      rewrite next_blank by easy. bind_step.
      change (Ascii.eqb "[" QUOTE) with false.
      change (Ascii.eqb "[" "[") with true. cbv iota.
      cbn [well_formed] in Hwf. pose proof Hwf as Hwx.
      cbn [forallb] in Hwx. apply andb_prop in Hwx as [Hwx _].
      destruct (serialize_head (indent +:+ TAB) x Hwx)
        as (c & s0 & Hs & Hc & Hb).
      assert (Hblank : blank (LF +:+ indent +:+ TAB) = true)
        by (apply blank_LF, blank_append; easy).
      destruct (next_join (LF +:+ indent +:+ TAB)
                  ("," +:+ LF +:+ indent +:+ TAB) c s0
                  (map (serialize (indent +:+ TAB)) l)
                  ((LF +:+ indent) +:+ String "]" rest) Hblank Hc)
        as [r Hnext].
      cbn [map]. rewrite Hs, Hnext. bind_step. rewrite Hb, <- Hs.
      change (serialize (indent +:+ TAB) x :: map (serialize (indent +:+ TAB)) l)
        with (map (serialize (indent +:+ TAB)) (x :: l)).
      rewrite (elements_read_back (x :: l) IH fuel (indent +:+ TAB)
                 (LF +:+ indent +:+ TAB) _ rest);
        [reflexivity|discriminate|apply blank_append; easy|assumption
        |reflexivity|apply next_blank; [now apply blank_LF|reflexivity]
        |assumption|].
      cbn [size] in Hfuel. lia.
  - destruct members as [|m ms].
    + cbn [serialize parse_value].
      change ("{}" +:+ rest) with (String "{" (String "}" rest)).
      rewrite next_blank by easy. reflexivity.
    + rewrite serialize_object. cbn [parse_value].
      rewrite next_blank by easy. bind_step.
      change (Ascii.eqb "{" QUOTE) with false.
      change (Ascii.eqb "{" "[") with false.
      change (Ascii.eqb "{" "{") with true. cbv iota.
      cbn [well_formed] in Hwf. apply andb_prop in Hwf as [Ho Hwf].
      assert (Hblank : blank (LF +:+ indent +:+ TAB) = true)
        by (apply blank_LF, blank_append; easy).
      destruct (next_join (LF +:+ indent +:+ TAB)
                  ("," +:+ LF +:+ indent +:+ TAB) QUOTE
                  (escape (cons_units m.1 "")
                   +:+ String QUOTE (": " +:+ serialize (indent +:+ TAB) m.2))
                  (map (member_text (indent +:+ TAB)) ms)
                  ((LF +:+ indent) +:+ String "}" rest) Hblank eq_refl)
        as [r Hnext].
      cbn [map]. rewrite member_text_head, Hnext.
      bind_step. change (Ascii.eqb QUOTE "}") with false. cbv iota.
      rewrite <- member_text_head.
      change (member_text (indent +:+ TAB) m :: map (member_text (indent +:+ TAB)) ms)
        with (map (member_text (indent +:+ TAB)) (m :: ms)).
      rewrite (members_read_back (m :: ms) IH fuel (indent +:+ TAB)
                 (LF +:+ indent +:+ TAB) _ rest []);
        [|discriminate|apply blank_append; easy|assumption
         |reflexivity|apply next_blank; [now apply blank_LF|reflexivity]
         |assumption|cbn [size] in Hfuel; lia].
      bind_step. now rewrite (foldl_define (m :: ms) []).
Qed.

(** ** The recursion bound of [parse] *)

Lemma join_length {A} (f : A -> nat) (g : A -> string) sep l :
  (2 <= String.length sep)%nat ->
  Forall (fun a => (f a <= String.length (g a))%nat) l ->
  (list_sum (map (fun a => S (f a)) l)
   <= String.length (join sep (map g l)) + 1)%nat.
Proof.
  intros Hsep. induction 1 as [|a l Ha Hl IH]; [cbn; lia|].
  cbn [map list_sum fold_right]. destruct l as [|b l].
  - cbn. lia.
  - cbn [map list_sum fold_right] in IH |- *.
    rewrite join_cons, !length_append. lia.
Qed.

Lemma size_serialize value :
  forall indent, well_formed value = true ->
  (size value <= String.length (serialize indent value))%nat.
Proof.
  induction value as [| b | numeral | s | elements IH | members IH]
    using json_induction; intros indent Hwf.
  - cbn. lia.
  - destruct b; cbn; lia.
  - cbn [well_formed] in Hwf.
    destruct (canonical_numeral_head _ Hwf) as (c & digits & -> & _ & Hf).
    cbn [serialize]. rewrite Hf. cbn. lia.
  - cbn. lia.
  - destruct elements as [|x l]; [cbn; lia|].
    rewrite <- (append_nil_r (serialize _ _)), serialize_array.
    cbn [size String.length]. rewrite !length_append.
    change (String.length LF) with 1%nat.
    assert (list_sum (map (fun x => S (size x)) (x :: l)) <=
            String.length
              (join ("," +:+ LF +:+ indent +:+ TAB)
                 (map (serialize (indent +:+ TAB)) (x :: l))) + 1)%nat; [|lia].
    apply join_length; [cbn; lia|].
    cbn [well_formed] in Hwf. rewrite forallb_forall in Hwf.
    rewrite Forall_forall in IH. apply Forall_forall. intros y Hy.
    apply IH; [exact Hy|]. apply Hwf. now apply list_elem_of_In.
  - destruct members as [|m ms]; [cbn; lia|].
    rewrite <- (append_nil_r (serialize _ _)), serialize_object.
    cbn [size String.length]. rewrite !length_append.
    change (String.length LF) with 1%nat.
    assert (list_sum (map (fun m => S (size m.2)) (m :: ms)) <=
            String.length
              (join ("," +:+ LF +:+ indent +:+ TAB)
                 (map (member_text (indent +:+ TAB)) (m :: ms))) + 1)%nat;
      [|lia].
    apply join_length; [cbn; lia|].
    cbn [well_formed] in Hwf. apply andb_prop in Hwf as [_ Hwf].
    rewrite forallb_forall in Hwf.
    rewrite Forall_forall in IH. apply Forall_forall. intros y Hy.
    unfold member_text. rewrite !length_append.
    specialize (IH y Hy (indent +:+ TAB)).
    specialize (Hwf y (proj1 (list_elem_of_In _ _) Hy)). cbn beta in *.
    apply andb_prop in Hwf as [_ Hwf]. specialize (IH Hwf). lia.
Qed.

(** [JSON.parse] reads back what [JSON.stringify] wrote. *)
Theorem parse_stringify value :
  well_formed value = true -> parse (stringify value +:+ LF) = Some value.
Proof.
  intros Hwf. unfold parse, stringify.
  change (serialize "" value +:+ LF)
    with ("" +:+ serialize "" value +:+ LF) at 2.
  rewrite (parse_value_serialize value _ "" "" LF); try easy.
  rewrite length_append. pose proof (size_serialize value "" Hwf). lia.
Qed.

(** ** What [parse] gives *)

Lemma literal_value word value s value' rest :
  literal word value s = Some (value', rest) -> value' = value.
Proof.
  unfold literal. destruct (after word s); [|discriminate]. now intros [= <-].
Qed.

(** ** Values as they are written *)

Lemma cons_units_twice s : cons_units (cons_units s "") "" = cons_units s "".
Proof. apply cons_units_canonical. now apply cons_units_keeps. Qed.

Lemma as_written_twice value : as_written (as_written value) = as_written value.
Proof.
  induction value as [| b | numeral | s | elements IH | members IH]
    using json_induction; try reflexivity.
  - cbn. destruct (is_finite numeral) eqn:Hf; [cbn; now rewrite Hf|reflexivity].
  - cbn [as_written]. now rewrite cons_units_twice.
  - cbn. f_equal. rewrite map_map. apply map_ext_Forall. exact IH.
  - cbn. f_equal. rewrite map_map. apply map_ext_Forall.
    eapply Forall_impl; [exact IH|]. intros m Hm. cbn. now rewrite Hm.
Qed.

(** [JSON.stringify] writes a value and the value it stands for in the same
    way. *)
Lemma serialize_as_written value : forall indent,
  serialize indent (as_written value) = serialize indent value.
Proof.
  induction value as [| b | numeral | s | elements IH | members IH]
    using json_induction; intros indent; try reflexivity.
  - cbn [as_written]. destruct (is_finite numeral) eqn:Hf; [reflexivity|].
    cbn [serialize]. now rewrite Hf.
  - cbn [as_written serialize]. unfold quote. now rewrite cons_units_twice.
  - destruct elements as [|x l]; [reflexivity|].
    cbn [as_written map]. cbn [serialize].
    change (as_written x :: map as_written l) with (map as_written (x :: l)).
    change (serialize (indent +:+ TAB) x :: map (serialize (indent +:+ TAB)) l)
      with (map (serialize (indent +:+ TAB)) (x :: l)).
    rewrite map_map.
    erewrite map_ext_Forall; [reflexivity|].
    eapply Forall_impl; [exact IH|]. intros y Hy. apply Hy.
  - destruct members as [|m ms]; [reflexivity|].
    cbn [as_written map]. cbn [serialize].
    set (f := fun m : string * json =>
                quote m.1 +:+ ": " +:+ serialize (indent +:+ TAB) m.2).
    set (g := fun m : string * json => (m.1, as_written m.2)).
    change ((m.1, as_written m.2) :: map g ms) with (map g (m :: ms)).
    rewrite map_map.
    erewrite map_ext_Forall; [reflexivity|].
    eapply Forall_impl; [exact IH|]. intros y Hy. unfold f, g. cbn [fst snd].
    now rewrite Hy.
Qed.

Lemma stringify_as_written value : stringify (as_written value) = stringify value.
Proof. apply serialize_as_written. Qed.

Section Members.
Variable f : json -> json.
Let on_members := map (fun m : string * json => (m.1, f m.2)).

Lemma replace_map k x members :
  replace k (f x) (on_members members)
  = on_members <$> replace k x members.
Proof.
  induction members as [|[k' x'] members IH]; [reflexivity|].
  cbn [on_members map replace fst snd]. destruct (String.eqb k' k);
    [reflexivity|].
  fold on_members. rewrite IH. now destruct (replace k x members).
Qed.

Lemma insert_index_map i k x members :
  insert_index i k (f x) (on_members members)
  = on_members (insert_index i k x members).
Proof.
  induction members as [|[k' x'] members IH]; [reflexivity|].
  cbn [on_members map insert_index fst snd]. fold on_members.
  destruct (array_index k') as [i'|]; [|reflexivity].
  destruct (i' <? i)%N; [|reflexivity]. cbn [map fst snd].
  fold on_members. now rewrite IH.
Qed.

Lemma define_map k x members :
  define k (f x) (on_members members) = on_members (define k x members).
Proof.
  unfold define. rewrite replace_map.
  destruct (replace k x members) as [members'|]; [reflexivity|]. cbn [fmap option_fmap option_map].
  destruct (array_index k) as [i|]; [apply insert_index_map|].
  unfold on_members. now rewrite map_app.
Qed.

Lemma member_map k members :
  member k (on_members members) = f <$> member k members.
Proof.
  induction members as [|[k' x'] members IH]; [reflexivity|].
  cbn [on_members map member fst snd]. now destruct (String.eqb k' k).
Qed.

End Members.

Lemma define_as_written k x members :
  as_written (JObject (define k x members))
  = JObject (define k (as_written x) (map (fun m => (m.1, as_written m.2)) members)).
Proof. cbn [as_written]. now rewrite define_map. Qed.

Lemma set_as_written key x value :
  set key (as_written x) (as_written value) = as_written <$> set key x value.
Proof.
  destruct value as [| b | numeral | s | elements | members];
    try reflexivity.
  - cbn [as_written]. now destruct (is_finite numeral).
  - cbn [as_written set fmap option_fmap option_map]. now rewrite define_map.
Qed.

Lemma get_as_written key value :
  get key (as_written value) = as_written <$> get key value.
Proof.
  destruct value as [| b | numeral | s | elements | members];
    try reflexivity.
  - cbn [as_written]. now destruct (is_finite numeral).
  - cbn [as_written get]. apply member_map.
Qed.

Lemma convertible_as_written value : convertible (as_written value) = convertible value.
Proof.
  induction value as [| b | numeral | s | elements IH | members IH]
    using json_induction; try reflexivity.
  - cbn [as_written]. now destruct (is_finite numeral).
  - cbn [as_written convertible].
    induction IH as [|x l Hx _ IHl]; [reflexivity|].
    cbn [map forallb]. now rewrite Hx, IHl.
  - cbn [as_written convertible]. f_equal. clear IH.
    induction members as [|m ms IHms]; [reflexivity|].
    cbn [map existsb fst]. now rewrite IHms.
Qed.

Lemma displayable_as_written value :
  displayable (as_written <$> value) = displayable value.
Proof. destruct value; [apply convertible_as_written|reflexivity]. Qed.

(** ** What [parse] gives *)

Lemma parse_well_formed fuel :
  (forall s value rest,
     parse_value fuel s = Some (value, rest) ->
     well_formed (as_written value) = true) /\
  (forall s elements rest,
     parse_elements fuel s = Some (elements, rest) ->
     forallb well_formed (map as_written elements) = true) /\
  (forall members s members' rest,
     parse_members fuel members s = Some (members', rest) ->
     well_formed (as_written (JObject members)) = true ->
     well_formed (as_written (JObject members')) = true).
Proof.
  induction fuel as [|fuel (IHv & IHe & IHm)]; [repeat split; discriminate|].
  split; [|split].
  - intros s value rest. cbn [parse_value].
    destruct (next s) as [[c s']|]; [|discriminate]. bind_step.
    destruct (Ascii.eqb c QUOTE).
    { destruct (parse_chars s') as [[chars r]|] eqn:Hc; [|discriminate].
      intros [= <- <-]. cbn [as_written well_formed].
      now apply cons_units_keeps. }
    destruct (Ascii.eqb c "[").
    { destruct (next s') as [[c' r]|]; [|discriminate]. bind_step.
      destruct (Ascii.eqb c' "]"); [now intros [= <- <-]|].
      destruct (parse_elements fuel s') as [[elements r']|] eqn:He;
        [|discriminate].
      intros [= <- <-]. exact (IHe _ _ _ He). }
    destruct (Ascii.eqb c "{").
    { destruct (next s') as [[c' r]|]; [|discriminate]. bind_step.
      destruct (Ascii.eqb c' "}"); [now intros [= <- <-]|].
      destruct (parse_members fuel [] s') as [[members r']|] eqn:Hm;
        [|discriminate].
      intros [= <- <-]. exact (IHm _ _ _ _ Hm eq_refl). }
    destruct (Ascii.eqb c "-"); [apply parse_number_well_formed|].
    destruct (Ascii.eqb c "t"); [now intros ->%literal_value|].
    destruct (Ascii.eqb c "f"); [now intros ->%literal_value|].
    destruct (Ascii.eqb c "n"); [now intros ->%literal_value|].
    apply parse_number_well_formed.
  - intros s elements rest. cbn [parse_elements].
    destruct (parse_value fuel s) as [[x r]|] eqn:Hx; [|discriminate].
    bind_step. destruct (next r) as [[c r']|]; [|discriminate]. bind_step.
    apply IHv in Hx. destruct (Ascii.eqb c ",").
    { destruct (parse_elements fuel r') as [[l r'']|] eqn:He; [|discriminate].
      intros [= <- <-]. cbn [map forallb]. now rewrite Hx, (IHe _ _ _ He). }
    destruct (Ascii.eqb c "]"); [|discriminate].
    intros [= <- <-]. cbn [map forallb]. now rewrite Hx.
  - intros members s members' rest. cbn [parse_members].
    destruct (next s) as [[c s']|]; [|discriminate]. bind_step.
    destruct (Ascii.eqb c QUOTE); [|discriminate].
    destruct (parse_chars s') as [[key r]|] eqn:Hk; [|discriminate]. bind_step.
    apply parse_chars_canonical in Hk.
    destruct (next r) as [[c' r']|]; [|discriminate]. bind_step.
    destruct (Ascii.eqb c' ":"); [|discriminate].
    destruct (parse_value fuel r') as [[x r'']|] eqn:Hx; [|discriminate].
    bind_step. apply IHv in Hx.
    destruct (next r'') as [[c'' r3]|]; [|discriminate]. bind_step.
    intros H Hwf.
    assert (Hd : well_formed (as_written (JObject (define key x members))) = true).
    { rewrite define_as_written. now apply define_well_formed. }
    destruct (Ascii.eqb c'' ","); [exact (IHm _ _ _ _ H Hd)|].
    destruct (Ascii.eqb c'' "}"); [|discriminate].
    now injection H as <- <-.
Qed.

(** What [JSON.parse] gives is written as a value that is read back as it
    is. *)
Theorem parse_gives_well_formed text value :
  parse text = Some value -> well_formed (as_written value) = true.
Proof.
  unfold parse.
  destruct (parse_value _ text) as [[v rest]|] eqn:Hv; [|discriminate].
  bind_step. destruct (String.eqb _ _); [|discriminate]. intros [= <-].
  exact (proj1 (parse_well_formed _) _ _ _ Hv).
Qed.

(** An assignment of a string to a property of what [JSON.parse] gave,
    written out with [JSON.stringify], is read back as it was written:
    with [null] for the numbers that are not finite and the characters of
    the string as JavaScript holds them. *)
Theorem parse_set_stringify text key s value value' :
  canonical_string key = true ->
  parse text = Some value ->
  set key (JString s) value = Some value' ->
  parse (stringify value' +:+ LF) = Some (as_written value').
Proof.
  intros Hk Hp Hs. rewrite <- stringify_as_written. apply parse_stringify.
  pose proof (set_as_written key (JString s) value) as Hf. rewrite Hs in Hf.
  apply (set_well_formed _ _ _ _ Hf); [|exact Hk|].
  - exact (parse_gives_well_formed _ _ Hp).
  - cbn [as_written well_formed]. now apply cons_units_keeps.
Qed.

(** ** The model at work *)

(** Numbers are read with their fraction and exponent, rounded to the
    nearest binary64 number and printed as JavaScript prints them. *)
Example parse_numbers :
  map parse ["1.50"; "1e3"; "-0"; "0.1e-6"; "1E21"; "-2.5e+2";
             "12345678901234567890"; "9007199254740993";
             "0.30000000000000004"; "1e400"]
  = map (fun numeral => Some (JNumber numeral))
      ["1.5"; "1000"; "0"; "1e-7"; "1e+21"; "-250";
       "12345678901234567000"; "9007199254740992";
       "0.30000000000000004"; "Infinity"].
Proof. vm_compute. reflexivity. Qed.

Example parse_no_numbers :
  Forall (fun text => parse text = None)
    ["01"; "1."; ".5"; "-"; "1e"; "+1"; "0x10"; "NaN"; "Infinity"].
Proof. repeat constructor. Qed.

(** Escaped surrogates that make a pair are one character; one that is
    alone stays what it is and is written as its escape again. *)
Example parse_surrogates :
  parse (Propagate.double_quoted "'😀'") = Some (JString "😀") /\
  stringify (JString "😀") = Propagate.double_quoted "'😀'" /\
  parse (Propagate.double_quoted "'\uD83D'") = Some (JString (utf8 55357)) /\
  stringify (JString (utf8 55357)) = Propagate.double_quoted "'\ud83d'".
Proof. repeat split; vm_compute; reflexivity. Qed.

(** A manifest with numbers of all kinds is rewritten with the numbers as
    JavaScript prints them, and that text is read back as it is. *)
Example rewrite_numbers :
  let text :=
    Propagate.double_quoted
      "{ 'version': '1.0.0', 'size': 1.50, 'limits': [1e3, -0, 1e400] }" in
  let text' :=
    Propagate.double_quoted
      ("{" +:+ LF +:+
       TAB +:+ "'version': '4.0.2'," +:+ LF +:+
       TAB +:+ "'size': 1.5," +:+ LF +:+
       TAB +:+ "'limits': [" +:+ LF +:+
       TAB +:+ TAB +:+ "1000," +:+ LF +:+
       TAB +:+ TAB +:+ "0," +:+ LF +:+
       TAB +:+ TAB +:+ "null" +:+ LF +:+
       TAB +:+ "]" +:+ LF +:+
       "}" +:+ LF) in
  (value ← parse text; value' ← set "version" (JString "4.0.2") value;
   Some (stringify value' +:+ LF)) = Some text' /\
  (value ← parse text'; value' ← set "version" (JString "4.0.2") value;
   Some (stringify value' +:+ LF)) = Some text'.
Proof. split; vm_compute; reflexivity. Qed.

End JSONFacts.

(* ===================================================================== *)
(** * Properties of the propagation *)
(* ===================================================================== *)

Module PropagateFacts.
Import JsString JSON Propagate PropagateTerms.

#[local] Arguments String.append : simpl nomatch.

(** ** Paths *)

Lemma append_cancel_r (a b t : string) : a +:+ t = b +:+ t -> a = b.
Proof.
  revert b; induction a as [|c a IH]; intros [|c' b] H; simpl in H.
  - reflexivity.
  - apply (f_equal String.length) in H. simpl in H.
    rewrite JSONFacts.length_append in H. lia.
  - apply (f_equal String.length) in H. simpl in H.
    rewrite JSONFacts.length_append in H. lia.
  - injection H as -> H. f_equal. now apply IH.
Qed.

Lemma packageJsonPath_inj dir dir' :
  packageJsonPath dir = packageJsonPath dir' -> dir = dir'.
Proof.
  unfold packageJsonPath, path_join. cbn [join].
  intros H. apply (inj (String.append "packages")) in H.
  apply (inj (String.append "/")) in H.
  now apply append_cancel_r in H.
Qed.

(** ** Assigning to a property *)

Lemma replace_Some key x members members' :
  replace key x members = Some members' ->
  member key members' = Some x /\
  (forall k, k <> key -> member k members' = member k members) /\
  map fst members' = map fst members /\
  replace key x members' = Some members'.
Proof.
  revert members'; induction members as [|[k y] members IH];
    intros members'; cbn [replace]; [discriminate|].
  destruct (String.eqb_spec k key) as [->|Hne].
  - intros [= <-]. cbn [member replace map fst]. rewrite String.eqb_refl.
    repeat split; [|reflexivity..].
    intros k' Hk'. now destruct (String.eqb_spec key k'); [subst|].
  - destruct (replace key x members) as [ms|]; [|discriminate].
    intros [= <-]. destruct (IH ms eq_refl) as (H1 & H2 & H3 & H4).
    cbn [member replace map fst].
    destruct (String.eqb_spec k key); [contradiction|].
    rewrite H4. repeat split; [assumption| |congruence].
    intros k' Hk'. destruct (String.eqb k k'); [reflexivity|auto].
Qed.

Lemma replace_None key x members :
  replace key x members = None -> member key members = None.
Proof.
  induction members as [|[k y] members IH]; cbn [replace member];
    [reflexivity|].
  destruct (String.eqb k key); [discriminate|].
  destruct (replace key x members); [discriminate|auto].
Qed.

Lemma append_member key x members :
  replace key x members = None ->
  member key (members ++ [(key, x)]) = Some x /\
  (forall k, k <> key ->
     member k (members ++ [(key, x)]) = member k members) /\
  replace key x (members ++ [(key, x)]) = Some (members ++ [(key, x)]).
Proof.
  induction members as [|[k y] members IH]; cbn [replace member app].
  - intros _. rewrite String.eqb_refl. repeat split.
    intros k Hk. now destruct (String.eqb_spec key k); [subst|].
  - destruct (String.eqb_spec k key) as [->|Hne]; [discriminate|].
    destruct (replace key x members); [discriminate|]. intros _.
    destruct (IH eq_refl) as (H1 & H2 & H3). rewrite H3.
    repeat split; [assumption|].
    intros k' Hk'. destruct (String.eqb k k'); [reflexivity|auto].
Qed.

Lemma set_version_changes version packageJson packageJson' :
  set "version" (JString version) packageJson = Some packageJson' ->
  only_version_changed version packageJson packageJson'.
Proof.
  destruct packageJson as [| | | |elements|members]; cbn [set];
    try discriminate; intros [= <-]; cbn [only_version_changed];
    [reflexivity|].
  unfold define. destruct (replace _ _ members) as [ms|] eqn:Hr.
  - apply replace_Some in Hr as (H1 & H2 & H3 & _). auto.
  - change (array_index "version") with (@None N).
    apply (append_member "version" (JString version)) in Hr
      as (H1 & H2 & _).
    rewrite map_app. auto.
Qed.

Lemma replace_define key x members :
  array_index key = None ->
  replace key x (define key x members) = Some (define key x members).
Proof.
  intros Hk. unfold define. rewrite Hk.
  destruct (replace key x members) as [ms|] eqn:Hr.
  - now apply replace_Some in Hr as (_ & _ & _ & H4).
  - now apply append_member in Hr as (_ & _ & H3).
Qed.

Lemma set_version_again version packageJson packageJson' :
  set "version" (JString version) packageJson = Some packageJson' ->
  set "version" (JString version) packageJson' = Some packageJson'.
Proof.
  destruct packageJson as [| | | |elements|members]; cbn [set];
    try discriminate; intros [= <-]; cbn [set]; [reflexivity|].
  do 2 f_equal. unfold define at 1.
  now rewrite replace_define.
Qed.


Lemma replace_replace key x y members : forall ms,
  replace key x members = Some ms ->
  replace key y ms = replace key y members.
Proof.
  induction members as [|[k v] members IH]; intros ms; cbn [replace];
    [discriminate|].
  destruct (String.eqb_spec k key) as [->|Hne].
  - intros [= <-]. cbn [replace]. now rewrite String.eqb_refl.
  - destruct (replace key x members) as [r|]; [|discriminate].
    cbn. intros [= <-]. cbn [replace].
    destruct (String.eqb_spec k key); [contradiction|].
    now rewrite (IH r eq_refl).
Qed.

Lemma replace_appended key x y members :
  replace key x members = None ->
  replace key y (members ++ [(key, x)]) = Some (members ++ [(key, y)]).
Proof.
  induction members as [|[k v] members IH]; cbn [replace app].
  - intros _. now rewrite String.eqb_refl.
  - destruct (String.eqb k key); [discriminate|].
    destruct (replace key x members); [discriminate|].
    intros _. now rewrite IH.
Qed.

Lemma define_define key x y members :
  array_index key = None ->
  define key y (define key x members) = define key y members.
Proof.
  intros Hk. unfold define. rewrite Hk.
  destruct (replace key x members) as [ms|] eqn:Hr.
  - rewrite (replace_replace _ _ _ _ _ Hr).
    destruct (replace key y members) as [ms'|] eqn:Hr'; [reflexivity|].
    apply JSONFacts.replace_absent in Hr'.
    now rewrite (JSONFacts.replace_fresh _ x _ Hr') in Hr.
  - rewrite (replace_appended _ _ _ _ Hr).
    apply JSONFacts.replace_absent in Hr.
    now rewrite (JSONFacts.replace_fresh _ y _ Hr).
Qed.

Lemma set_version_set_version v1 v2 packageJson packageJson1 :
  set "version" (JString v1) packageJson = Some packageJson1 ->
  set "version" (JString v2) packageJson1
  = set "version" (JString v2) packageJson.
Proof.
  destruct packageJson; cbn [set]; try discriminate; intros [= <-];
    cbn [set]; [reflexivity|].
  now rewrite define_define.
Qed.

(** ** One round and the whole loop of [update-version.ts] *)

Section Propagation.
Variable parse : string -> option json.
Variable stringify : json -> string.
Variable FEATURED_TEMPLATES : list Template.
Variable disk : layout.

Local Abbreviation templates := (localTemplates FEATURED_TEMPLATES).
Local Abbreviation excluded dir := (existsb (String.eqb dir) templates).
Local Abbreviation attempt := (attempt parse FEATURED_TEMPLATES disk).
Local Abbreviation updated_state := (updated_state stringify).
Local Abbreviation unreported_state := (unreported_state stringify).
Local Abbreviation loop version l n :=
  (for_of l n (update_package parse stringify FEATURED_TEMPLATES disk version)).

Lemma excluded_true dir : excluded dir = true <-> dir ∈ templates.
Proof.
  rewrite existsb_exists, list_elem_of_In. split.
  - now intros (x & Hin & ->%String.eqb_eq).
  - intros H. exists dir. split; [assumption|apply String.eqb_refl].
Qed.

Lemma update_package_attempt version n dir s :
  update_package parse stringify FEATURED_TEMPLATES disk version n dir s =
  match attempt version dir (files s !! packageJsonPath dir) with
  | Skipped => (s, Returned n)
  | Updated packageJson =>
      (updated_state version dir packageJson s, Returned (S n))
  | Unreported packageJson message =>
      (unreported_state dir packageJson s, Thrown message)
  | Failed message => (s, Thrown message)
  end.
Proof.
  unfold update_package, Propagate.attempt.
  destruct (excluded dir); [reflexivity|].
  unfold bind, readFileSync.
  destruct (read_error disk (packageJsonPath dir)); [reflexivity|].
  destruct (files s !! packageJsonPath dir) as [text|]; [|reflexivity].
  unfold JSON_parse. destruct (parse text) as [packageJson|]; [|reflexivity].
  cbn [ret throw]. unfold assign_version.
  destruct (set _ _ packageJson) as [packageJson'|]; [|reflexivity].
  cbn [ret]. unfold writeFileSync.
  destruct (read_only disk _); [reflexivity|].
  unfold interpolate. destruct (displayable _); reflexivity.
Qed.

Lemma loop_cons version d l n s :
  loop version (d :: l) n s =
  match attempt version d (files s !! packageJsonPath d) with
  | Skipped => loop version l n s
  | Updated packageJson =>
      loop version l (S n) (updated_state version d packageJson s)
  | Unreported packageJson message =>
      (unreported_state d packageJson s, Thrown message)
  | Failed message => (s, Thrown message)
  end.
Proof.
  cbn [for_of]. unfold bind at 1. rewrite update_package_attempt.
  now destruct (attempt _ _ _).
Qed.

(** What a round that wrote the manifest went through. *)
Lemma attempt_wrote version dir content packageJson' :
  (attempt version dir content = Updated packageJson' \/
   exists message,
     attempt version dir content = Unreported packageJson' message) ->
  excluded dir = false /\ read_only disk (packageJsonPath dir) = false /\
  exists text packageJson,
    content = Some text /\ parse text = Some packageJson /\
    set "version" (JString version) packageJson = Some packageJson'.
Proof.
  unfold Propagate.attempt. destruct (excluded dir).
  { intros [H|[m H]]; discriminate. }
  destruct (read_error disk _).
  { intros [H|[m H]]; discriminate. }
  destruct content as [text|]; [|intros [H|[m H]]; discriminate].
  destruct (parse text) as [packageJson|] eqn:Hp;
    [|intros [H|[m H]]; discriminate].
  destruct (set _ _ packageJson) as [j|] eqn:Hs;
    [|intros [H|[m H]]; discriminate].
  destruct (read_only disk _); [intros [H|[m H]]; discriminate|].
  destruct (displayable _).
  - intros [[= <-]|[m [=]]]. eauto 8.
  - intros [[=]|[m [= <- _]]]. eauto 8.
Qed.

Lemma attempt_Updated version dir content packageJson' :
  attempt version dir content = Updated packageJson' ->
  excluded dir = false /\ read_only disk (packageJsonPath dir) = false /\
  exists text packageJson,
    content = Some text /\ parse text = Some packageJson /\
    set "version" (JString version) packageJson = Some packageJson'.
Proof. intros H. apply attempt_wrote. now left. Qed.

Lemma attempt_Unreported version dir content packageJson' message :
  attempt version dir content = Unreported packageJson' message ->
  excluded dir = false /\ read_only disk (packageJsonPath dir) = false /\
  exists text packageJson,
    content = Some text /\ parse text = Some packageJson /\
    set "version" (JString version) packageJson = Some packageJson'.
Proof. intros H. apply attempt_wrote. right. now exists message. Qed.

(** A round that wrote the manifest could read it, and printed its line
    exactly when the name could be converted to a string. *)
Lemma attempt_printed version dir content packageJson' :
  attempt version dir content = Updated packageJson' ->
  read_error disk (packageJsonPath dir) = None /\
  displayable (get "name" packageJson') = true.
Proof.
  unfold Propagate.attempt. destruct (excluded dir); [discriminate|].
  destruct (read_error disk _); [discriminate|].
  destruct content as [text|]; [|discriminate].
  destruct (parse text) as [packageJson|]; [|discriminate].
  destruct (set _ _ packageJson) as [j|]; [|discriminate].
  destruct (read_only disk _); [discriminate|].
  destruct (displayable _) eqn:Hd; [|discriminate].
  now intros [= <-].
Qed.

Lemma attempt_not_printed version dir content packageJson' message :
  attempt version dir content = Unreported packageJson' message ->
  read_error disk (packageJsonPath dir) = None /\
  displayable (get "name" packageJson') = false.
Proof.
  unfold Propagate.attempt. destruct (excluded dir); [discriminate|].
  destruct (read_error disk _); [discriminate|].
  destruct content as [text|]; [|discriminate].
  destruct (parse text) as [packageJson|]; [|discriminate].
  destruct (set _ _ packageJson) as [j|]; [|discriminate].
  destruct (read_only disk _); [discriminate|].
  destruct (displayable _) eqn:Hd; [discriminate|].
  now intros [= <- _].
Qed.

Lemma attempt_excluded version dir content :
  excluded dir = true -> attempt version dir content = Skipped.
Proof. unfold Propagate.attempt. now intros ->. Qed.

(** The loop writes only the manifests of the directories it goes over,
    and among them none of a template. *)
Lemma loop_other_files version l n s path :
  (forall d, d ∈ l -> excluded d = false -> path <> packageJsonPath d) ->
  files (loop version l n s).1 !! path = files s !! path.
Proof.
  revert n s; induction l as [|d l IH]; intros n s Hp; [reflexivity|].
  rewrite loop_cons.
  assert (Hl : forall d', d' ∈ l -> excluded d' = false ->
                          path <> packageJsonPath d')
    by (intros d' Hd'; apply Hp; now right).
  destruct (attempt _ _ _) eqn:Ha; [now apply IH| | |reflexivity].
  - rewrite IH by assumption. cbn [updated_state Propagate.updated_state files].
    apply attempt_Updated in Ha as (He & _).
    apply lookup_insert_ne. intros Heq.
    apply (Hp d); [now left|assumption|congruence].
  - cbn [fst unreported_state Propagate.unreported_state files].
    apply attempt_Unreported in Ha as (He & _).
    apply lookup_insert_ne. intros Heq.
    apply (Hp d); [now left|assumption|congruence].
Qed.

(** It creates no file and removes none. *)
Lemma loop_exists version l n s path :
  is_Some (files (loop version l n s).1 !! path) <-> is_Some (files s !! path).
Proof.
  revert n s; induction l as [|d l IH]; intros n s; [reflexivity|].
  rewrite loop_cons.
  destruct (attempt _ _ _) eqn:Ha; [apply IH| | |reflexivity].
  - rewrite IH. cbn [Propagate.updated_state files].
    apply attempt_Updated in Ha as (_ & _ & text & j & Hc & _).
    destruct (decide (packageJsonPath d = path)) as [<-|Hne].
    + rewrite lookup_insert_eq, Hc. split; eauto.
    + now rewrite lookup_insert_ne.
  - cbn [fst Propagate.unreported_state files].
    apply attempt_Unreported in Ha as (_ & _ & text & j & Hc & _).
    destruct (decide (packageJsonPath d = path)) as [<-|Hne].
    + rewrite lookup_insert_eq, Hc. split; eauto.
    + now rewrite lookup_insert_ne.
Qed.

(** What the loop prints and writes: one write and one line per package
    it updated, none of them a template, and one more write when the loop
    ended with a round that could not print its line. *)
Lemma loop_log version l n s :
  exists (done : list (string * json)) (last : list string),
    console (loop version l n s).1 =
      console s ++
      map (fun dj => updated_line (display (get "name" dj.2)) version) done /\
    written (loop version l n s).1 =
      written s ++ map (fun dj => packageJsonPath dj.1) done ++ last /\
    Forall (fun dj => dj.1 ∈ l /\ excluded dj.1 = false) done /\
    (last = [] \/
     exists d message,
       last = [packageJsonPath d] /\ d ∈ l /\ excluded d = false /\
       (loop version l n s).2 = Thrown message) /\
    forall n', (loop version l n s).2 = Returned n' ->
               n' = (n + length done)%nat /\ last = [].
Proof.
  revert n s; induction l as [|d l IH]; intros n s.
  - exists [], []. cbn. rewrite !app_nil_r.
    split; [reflexivity|]. split; [reflexivity|]. split; [constructor|].
    split; [now left|]. intros n' [= <-]. split; [lia|reflexivity].
  - rewrite loop_cons. destruct (attempt _ _ _) eqn:Ha.
    + destruct (IH n s) as (done & last & Hc & Hw & Hf & Hl & Hn).
      exists done, last.
      split; [exact Hc|]. split; [exact Hw|]. split; [|split; [|exact Hn]].
      * eapply Forall_impl; [exact Hf|]. intros dj [Hin He].
        split; [now right|assumption].
      * destruct Hl as [->|(d' & m & -> & Hd' & He & Ht)]; [now left|].
        right. exists d', m. repeat split; try assumption. now right.
    + destruct (IH (S n) (updated_state version d packageJson s))
        as (done & last & Hc & Hw & Hf & Hl & Hn).
      exists ((d, packageJson) :: done), last.
      rewrite Hc, Hw. cbn [Propagate.updated_state console written map fst snd].
      rewrite <- !app_assoc.
      split; [reflexivity|]. split; [reflexivity|]. split; [|split].
      * constructor.
        -- split; [now left|]. now apply attempt_Updated in Ha as (He & _).
        -- eapply Forall_impl; [exact Hf|]. intros dj [Hin He].
           split; [now right|assumption].
      * destruct Hl as [->|(d' & m & -> & Hd' & He & Ht)]; [now left|].
        right. exists d', m. repeat split; try assumption. now right.
      * intros n' Hr. destruct (Hn n' Hr) as [-> ->]. cbn [length].
        split; [lia|reflexivity].
    + exists [], [packageJsonPath d]. cbn. rewrite !app_nil_r.
      split; [reflexivity|]. split; [reflexivity|]. split; [constructor|].
      split; [|discriminate].
      right. exists d, message. repeat split; [now left|].
      now apply attempt_Unreported in Ha as (He & _).
    + exists [], []. cbn. rewrite !app_nil_r.
      split; [reflexivity|]. split; [reflexivity|]. split; [constructor|].
      split; [now left|discriminate].
Qed.

Lemma attempt_Skipped version dir content :
  attempt version dir content = Skipped -> excluded dir = true.
Proof.
  unfold Propagate.attempt. destruct (excluded dir); [reflexivity|].
  destruct (read_error disk _); [discriminate|].
  destruct content as [text|]; [|discriminate].
  destruct (parse text) as [j|]; [|discriminate].
  destruct (set _ _ j); [|discriminate].
  destruct (read_only disk _); [discriminate|].
  destruct (displayable _); discriminate.
Qed.

(** When the loop comes to its end, every manifest it went over, but for
    the templates, holds what its round wrote. *)
Lemma loop_success version l n s n' :
  NoDup l -> (loop version l n s).2 = Returned n' ->
  forall d, d ∈ l -> excluded d = false ->
    exists text packageJson packageJson',
      files s !! packageJsonPath d = Some text /\
      parse text = Some packageJson /\
      set "version" (JString version) packageJson = Some packageJson' /\
      files (loop version l n s).1 !! packageJsonPath d
        = Some (stringify packageJson' +:+ LF).
Proof.
  revert n s; induction l as [|d0 l IH]; intros n s Hnd Hr d Hd He.
  { now apply elem_of_nil in Hd. }
  apply NoDup_cons in Hnd as [Hd0 Hnd]. rewrite loop_cons in Hr |- *.
  destruct (attempt version d0 _) as [|j'| |] eqn:Ha;
    [| |discriminate..].
  - apply attempt_Skipped in Ha.
    apply elem_of_cons in Hd as [->|Hd]; [congruence|]. now apply IH.
  - apply elem_of_cons in Hd as [->|Hd].
    + apply attempt_Updated in Ha as (_ & _ & text & j & Hc & Hp & Hs).
      exists text, j, j'. repeat split; try assumption.
      rewrite loop_other_files.
      * apply lookup_insert_eq.
      * intros d' Hd' _ Heq%packageJsonPath_inj. congruence.
    + destruct (IH _ _ Hnd Hr d Hd He) as (text & j & j2 & Hc & Hp & Hs & Hf).
      exists text, j, j2. repeat split; try assumption.
      rewrite <- Hc. symmetry. apply lookup_insert_ne.
      intros Heq%packageJsonPath_inj. congruence.
Qed.

(** ** Reading back what a round wrote *)

Lemma get_name_set version packageJson packageJson' :
  set "version" (JString version) packageJson = Some packageJson' ->
  get "name" packageJson' = get "name" packageJson.
Proof.
  intros H. apply set_version_changes in H.
  destruct packageJson as [| | | |elements|members],
           packageJson' as [| | | |elements'|members'];
    cbn in H; try contradiction; [reflexivity|].
  destruct H as (_ & H & _). now apply H.
Qed.

(** A round that wrote the manifest, in the terms of [rewritten] and
    [nameable]. *)
Lemma attempt_rewritten version dir text packageJson' :
  (attempt version dir (Some text) = Updated packageJson' \/
   exists message,
     attempt version dir (Some text) = Unreported packageJson' message) ->
  rewritten parse stringify version text
    = Some (stringify packageJson' +:+ LF) /\
  nameable parse text = Some (displayable (get "name" packageJson')).
Proof.
  intros (_ & _ & text0 & packageJson & [= <-] & Hp & Hs)%attempt_wrote.
  unfold rewritten, nameable. rewrite Hp. cbn [mbind option_bind].
  rewrite Hs. cbn [mbind option_bind].
  now rewrite (get_name_set _ _ _ Hs).
Qed.

(** The round of a manifest that [rewritten] and [nameable] are defined
    on, when it can be read and written. *)
Lemma rewritten_attempt version dir text text' (printable : bool) :
  excluded dir = false ->
  read_error disk (packageJsonPath dir) = None ->
  read_only disk (packageJsonPath dir) = false ->
  rewritten parse stringify version text = Some text' ->
  nameable parse text = Some printable ->
  exists packageJson',
    stringify packageJson' +:+ LF = text' /\
    attempt version dir (Some text) =
      if printable then Updated packageJson'
      else Unreported packageJson' "TypeError: No default value".
Proof.
  intros He Hre Hro Hw Hn. unfold rewritten, nameable in Hw, Hn.
  unfold Propagate.attempt. rewrite He, Hre.
  destruct (parse text) as [packageJson|]; [|discriminate].
  cbn [mbind option_bind] in Hw, Hn.
  destruct (set _ _ packageJson) as [packageJson'|] eqn:Hs; [|discriminate].
  cbn [mbind option_bind] in Hw. injection Hw as <-. injection Hn as <-.
  exists packageJson'. split; [reflexivity|].
  now rewrite Hro, (get_name_set _ _ _ Hs).
Qed.

(** The round of a manifest that an earlier round, with [version], wrote:
    with [version'] it writes what the round of the old manifest writes
    with [version'], and it prints its line when that one does. *)
Lemma attempt_rewritten_again version version' dir text packageJson' :
  (attempt version dir (Some text) = Updated packageJson' \/
   exists message,
     attempt version dir (Some text) = Unreported packageJson' message) ->
  rereads parse stringify version version' text ->
  exists packageJson2 packageJson3,
    stringify packageJson3 +:+ LF = stringify packageJson2 +:+ LF /\
    attempt version' dir (Some text) =
      (if displayable (get "name" packageJson') then Updated packageJson2
       else Unreported packageJson2 "TypeError: No default value") /\
    attempt version' dir (Some (stringify packageJson' +:+ LF)) =
      (if displayable (get "name" packageJson') then Updated packageJson3
       else Unreported packageJson3 "TypeError: No default value").
Proof.
  intros Ha Hrr.
  pose proof (attempt_rewritten _ _ _ _ Ha) as [Hw Hn].
  destruct (Hrr _ Hw) as [Hw' Hn'].
  assert (Hre : read_error disk (packageJsonPath dir) = None)
    by (destruct Ha as [Ha|[m Ha]];
        [now apply attempt_printed in Ha|now apply attempt_not_printed in Ha]).
  apply attempt_wrote in Ha as (He & Hro & text0 & packageJson & [= <-]
                                  & Hp & Hs).
  assert (Hw2 : exists text2,
            rewritten parse stringify version' text = Some text2).
  { unfold rewritten. rewrite Hp. cbn [mbind option_bind].
    destruct packageJson; try discriminate Hs; cbn [set mbind option_bind];
      eauto. }
  destruct Hw2 as [text2 Hw2]. rewrite Hw2 in Hw'. rewrite Hn in Hn'.
  destruct (rewritten_attempt version' dir text text2 _ He Hre Hro Hw2 Hn)
    as (packageJson2 & <- & Ha2).
  destruct (rewritten_attempt version' dir _ _ _ He Hre Hro Hw' Hn')
    as (packageJson3 & H3 & Ha3).
  exists packageJson2, packageJson3. auto.
Qed.

(** A round that failed before it wrote fails in the same way whatever the
    version. *)
Lemma attempt_failed_again v1 v2 dir content message :
  attempt v1 dir content = Failed message ->
  attempt v2 dir content = Failed message.
Proof.
  unfold Propagate.attempt. destruct (excluded dir); [discriminate|].
  destruct (read_error disk _); [auto|].
  destruct content as [text|]; [|auto].
  destruct (parse text) as [packageJson|]; [|auto].
  destruct packageJson; cbn [set]; auto;
    destruct (read_only disk _); auto;
    destruct (displayable _); discriminate.
Qed.

(** ** The whole scripts *)

Lemma update_version_loop version s :
  falsy (Some version) = false -> scan_error disk = None ->
  update_version parse stringify FEATURED_TEMPLATES disk (Some version) s =
  match loop version (dirs disk s) 0%nat s with
  | (s', Returned updated) =>
      ({| files := files s';
          console := console s' ++ [summary_line updated version; next_line];
          written := written s' |}, Returned tt)
  | (s', Thrown message) => (s', Thrown message)
  end.
Proof.
  intros Hf Hs. unfold update_version. rewrite Hf.
  change (default "" (Some version)) with version.
  unfold bind, scan, console_log. rewrite Hs.
  destruct (loop version (dirs disk s) 0%nat s) as [s' [updated|message]];
    [|reflexivity].
  cbn [files console written]. now rewrite <- app_assoc.
Qed.

Lemma update_version_falsy argv2 s :
  falsy argv2 = true ->
  exists message,
    update_version parse stringify FEATURED_TEMPLATES disk argv2 s
    = (s, Thrown message).
Proof. intros Hf. unfold update_version. rewrite Hf. now eexists. Qed.

(** A run either ends before it touched anything, or it has a version and
    the directories to go over. *)
Lemma update_version_cases argv2 s :
  (exists message,
     update_version parse stringify FEATURED_TEMPLATES disk argv2 s
     = (s, Thrown message)) \/
  (exists version,
     argv2 = Some version /\ falsy (Some version) = false /\
     scan_error disk = None).
Proof.
  destruct (falsy argv2) eqn:Hf; [left; now apply update_version_falsy|].
  destruct argv2 as [version|]; [|discriminate].
  destruct (scan_error disk) as [message|] eqn:Hs; [left|right; eauto].
  exists message. unfold update_version. rewrite Hf.
  unfold bind, scan. now rewrite Hs.
Qed.

Lemma update_version_unlisted version s message :
  falsy (Some version) = false -> scan_error disk = Some message ->
  update_version parse stringify FEATURED_TEMPLATES disk (Some version) s
  = (s, Thrown message).
Proof.
  intros Hf Hs. unfold update_version. rewrite Hf.
  unfold bind, scan. now rewrite Hs.
Qed.

Lemma dirs_exists s s' :
  (forall path, is_Some (files s' !! path) <-> is_Some (files s !! path)) ->
  dirs disk s' = dirs disk s.
Proof.
  intros H. unfold dirs. apply filter_ext. intros dir.
  unfold existsSync. f_equal. apply bool_decide_ext, H.
Qed.

Lemma dirs_NoDup s : NoDup (entries disk) -> NoDup (dirs disk s).
Proof.
  rewrite !NoDup_ListNoDup. intros H. unfold dirs.
  now do 2 apply List.NoDup_filter.
Qed.

Lemma dirs_entries s dir : dir ∈ dirs disk s -> dir ∈ entries disk.
Proof.
  rewrite !list_elem_of_In. unfold dirs.
  now intros [[H _]%filter_In _]%filter_In.
Qed.

Lemma update_version_files_loop version s :
  falsy (Some version) = false -> scan_error disk = None ->
  files (update_version parse stringify FEATURED_TEMPLATES disk
           (Some version) s).1
  = files (loop version (dirs disk s) 0%nat s).1.
Proof.
  intros Hf Hs. rewrite (update_version_loop version s Hf Hs).
  now destruct (loop version (dirs disk s) 0%nat s) as [s' [updated|message]].
Qed.

Lemma updated_line_not_summary name updated version :
  updated_line name version <> summary_line updated version.
Proof. unfold updated_line, summary_line, LF. cbn. discriminate. Qed.

Lemma version_file_line_not_summary name count version :
  version_file_line name version <> version_files_summary count.
Proof. unfold version_file_line, version_files_summary, LF. cbn. discriminate. Qed.

(** The loop reads and writes the manifests of its directories only. *)
Lemma loop_congruence version l :
  NoDup l -> forall n n' s s',
  (forall d, d ∈ l ->
     files s !! packageJsonPath d = files s' !! packageJsonPath d) ->
  forall d, d ∈ l ->
    files (loop version l n s).1 !! packageJsonPath d
    = files (loop version l n' s').1 !! packageJsonPath d.
Proof.
  induction 1 as [|d0 l Hd0 Hnd IH]; intros n n' s s' Hsame d Hd.
  { now apply elem_of_nil in Hd. }
  assert (Hnot : forall d', d' ∈ l -> d' <> d0) by (intros d' ? ->; auto).
  assert (Hpath : forall d', d' ∈ l -> excluded d' = false ->
            packageJsonPath d0 <> packageJsonPath d').
  { intros d' Hd' _ Heq%packageJsonPath_inj. subst. contradiction. }
  rewrite !loop_cons, <- (Hsame d0) by now left.
  destruct (attempt version d0 (files s !! packageJsonPath d0))
    as [|packageJson|packageJson message|message].
  - apply elem_of_cons in Hd as [->|Hd].
    + rewrite !loop_other_files by exact Hpath. apply Hsame. now left.
    + apply IH; [|exact Hd]. intros d' Hd'. apply Hsame. now right.
  - apply elem_of_cons in Hd as [->|Hd].
    + rewrite !loop_other_files by exact Hpath.
      cbn [updated_state Propagate.updated_state files].
      now rewrite !lookup_insert_eq.
    + apply IH; [|exact Hd]. intros d' Hd'.
      cbn [updated_state Propagate.updated_state files].
      rewrite !lookup_insert_ne
        by (intros Heq%packageJsonPath_inj; now apply (Hnot d')).
      apply Hsame. now right.
  - cbn [fst unreported_state Propagate.unreported_state files].
    apply elem_of_cons in Hd as [->|Hd].
    + now rewrite !lookup_insert_eq.
    + rewrite !lookup_insert_ne
        by (intros Heq%packageJsonPath_inj; now apply (Hnot d)).
      apply Hsame. now right.
  - apply Hsame. exact Hd.
Qed.

(** Going over the directories with [version'], on the files that a pass
    with [version] left, gives the manifests that going over them with
    [version'] alone gives. *)
Lemma loop_again version version' l :
  NoDup l -> forall n n2 n3 s sa,
  (forall d text,
     d ∈ l -> excluded d = false ->
     files s !! packageJsonPath d = Some text ->
     rereads parse stringify version version' text) ->
  (forall d, d ∈ l ->
     files sa !! packageJsonPath d
     = files (loop version l n s).1 !! packageJsonPath d) ->
  forall d, d ∈ l ->
    files (loop version' l n2 sa).1 !! packageJsonPath d
    = files (loop version' l n3 s).1 !! packageJsonPath d.
Proof.
  induction 1 as [|d0 l Hd0 Hnd IH]; intros n n2 n3 s sa Hrr Hsa d Hd.
  { now apply elem_of_nil in Hd. }
  assert (Hnot : forall d', d' ∈ l -> d' <> d0) by (intros d' ? ->; auto).
  assert (Hpath : forall d', d' ∈ l -> excluded d' = false ->
            packageJsonPath d0 <> packageJsonPath d').
  { intros d' Hd' _ Heq%packageJsonPath_inj. subst. contradiction. }
  assert (Hrest : forall packageJson d',
            d' ∈ l ->
            files (updated_state version d0 packageJson s)
              !! packageJsonPath d'
            = files s !! packageJsonPath d').
  { intros j d' Hd'. cbn [updated_state Propagate.updated_state files].
    apply lookup_insert_ne. intros Heq%packageJsonPath_inj.
    now apply (Hnot d'). }
  rewrite loop_cons in Hsa.
  destruct (attempt version d0 (files s !! packageJsonPath d0))
    as [|packageJson1|packageJson1 message|message] eqn:Ha1.
  - (* a template: no pass touches its manifest *)
    pose proof (attempt_Skipped _ _ _ Ha1) as Hex.
    rewrite !loop_cons, !(attempt_excluded _ _ _ Hex).
    apply elem_of_cons in Hd as [->|Hd].
    + rewrite !loop_other_files by exact Hpath.
      rewrite Hsa by now left. now apply loop_other_files.
    + apply (IH n); [|intros d' Hd'; apply Hsa; now right|exact Hd].
      intros d' text Hd' He' Ht'.
      apply (Hrr d'); [now right|exact He'|exact Ht'].
  - (* rewritten by the first pass, which went on *)
    pose proof Ha1 as (Hex & _ & text & packageJson & Ht & _)%attempt_Updated.
    rewrite Ht in Ha1.
    assert (Hd0a : files sa !! packageJsonPath d0
                   = Some (stringify packageJson1 +:+ LF)).
    { rewrite Hsa by now left. rewrite loop_other_files by exact Hpath.
      cbn [updated_state Propagate.updated_state files].
      apply lookup_insert_eq. }
    destruct (attempt_rewritten_again version version' d0 text packageJson1
                (or_introl Ha1))
      as (packageJson2 & packageJson3 & H3 & Ha2 & Ha3).
    { apply (Hrr d0); [now left|exact Hex|exact Ht]. }
    apply attempt_printed in Ha1 as [_ Hprint]. rewrite Hprint in Ha2, Ha3.
    rewrite !loop_cons, Hd0a, Ht, Ha2, Ha3.
    apply elem_of_cons in Hd as [->|Hd].
    + rewrite !loop_other_files by exact Hpath.
      cbn [updated_state Propagate.updated_state files].
      now rewrite !lookup_insert_eq, H3.
    + etransitivity;
        [apply (IH (S n) (S n2) (S n3)
                  (updated_state version d0 packageJson1 s)); [| |exact Hd]
        |apply (loop_congruence version' l Hnd); [|exact Hd]].
      * intros d' text' Hd' He'. rewrite Hrest by exact Hd'. intros Ht'.
        apply (Hrr d'); [now right|exact He'|exact Ht'].
      * intros d' Hd'.
        cbn [updated_state Propagate.updated_state files].
        rewrite lookup_insert_ne
          by (intros Heq%packageJsonPath_inj; now apply (Hnot d')).
        apply Hsa. now right.
      * intros d' Hd'.
        cbn [updated_state Propagate.updated_state files].
        now rewrite !lookup_insert_ne
          by (intros Heq%packageJsonPath_inj; now apply (Hnot d')).
  - (* rewritten by the first pass, which ended there *)
    pose proof Ha1 as (Hex & _ & text & packageJson & Ht & _)%attempt_Unreported.
    rewrite Ht in Ha1. cbn [fst] in Hsa.
    assert (Hd0a : files sa !! packageJsonPath d0
                   = Some (stringify packageJson1 +:+ LF)).
    { rewrite Hsa by now left.
      cbn [unreported_state Propagate.unreported_state files].
      apply lookup_insert_eq. }
    destruct (attempt_rewritten_again version version' d0 text packageJson1
                (or_intror (ex_intro _ message Ha1)))
      as (packageJson2 & packageJson3 & H3 & Ha2 & Ha3).
    { apply (Hrr d0); [now left|exact Hex|exact Ht]. }
    apply attempt_not_printed in Ha1 as [_ Hprint]. rewrite Hprint in Ha2, Ha3.
    rewrite !loop_cons, Hd0a, Ht, Ha2, Ha3.
    cbn [fst unreported_state Propagate.unreported_state files].
    apply elem_of_cons in Hd as [->|Hd].
    + now rewrite !lookup_insert_eq, H3.
    + rewrite !lookup_insert_ne
        by (intros Heq%packageJsonPath_inj; now apply (Hnot d)).
      rewrite Hsa by now right.
      cbn [unreported_state Propagate.unreported_state files].
      apply lookup_insert_ne.
      intros Heq%packageJsonPath_inj. now apply (Hnot d).
  - (* the first pass failed here, and so does every pass *)
    cbn [fst] in Hsa.
    rewrite !loop_cons, Hsa by now left.
    rewrite (attempt_failed_again version version' _ _ _ Ha1). cbn [fst].
    apply Hsa. exact Hd.
Qed.

(** A run of [update-version.ts] with [version], on the files that an
    earlier run, with whatever argument and however it ended, left, gives
    the files that a run with [version] on the files before the earlier run
    gives, with any [JSON.parse] and [JSON.stringify] that read back what
    the earlier run wrote. *)
Lemma update_version_after argv1 version s :
  NoDup (entries disk) -> falsy (Some version) = false ->
  (forall d text,
     d ∈ dirs disk s -> d ∉ templates ->
     files s !! packageJsonPath d = Some text ->
     rereads parse stringify (default "" argv1) version text) ->
  let first := update_version parse stringify FEATURED_TEMPLATES disk argv1 in
  let second :=
    update_version parse stringify FEATURED_TEMPLATES disk (Some version) in
  files (second (first s).1).1 = files (second s).1.
Proof.
  intros Hnd Hf Hrr first second. subst first second.
  destruct (update_version_cases argv1 s)
    as [[message ->]|(v1 & -> & Hf1 & Hscan)]; [reflexivity|].
  change (default "" (Some v1)) with v1 in Hrr.
  pose proof (update_version_files_loop v1 s Hf1 Hscan) as H1.
  set (s1 := (update_version parse stringify FEATURED_TEMPLATES disk
                (Some v1) s).1) in *.
  rewrite !(update_version_files_loop version _ Hf Hscan).
  assert (Hdirs : dirs disk s1 = dirs disk s).
  { apply dirs_exists. intros path. rewrite H1. apply loop_exists. }
  rewrite Hdirs.
  pose proof (dirs_NoDup s Hnd) as Hl.
  apply map_eq. intros path.
  destruct (decide (path ∈ map packageJsonPath (dirs disk s))) as [Hin|Hout].
  - apply list_elem_of_fmap in Hin as (d & -> & Hd).
    apply (loop_again v1 version _ Hl 0%nat); [| |exact Hd].
    + intros d' text Hd' He' Ht. apply (Hrr d'); [exact Hd'| |exact Ht].
      intros Hin%excluded_true. congruence.
    + intros d' _. now rewrite H1.
  - assert (Hother : forall d, d ∈ dirs disk s -> excluded d = false ->
                       path <> packageJsonPath d).
    { intros d Hd _ ->. apply Hout. now apply list_elem_of_fmap_2. }
    rewrite !loop_other_files by exact Hother.
    rewrite H1. now apply loop_other_files.
Qed.

(** ** The claims about the propagation *)

(** C9.  Whatever the version argument, [update-version.ts] leaves the
    manifest of every template of the registry as it is and never writes
    it.  When the run comes to its end, every other manifest it went over
    is the serialization, with a trailing line feed, of the value that was
    parsed from it with only its [version] changed. *)
Theorem C9_templates_excluded argv2 s dir :
  dir ∈ localTemplates FEATURED_TEMPLATES ->
  let run := update_version parse stringify FEATURED_TEMPLATES disk argv2 in
  let version := default "" argv2 in
  files (run s).1 !! packageJsonPath dir = files s !! packageJsonPath dir /\
  (exists paths,
     written (run s).1 = written s ++ paths /\
     packageJsonPath dir ∉ paths) /\
  (NoDup (entries disk) -> (run s).2 = Returned tt ->
   forall d, d ∈ dirs disk s -> d ∉ localTemplates FEATURED_TEMPLATES ->
     exists text packageJson packageJson',
       files s !! packageJsonPath d = Some text /\
       parse text = Some packageJson /\
       set "version" (JString version) packageJson = Some packageJson' /\
       only_version_changed version packageJson packageJson' /\
       files (run s).1 !! packageJsonPath d
         = Some (stringify packageJson' +:+ LF)).
Proof.
  intros Hdir%excluded_true run version. subst run version.
  destruct (update_version_cases argv2 s)
    as [[message ->]|(version & -> & Hf & Hscan)].
  { cbn [fst snd]. split; [reflexivity|]. split; [|discriminate].
    exists []. rewrite app_nil_r. split; [reflexivity|apply not_elem_of_nil]. }
  change (default "" (Some version)) with version.
  rewrite (update_version_loop version s Hf Hscan).
  destruct (loop_log version (dirs disk s) 0%nat s)
    as (done & last & _ & Hw & Hdone & Hlast & _).
  pose proof (loop_other_files version (dirs disk s) 0%nat s
                (packageJsonPath dir)) as Hfiles.
  pose proof (fun Hnd n' => loop_success version (dirs disk s) 0%nat s n'
                              (dirs_NoDup s Hnd)) as Hok.
  assert (Hpaths : packageJsonPath dir
                   ∉ map (fun dj => packageJsonPath dj.1) done ++ last).
  { intros [Hin|Hin]%elem_of_app.
    - apply list_elem_of_fmap in Hin as (dj & Heq%packageJsonPath_inj & Hin).
      rewrite Forall_forall in Hdone. destruct (Hdone dj Hin) as [_ He].
      congruence.
    - destruct Hlast as [->|(d & m & -> & _ & He & _)].
      + now apply elem_of_nil in Hin.
      + apply list_elem_of_singleton in Hin.
        apply packageJsonPath_inj in Hin. congruence. }
  destruct (loop version (dirs disk s) 0%nat s) as [s' [updated|message]];
    cbn [fst snd files written] in *.
  all: split;
    [apply Hfiles; intros d _ He Heq%packageJsonPath_inj; congruence|].
  all: split; [now exists (map (fun dj => packageJsonPath dj.1) done ++ last)|].
  - intros Hnd _ d Hd Hne.
    destruct (Hok Hnd updated eq_refl d Hd)
      as (text & j & j' & Hc & Hp & Hs & Hf').
    { destruct (excluded d) eqn:He; [|reflexivity].
      now apply excluded_true in He. }
    exists text, j, j'. repeat split; try assumption.
    now apply set_version_changes.
  - discriminate.
Qed.

(** C10 (amended).  Both scripts print one line per file they updated and
    print a count only when they come to their end: a run that fails
    partway ends with an uncaught exception, and its console shows the lines
    of the updates done before, none of which is the line with the count.
    [update-version.ts] prints the line of a manifest after it wrote it, so
    the manifest written last has no line when that line could not be
    made.  The count that [update-version-files.ts] prints at its end is
    the number of version files it knows. *)
Theorem C10_count_only_at_the_end argv2 s :
  let version := default "" argv2 in
  let run := update_version parse stringify FEATURED_TEMPLATES disk argv2 in
  let run_files := update_version_files disk argv2 in
  (exists lines paths,
     written (run s).1 = written s ++ paths /\
     match (run s).2 with
     | Returned _ => length paths = length lines
     | Thrown _ =>
         length paths = length lines \/ length paths = S (length lines)
     end /\
     Forall (fun line => exists name, line = updated_line name version) lines /\
     console (run s).1 =
       console s ++ lines ++
       match (run s).2 with
       | Returned _ => [summary_line (length lines) version; next_line]
       | Thrown _ => []
       end) /\
  (exists lines paths,
     written (run_files s).1 = written s ++ paths /\
     length paths = length lines /\
     Forall (fun line => exists name, line = version_file_line name version)
       lines /\
     console (run_files s).1 =
       console s ++ lines ++
       match (run_files s).2 with
       | Returned _ => [version_files_summary 2]
       | Thrown _ => []
       end) /\
  (forall name updated,
     updated_line name version <> summary_line updated version) /\
  (forall name count,
     version_file_line name version <> version_files_summary count).
Proof.
  intros version run run_files. subst version run run_files.
  split; [|split; [|split]].
  - destruct (update_version_cases argv2 s)
      as [[message ->]|(version & -> & Hf & Hscan)].
    { exists [], []. cbn. rewrite !app_nil_r. repeat split; [now left|].
      constructor. }
    change (default "" (Some version)) with version.
    rewrite (update_version_loop version s Hf Hscan).
    destruct (loop_log version (dirs disk s) 0%nat s)
      as (done & last & Hc & Hw & _ & Hlast & Hn).
    exists (map (fun dj => updated_line (display (get "name" dj.2)) version)
              done),
           (map (fun dj => packageJsonPath dj.1) done ++ last).
    rewrite length_app, !length_map.
    destruct (loop version (dirs disk s) 0%nat s) as [s' [updated|message]];
      cbn [fst snd files written console] in *.
    + destruct (Hn updated eq_refl) as [-> ->]. cbn [Nat.add length].
      split; [assumption|]. split; [lia|].
      split; [|now rewrite Hc, <- app_assoc].
      apply Forall_forall. intros line (dj & -> & _)%list_elem_of_fmap. eauto.
    + rewrite Hc, app_nil_r.
      split; [assumption|]. split.
      { destruct Hlast as [->|(d & m & -> & _)]; cbn [length]; [left|right];
          lia. }
      split; [|reflexivity].
      apply Forall_forall. intros line (dj & -> & _)%list_elem_of_fmap. eauto.
  - unfold update_version_files. destruct (falsy argv2).
    { exists [], []. cbn. rewrite !app_nil_r. repeat split. constructor. }
    unfold packagesWithVersionFiles, bind, writeFileSync, console_log.
    cbn -[version_file_line version_files_summary].
    destruct (read_only disk _).
    { exists [], []. cbn. rewrite !app_nil_r. repeat split. constructor. }
    cbn -[version_file_line version_files_summary].
    destruct (read_only disk _);
      cbn -[version_file_line version_files_summary];
      rewrite <- ?app_assoc.
    + exists [version_file_line "remotion (core)" (default "" argv2)],
             ["packages/core/src/version.ts"].
      repeat split. repeat constructor. eauto.
    + exists [version_file_line "remotion (core)" (default "" argv2);
              version_file_line "@remotion/media-parser" (default "" argv2)],
             ["packages/core/src/version.ts";
              "packages/media-parser/src/version.ts"].
      repeat split. repeat constructor; eauto.
  - intros name updated. apply updated_line_not_summary.
  - intros name count. apply version_file_line_not_summary.
Qed.

(** A second run of [update-version.ts] with the same argument, on the
    files the first run left, leaves every file as it is, whether the first
    run came to its end or not, with any [JSON.parse] and [JSON.stringify]
    that read back the manifests at hand as [rereads] says. *)
Lemma update_version_again argv2 s :
  NoDup (entries disk) ->
  (forall d text,
     d ∈ dirs disk s -> d ∉ localTemplates FEATURED_TEMPLATES ->
     files s !! packageJsonPath d = Some text ->
     rereads parse stringify (default "" argv2) (default "" argv2) text) ->
  let run := update_version parse stringify FEATURED_TEMPLATES disk argv2 in
  files (run (run s).1).1 = files (run s).1.
Proof.
  intros Hnd Hrr run. subst run.
  destruct (update_version_cases argv2 s)
    as [[message Hm]|(version & -> & Hf & Hscan)].
  - rewrite Hm. cbn [fst]. now rewrite Hm.
  - now apply (update_version_after (Some version) version s).
Qed.

End Propagation.


Lemma example_dirs :
  dirs writable_disk example_files = ["cli"; "template-still"; "core"].
Proof. vm_compute. reflexivity. Qed.

(** The first run on the example rewrites the manifest of the CLI. *)
Lemma example_first_run :
  files (update_version parse stringify example_templates writable_disk
           (Some "4.0.2") example_files).1
    !! "packages/cli/package.json"
  = Some (double_quoted
            ("{" +:+ LF +:+
             TAB +:+ "'name': '@remotion/cli'," +:+ LF +:+
             TAB +:+ "'version': '4.0.2'," +:+ LF +:+
             TAB +:+ "'dependencies': {" +:+ LF +:+
             TAB +:+ TAB +:+ "'remotion': 'workspace:*'" +:+ LF +:+
             TAB +:+ "}" +:+ LF +:+
             "}" +:+ LF)).
Proof. vm_compute. reflexivity. Qed.

(** The JSON model reads back what it wrote, whatever the manifest and the
    versions: the second reading gives [null] for the numbers that are not
    finite, which are written as [null] both times, and a name is printed
    or not as before. *)
Lemma model_rereads version version' text :
  rereads parse stringify version version' text.
Proof.
  intros text' Hw. unfold rewritten in Hw.
  destruct (parse text) as [packageJson|] eqn:Hp; [|discriminate].
  cbn [mbind option_bind] in Hw.
  destruct (set "version" (JString version) packageJson)
    as [packageJson'|] eqn:Hs; [|discriminate].
  cbn [mbind option_bind] in Hw. injection Hw as <-.
  pose proof (JSONFacts.parse_set_stringify _ "version" _ _ _
                eq_refl Hp Hs) as Hback.
  unfold rewritten, nameable. rewrite Hback, Hp. cbn [mbind option_bind].
  split.
  - rewrite <- (set_version_set_version _ _ _ _ Hs).
    pose proof (JSONFacts.set_as_written "version" (JString version')
                  packageJson') as Hset.
    pose proof (JSONFacts.set_as_written "version" (JString version')
                  (as_written packageJson')) as Hset'.
    rewrite JSONFacts.as_written_twice, Hset in Hset'.
    destruct (set "version" (JString version') packageJson') as [value|];
      destruct (set "version" (JString version') (as_written packageJson'))
        as [value'|]; try discriminate Hset'; [|reflexivity].
    cbn [fmap option_fmap option_map mbind option_bind] in Hset' |- *.
    injection Hset' as Hset'.
    rewrite <- (JSONFacts.stringify_as_written value'), <- Hset'.
    now rewrite JSONFacts.stringify_as_written.
  - rewrite JSONFacts.get_as_written, JSONFacts.displayable_as_written.
    now rewrite (get_name_set _ _ _ Hs).
Qed.

(** C8.  Running [update-version.ts] a second time with the same argument,
    on the files the first run left, leaves every file as it is, whether
    the first run came to its end or not: the second run reads what the
    first wrote, assigns the same version and writes the same text (the
    listing of [packages] names no directory twice).  This holds of the
    runs with [JSON.parse] and [JSON.stringify] as they are modelled here,
    whatever the manifests hold, and of the runs with any [JSON.parse] and
    [JSON.stringify] that read back the manifests at hand as [rereads]
    says. *)
Theorem C8_propagation_idempotent templates disk argv2 s :
  NoDup (entries disk) ->
  (let run := update_version parse stringify templates disk argv2 in
   files (run (run s).1).1 = files (run s).1) /\
  (forall parse stringify,
     (forall d text,
        d ∈ dirs disk s -> d ∉ localTemplates templates ->
        files s !! packageJsonPath d = Some text ->
        rereads parse stringify (default "" argv2) (default "" argv2) text) ->
     let run := update_version parse stringify templates disk argv2 in
     files (run (run s).1).1 = files (run s).1).
Proof.
  intros Hnd. split.
  - apply update_version_again; [exact Hnd|].
    intros d text _ _ _. apply model_rereads.
  - intros parse' stringify' Hrr. now apply update_version_again.
Qed.

Lemma C8_propagation_idempotent_witness :
  let run := update_version parse stringify example_templates writable_disk
               (Some "4.0.2") in
  files (run (run example_files).1).1 = files (run example_files).1.
Proof.
  refine (proj1 (C8_propagation_idempotent example_templates writable_disk
                   (Some "4.0.2") example_files _)).
  apply (bool_decide_unpack (NoDup (entries writable_disk))).
  vm_compute. exact I.
Defined.

Lemma C9_templates_excluded_witness :
  files (update_version parse stringify example_templates example_disk
           (Some "4.0.2") example_files).1
    !! packageJsonPath "template-still"
  = files example_files !! packageJsonPath "template-still".
Proof.
  refine (proj1 (C9_templates_excluded parse stringify example_templates
                   example_disk (Some "4.0.2") example_files
                   "template-still" _)).
  change (localTemplates example_templates) with ["template-still"].
  constructor.
Defined.

(** C10 as the specification words it fails: the manifest of the second
    package cannot be written, the run ends with an exception after the line
    of the first package, and no count is printed; likewise when the second
    version file cannot be written. *)
Lemma C10_no_count_after_failure :
  ~ reports_count_after_failure
      (update_version parse stringify example_templates example_disk
         (Some "4.0.2")) "4.0.2" example_files /\
  ~ reports_files_count_after_failure
      (update_version_files example_disk (Some "4.0.2")) example_files.
Proof.
  split; intros H.
  - destruct (H "EACCES: permission denied, open 'packages/core/package.json'")
      as [updated Hin]; [vm_compute; reflexivity|].
    assert (Hconsole :
      console (update_version parse stringify example_templates example_disk
                 (Some "4.0.2") example_files).1
      = [updated_line "@remotion/cli" "4.0.2"]) by (vm_compute; reflexivity).
    rewrite Hconsole in Hin. apply list_elem_of_singleton in Hin.
    symmetry in Hin. now apply updated_line_not_summary in Hin.
  - destruct (H "EACCES: permission denied, open 'packages/media-parser/src/version.ts'")
      as [count Hin]; [vm_compute; reflexivity|].
    assert (Hconsole :
      console (update_version_files example_disk (Some "4.0.2")
                 example_files).1
      = [version_file_line "remotion (core)" "4.0.2"])
      by (vm_compute; reflexivity).
    rewrite Hconsole in Hin. apply list_elem_of_singleton in Hin.
    symmetry in Hin. now apply version_file_line_not_summary in Hin.
Qed.

End PropagateFacts.

(* ===================================================================== *)
(** * The runs of the propagation *)
(* ===================================================================== *)

Module PropagateRuns.
Import JsString JSON Propagate PropagateTerms.

#[local] Arguments String.append : simpl nomatch.

Section Rounds.
Variable parse : string -> option json.
Variable stringify : json -> string.
Variable FEATURED_TEMPLATES : list Template.
Variable disk : layout.

Local Abbreviation templates := (localTemplates FEATURED_TEMPLATES).
Local Abbreviation excluded dir := (existsb (String.eqb dir) templates).
Local Abbreviation attempt := (attempt parse FEATURED_TEMPLATES disk).
Local Abbreviation updated_state := (updated_state stringify).
Local Abbreviation unreported_state := (unreported_state stringify).
Local Abbreviation loop version l n :=
  (for_of l n (update_package parse stringify FEATURED_TEMPLATES disk version)).
Local Abbreviation loop_cons :=
  (PropagateFacts.loop_cons parse stringify FEATURED_TEMPLATES disk).

Lemma updated_state_other version d packageJson s d' :
  d' <> d ->
  files (updated_state version d packageJson s) !! packageJsonPath d'
  = files s !! packageJsonPath d'.
Proof.
  intros Hne. cbn [updated_state Propagate.updated_state files].
  apply lookup_insert_ne. intros H.
  apply PropagateFacts.packageJsonPath_inj in H. congruence.
Qed.

(** The rounds of a loop that comes to its end, read on the files it
    started from. *)
Lemma loop_returned_rounds version l :
  NoDup l -> forall n s n',
  (loop version l n s).2 = Returned n' ->
  forall d, d ∈ l -> excluded d = false ->
    exists packageJson',
      attempt version d (files s !! packageJsonPath d) = Updated packageJson' /\
      files (loop version l n s).1 !! packageJsonPath d
        = Some (stringify packageJson' +:+ LF).
Proof.
  induction 1 as [|d0 l Hd0 Hnd IH]; intros n s n' Hret d Hd Hex.
  - now apply elem_of_nil in Hd.
  - rewrite loop_cons in Hret |- *.
    destruct (attempt version d0 (files s !! packageJsonPath d0))
      as [|packageJson|packageJson message|message] eqn:Ha;
      [| |discriminate..].
    + apply elem_of_cons in Hd as [->|Hd].
      * apply PropagateFacts.attempt_Skipped in Ha. congruence.
      * exact (IH _ _ _ Hret d Hd Hex).
    + apply elem_of_cons in Hd as [->|Hd].
      * exists packageJson. split; [exact Ha|].
        rewrite PropagateFacts.loop_other_files.
        -- cbn [updated_state Propagate.updated_state files].
           apply lookup_insert_eq.
        -- intros d' Hd' _ Heq.
           apply PropagateFacts.packageJsonPath_inj in Heq. congruence.
      * destruct (IH _ _ _ Hret d Hd Hex) as (packageJson' & H1 & H2).
        exists packageJson'. split; [|exact H2].
        rewrite <- H1. f_equal. symmetry. apply updated_state_other.
        congruence.
Qed.

(** A loop all of whose rounds, read on the files it starts from, skip the
    package or update it comes to its end. *)
Lemma loop_returns version l :
  NoDup l -> forall n s,
  (forall d,
     d ∈ l ->
     attempt version d (files s !! packageJsonPath d) = Skipped \/
     exists packageJson,
       attempt version d (files s !! packageJsonPath d) = Updated packageJson) ->
  exists n', (loop version l n s).2 = Returned n'.
Proof.
  induction 1 as [|d0 l Hd0 Hnd IH]; intros n s Hall.
  - now exists n.
  - rewrite loop_cons.
    destruct (Hall d0) as [->|[packageJson ->]]; [now left|..].
    + apply IH. intros d Hd. apply Hall. now right.
    + apply IH. intros d Hd. rewrite updated_state_other by congruence.
      apply Hall. now right.
Qed.

(** A loop that throws: the round that threw, read on the files the loop
    started from, and the rounds before it, which all came to their end. *)
Lemma loop_thrown version l :
  NoDup l -> forall n s message,
  (loop version l n s).2 = Thrown message ->
  exists before d after n',
    l = before ++ d :: after /\
    (loop version before n s).2 = Returned n' /\
    (attempt version d (files s !! packageJsonPath d) = Failed message /\
     (loop version l n s).1 = (loop version before n s).1 \/
     exists packageJson,
       attempt version d (files s !! packageJsonPath d)
         = Unreported packageJson message /\
       (loop version l n s).1
         = unreported_state d packageJson (loop version before n s).1).
Proof.
  induction 1 as [|d0 l Hd0 Hnd IH]; intros n s message Hthrown.
  - discriminate.
  - rewrite loop_cons in Hthrown |- *.
    destruct (attempt version d0 (files s !! packageJsonPath d0))
      as [|packageJson|packageJson message'|message'] eqn:Ha.
    + destruct (IH _ _ _ Hthrown) as (before & d & after & n' & -> & H2 & H3).
      exists (d0 :: before), d, after, n'. rewrite loop_cons, Ha. auto.
    + destruct (IH _ _ _ Hthrown) as (before & d & after & n' & -> & H2 & H3).
      exists (d0 :: before), d, after, n'. rewrite loop_cons, Ha.
      split; [reflexivity|]. split; [exact H2|].
      rewrite updated_state_other in H3; [exact H3|].
      intros ->. apply Hd0. apply elem_of_app. right. now left.
    + injection Hthrown as <-. exists [], d0, l, n.
      split; [reflexivity|]. split; [reflexivity|]. right. eauto.
    + injection Hthrown as <-. exists [], d0, l, n. auto.
Qed.

(** What a loop that comes to its end wrote and counted: the manifests of
    the directories that are no templates, in the order of the list. *)
Lemma loop_written version l : forall n s n',
  (loop version l n s).2 = Returned n' ->
  let targets := List.filter (fun d => negb (excluded d)) l in
  n' = (n + length targets)%nat /\
  written (loop version l n s).1 = written s ++ map packageJsonPath targets /\
  exists names,
    length names = length targets /\
    console (loop version l n s).1 =
      console s ++ map (fun name => updated_line name version) names.
Proof.
  induction l as [|d0 l IH]; intros n s n' Hret; cbn zeta.
  - injection Hret as <-. cbn. rewrite !app_nil_r.
    split; [lia|]. split; [reflexivity|]. exists []. now rewrite app_nil_r.
  - rewrite loop_cons in Hret |- *. cbn [List.filter].
    destruct (attempt version d0 (files s !! packageJsonPath d0))
      as [|packageJson|packageJson message|message] eqn:Ha;
      [| |discriminate..].
    + apply PropagateFacts.attempt_Skipped in Ha. rewrite Ha. cbn [negb].
      now apply IH.
    + apply PropagateFacts.attempt_Updated in Ha as (-> & _).
      cbn [negb map length].
      destruct (IH _ _ _ Hret) as (-> & Hw & names & Hl & Hc).
      split; [lia|]. split.
      * rewrite Hw. cbn [updated_state Propagate.updated_state written].
        now rewrite <- app_assoc.
      * exists (display (get "name" packageJson) :: names).
        split; [cbn; lia|]. rewrite Hc.
        cbn [updated_state Propagate.updated_state console map].
        now rewrite <- app_assoc.
Qed.

(** The lines of a loop that comes to its end, read on the files it
    started from. *)
Lemma loop_console version l :
  NoDup l -> forall n s n',
  (loop version l n s).2 = Returned n' ->
  console (loop version l n s).1 =
    console s ++
    map (fun d =>
           updated_line
             (reported_name parse
                (default "" (files s !! packageJsonPath d))) version)
        (List.filter (fun d => negb (excluded d)) l).
Proof.
  induction 1 as [|d0 l Hd0 Hnd IH]; intros n s n' Hret.
  - cbn. now rewrite app_nil_r.
  - rewrite loop_cons in Hret |- *. cbn [List.filter].
    destruct (attempt version d0 (files s !! packageJsonPath d0))
      as [|packageJson'|packageJson' message|message] eqn:Ha;
      [| |discriminate..].
    + apply PropagateFacts.attempt_Skipped in Ha. rewrite Ha. cbn [negb].
      now apply (IH n s n').
    + apply PropagateFacts.attempt_Updated in Ha
        as (-> & _ & text & packageJson & Ht & Hp & Hset).
      cbn [negb map]. rewrite (IH _ _ _ Hret).
      cbn [updated_state Propagate.updated_state console].
      rewrite <- app_assoc. cbn [app]. do 2 f_equal.
      * unfold reported_name. rewrite Ht.
        change (default "" (Some text)) with text. rewrite Hp.
        cbn [mbind option_bind].
        now rewrite (PropagateFacts.get_name_set _ _ _ Hset).
      * apply map_ext_in. intros d Hd. apply filter_In in Hd as [Hd _].
        rewrite updated_state_other; [reflexivity|].
        intros ->. now apply list_elem_of_In in Hd.
Qed.

Lemma set_assignable key x value :
  is_Some (set key x value) <-> assignable value = true.
Proof.
  destruct value; cbn; split; intros H; try discriminate; eauto;
    now destruct H.
Qed.

(** What makes a round update a package that is no template. *)
Lemma attempt_Updated_iff version dir content :
  excluded dir = false ->
  (exists packageJson',
     attempt version dir content = Updated packageJson') <->
  read_error disk (packageJsonPath dir) = None /\
  read_only disk (packageJsonPath dir) = false /\
  exists text packageJson,
    content = Some text /\ parse text = Some packageJson /\
    assignable packageJson = true /\
    displayable (get "name" packageJson) = true.
Proof.
  intros Hex. split.
  - intros [packageJson' Ha].
    pose proof (PropagateFacts.attempt_printed _ _ _ _ _ _ _ Ha)
      as [Hre Hprint].
    apply PropagateFacts.attempt_Updated in Ha
      as (_ & Hro & text & packageJson & Ht & Hp & Hset).
    split; [exact Hre|]. split; [exact Hro|].
    exists text, packageJson. repeat split; try assumption.
    + apply (set_assignable "version" (JString version)). eauto.
    + now rewrite <- (PropagateFacts.get_name_set _ _ _ Hset).
  - intros (Hre & Hro & text & packageJson & -> & Hp & Hassign & Hprint).
    apply (set_assignable "version" (JString version)) in Hassign
      as [packageJson' Hset].
    exists packageJson'. unfold Propagate.attempt.
    rewrite Hex, Hre, Hp, Hset, Hro.
    now rewrite (PropagateFacts.get_name_set _ _ _ Hset), Hprint.
Qed.

Lemma excluded_false d : excluded d = false <-> d ∉ templates.
Proof.
  rewrite <- (PropagateFacts.excluded_true FEATURED_TEMPLATES).
  now destruct (excluded d).
Qed.

Local Abbreviation run argv2 :=
  (update_version parse stringify FEATURED_TEMPLATES disk argv2).

(** X1.  [update-version.ts] creates no file and removes none, and the
    only files whose content it changes are the manifests of the listed
    package directories that are no templates. *)
Theorem update_version_touches_only_manifests argv2 s :
  (forall path,
     is_Some (files (run argv2 s).1 !! path) <-> is_Some (files s !! path)) /\
  (forall path,
     (forall d, d ∈ dirs disk s -> d ∉ templates ->
                path <> packageJsonPath d) ->
     files (run argv2 s).1 !! path = files s !! path).
Proof.
  destruct (PropagateFacts.update_version_cases parse stringify
              FEATURED_TEMPLATES disk argv2 s)
    as [[message ->]|(version & -> & Hf & Hscan)]; [now split|].
  rewrite (PropagateFacts.update_version_files_loop parse stringify
             FEATURED_TEMPLATES disk version s Hf Hscan).
  split; intros path.
  - apply PropagateFacts.loop_exists.
  - intros H. apply PropagateFacts.loop_other_files.
    intros d Hd Hex. apply H; [exact Hd|now apply excluded_false].
Qed.

(** X2.  [update-version.ts] comes to its end exactly when it has a
    version argument, the [packages] directory can be listed, and the
    manifest of every listed package directory that is no template can be
    read, is a JSON text for an object or an array, can be written, and has
    a [name] that can be converted to a string. *)
Theorem update_version_returns_iff argv2 s :
  NoDup (entries disk) ->
  (run argv2 s).2 = Returned tt <->
  falsy argv2 = false /\ scan_error disk = None /\
  forall d, d ∈ dirs disk s -> d ∉ templates ->
    read_error disk (packageJsonPath d) = None /\
    read_only disk (packageJsonPath d) = false /\
    exists text packageJson,
      files s !! packageJsonPath d = Some text /\
      parse text = Some packageJson /\ assignable packageJson = true /\
      displayable (get "name" packageJson) = true.
Proof.
  intros Hnd. destruct (falsy argv2) eqn:Hf.
  { destruct (PropagateFacts.update_version_falsy parse stringify
                FEATURED_TEMPLATES disk argv2 s Hf) as [message ->].
    split; [discriminate|now intros [? _]]. }
  destruct argv2 as [version|]; [|discriminate].
  destruct (scan_error disk) as [message|] eqn:Hscan.
  { rewrite (PropagateFacts.update_version_unlisted parse stringify
               FEATURED_TEMPLATES disk version s message Hf Hscan).
    split; [discriminate|now intros (_ & ? & _)]. }
  rewrite (PropagateFacts.update_version_loop parse stringify
             FEATURED_TEMPLATES disk version s Hf Hscan).
  pose proof (PropagateFacts.dirs_NoDup disk s Hnd) as Hdirs.
  split.
  - intros Hret. split; [reflexivity|]. split; [reflexivity|].
    intros d Hd Hex. apply excluded_false in Hex.
    destruct (loop version (dirs disk s) 0%nat s) as [s' [n'|m]] eqn:Hl;
      [|discriminate].
    assert (Hr : (loop version (dirs disk s) 0%nat s).2 = Returned n')
      by now rewrite Hl.
    destruct (loop_returned_rounds version _ Hdirs 0%nat s n' Hr d Hd Hex)
      as (packageJson' & Ha & _).
    apply (attempt_Updated_iff version d _ Hex). eauto.
  - intros (_ & _ & Hall).
    destruct (loop_returns version _ Hdirs 0%nat s) as [n' Hn'].
    + intros d Hd. destruct (excluded d) eqn:Hex.
      { left. now apply PropagateFacts.attempt_excluded. }
      right. apply (attempt_Updated_iff version d _ Hex).
      apply Hall; [exact Hd|now apply excluded_false].
    + destruct (loop version (dirs disk s) 0%nat s) as [s' [n|m]];
        [reflexivity|discriminate].
Qed.

(** X3.  [update-version.ts] does not undo what it did when it fails in
    its loop: the manifests of the package directories listed before the
    one whose round threw are rewritten with the version, and those of the
    directories listed after it are as they were.  The manifest of the
    directory whose round threw is as it was, unless the round threw when
    it made its line, after it had rewritten the manifest: then the [name]
    of the manifest is one that cannot be converted to a string. *)
Theorem update_version_no_rollback version s message :
  NoDup (entries disk) -> falsy (Some version) = false ->
  scan_error disk = None ->
  (run (Some version) s).2 = Thrown message ->
  exists before d after,
    dirs disk s = before ++ d :: after /\ (d ∉ templates) /\
    (forall d', d' ∈ before -> d' ∉ templates ->
       exists text packageJson packageJson',
         files s !! packageJsonPath d' = Some text /\
         parse text = Some packageJson /\
         set "version" (JString version) packageJson = Some packageJson' /\
         files (run (Some version) s).1 !! packageJsonPath d'
           = Some (stringify packageJson' +:+ LF)) /\
    (files (run (Some version) s).1 !! packageJsonPath d
       = files s !! packageJsonPath d \/
     exists text packageJson packageJson',
       files s !! packageJsonPath d = Some text /\
       parse text = Some packageJson /\
       set "version" (JString version) packageJson = Some packageJson' /\
       displayable (get "name" packageJson) = false /\
       files (run (Some version) s).1 !! packageJsonPath d
         = Some (stringify packageJson' +:+ LF)) /\
    (forall d', d' ∈ after ->
       files (run (Some version) s).1 !! packageJsonPath d'
         = files s !! packageJsonPath d').
Proof.
  intros Hnd Hf Hscan.
  rewrite (PropagateFacts.update_version_files_loop parse stringify
             FEATURED_TEMPLATES disk version s Hf Hscan).
  rewrite (PropagateFacts.update_version_loop parse stringify
             FEATURED_TEMPLATES disk version s Hf Hscan).
  pose proof (PropagateFacts.dirs_NoDup disk s Hnd) as Hdirs.
  destruct (loop version (dirs disk s) 0%nat s) as [s' [n|m]] eqn:Hl;
    [discriminate|].
  intros [= ->].
  destruct (loop_thrown version _ Hdirs 0%nat s message)
    as (before & d & after & n' & Hsplit & Hret & Hround);
    [now rewrite Hl|].
  rewrite Hl in Hround. cbn [fst] in Hround |- *.
  rewrite Hsplit in Hdirs. apply NoDup_app in Hdirs as (Hb & Hdisj & Hda).
  apply NoDup_cons in Hda as [Hd_after _].
  assert (Hbefore : forall d', d' ∈ d :: after ->
            files (loop version before 0%nat s).1 !! packageJsonPath d'
            = files s !! packageJsonPath d').
  { intros d' Hd'. apply PropagateFacts.loop_other_files.
    intros d0 Hd0 _ Heq. apply PropagateFacts.packageJsonPath_inj in Heq.
    subst d0. now apply (Hdisj d'). }
  assert (Hrounds : forall d', d' ∈ before -> d' ∉ templates ->
            exists text packageJson packageJson',
              files s !! packageJsonPath d' = Some text /\
              parse text = Some packageJson /\
              set "version" (JString version) packageJson
                = Some packageJson' /\
              files (loop version before 0%nat s).1 !! packageJsonPath d'
                = Some (stringify packageJson' +:+ LF)).
  { intros d' Hd' Hex'. apply excluded_false in Hex'.
    destruct (loop_returned_rounds version _ Hb 0%nat s n' Hret d' Hd' Hex')
      as (pj' & Ha' & Hfile).
    apply PropagateFacts.attempt_Updated in Ha'
      as (_ & _ & text & pj & Ht & Hp & Hset).
    eauto 8. }
  exists before, d, after. split; [exact Hsplit|].
  destruct Hround as [[Ha ->]|(packageJson' & Ha & ->)].
  - split; [|split; [exact Hrounds|split]].
    + apply excluded_false. destruct (excluded d) eqn:Hex; [|reflexivity].
      now rewrite (PropagateFacts.attempt_excluded parse FEATURED_TEMPLATES
                     disk version d _ Hex) in Ha.
    + left. apply Hbefore. now left.
    + intros d' Hd'. apply Hbefore. now right.
  - pose proof (PropagateFacts.attempt_not_printed _ _ _ _ _ _ _ _ Ha)
      as [_ Hprint].
    apply PropagateFacts.attempt_Unreported in Ha
      as (Hex & _ & text & packageJson & Ht & Hp & Hset).
    cbn [unreported_state Propagate.unreported_state files].
    split; [now apply excluded_false|]. split; [|split].
    + intros d' Hd' Hex'.
      destruct (Hrounds d' Hd' Hex') as (t & pj & pj' & H1 & H2 & H3 & H4).
      exists t, pj, pj'. repeat split; try assumption.
      rewrite lookup_insert_ne; [exact H4|].
      intros Heq%PropagateFacts.packageJsonPath_inj. subst d'.
      apply (Hdisj d Hd'). now left.
    + right. exists text, packageJson, packageJson'.
      repeat split; try assumption.
      * now rewrite <- (PropagateFacts.get_name_set _ _ _ Hset).
      * apply lookup_insert_eq.
    + intros d' Hd'. rewrite lookup_insert_ne.
      * apply Hbefore. now right.
      * intros Heq%PropagateFacts.packageJsonPath_inj. subst d'.
        contradiction.
Qed.

(** X4.  When [update-version.ts] comes to its end, it wrote one manifest
    and printed one line for each listed package directory that is no
    template, in the order of the listing; the line names the package by
    the [name] of its manifest ([undefined] when it has none), and the
    count printed last is the number of these directories. *)
Theorem update_version_count version s :
  NoDup (entries disk) ->
  (run (Some version) s).2 = Returned tt ->
  let targets := List.filter (fun d => negb (excluded d)) (dirs disk s) in
  written (run (Some version) s).1
    = written s ++ map packageJsonPath targets /\
  console (run (Some version) s).1 =
    console s ++
    map (fun d =>
           updated_line
             (reported_name parse
                (default "" (files s !! packageJsonPath d))) version)
        targets ++
    [summary_line (length targets) version; next_line].
Proof.
  intros Hnd.
  destruct (PropagateFacts.update_version_cases parse stringify
              FEATURED_TEMPLATES disk (Some version) s)
    as [[message ->]|(v & [= <-] & Hf & Hscan)]; [discriminate|].
  rewrite (PropagateFacts.update_version_loop parse stringify
             FEATURED_TEMPLATES disk version s Hf Hscan).
  pose proof (PropagateFacts.dirs_NoDup disk s Hnd) as Hdirs.
  destruct (loop version (dirs disk s) 0%nat s) as [s' [n|m]] eqn:Hl;
    [|discriminate].
  intros _ targets.
  assert (Hr : (loop version (dirs disk s) 0%nat s).2 = Returned n)
    by now rewrite Hl.
  destruct (loop_written version (dirs disk s) 0%nat s n Hr)
    as (Hn & Hw & _).
  pose proof (loop_console version _ Hdirs 0%nat s n Hr) as Hc.
  rewrite Hl in Hw, Hc. cbn [fst] in Hw, Hc.
  cbn [fst written console]. split; [exact Hw|].
  rewrite Hc, <- app_assoc. subst n. reflexivity.
Qed.

(** The manifests of a run that came to its end. *)
Lemma returned_manifests version s :
  NoDup (entries disk) ->
  (run (Some version) s).2 = Returned tt ->
  forall d, d ∈ dirs disk s -> d ∉ templates ->
    exists text packageJson packageJson',
      files s !! packageJsonPath d = Some text /\
      parse text = Some packageJson /\
      set "version" (JString version) packageJson = Some packageJson' /\
      files (run (Some version) s).1 !! packageJsonPath d
        = Some (stringify packageJson' +:+ LF).
Proof.
  intros Hnd.
  destruct (PropagateFacts.update_version_cases parse stringify
              FEATURED_TEMPLATES disk (Some version) s)
    as [[message ->]|(v & [= <-] & Hf & Hscan)]; [discriminate|].
  rewrite (PropagateFacts.update_version_files_loop parse stringify
             FEATURED_TEMPLATES disk version s Hf Hscan).
  rewrite (PropagateFacts.update_version_loop parse stringify
             FEATURED_TEMPLATES disk version s Hf Hscan).
  destruct (loop version (dirs disk s) 0%nat s) as [s' [n|m]] eqn:Hl;
    [|discriminate].
  intros _ d Hd Hex.
  assert (Hr : (loop version (dirs disk s) 0%nat s).2 = Returned n)
    by now rewrite Hl.
  destruct (loop_returned_rounds version _
              (PropagateFacts.dirs_NoDup disk s Hnd) 0%nat s n Hr d Hd)
    as (pj' & Ha & Hfile); [now apply excluded_false|].
  apply PropagateFacts.attempt_Updated in Ha
    as (_ & _ & text & pj & Ht & Hp & Hset).
  rewrite Hl in Hfile. eauto 8.
Qed.

End Rounds.

Lemma update_version_returns_iff_witness :
  (update_version parse stringify example_templates writable_disk
     (Some "4.0.2") example_files).2 = Returned tt <->
  falsy (Some "4.0.2") = false /\ scan_error writable_disk = None /\
  forall d, d ∈ dirs writable_disk example_files ->
    d ∉ localTemplates example_templates ->
    read_error writable_disk (packageJsonPath d) = None /\
    read_only writable_disk (packageJsonPath d) = false /\
    exists text packageJson,
      files example_files !! packageJsonPath d = Some text /\
      parse text = Some packageJson /\ assignable packageJson = true /\
      displayable (get "name" packageJson) = true.
Proof.
  apply (update_version_returns_iff parse stringify example_templates
           writable_disk (Some "4.0.2") example_files).
  apply (bool_decide_unpack (NoDup (entries writable_disk))).
  vm_compute. exact I.
Defined.

(** The run on the example whose first manifest has a [name] that cannot
    be converted to a string: the manifest is rewritten, no line is
    printed, and the run ends with a [TypeError]. *)
Lemma example_unnamed_run :
  let r := update_version parse stringify example_templates writable_disk
             (Some "4.0.2") example_unnamed in
  r.2 = Thrown "TypeError: No default value" /\
  console r.1 = [] /\
  written r.1 = ["packages/cli/package.json"] /\
  files r.1 !! "packages/cli/package.json"
  = Some (double_quoted
            ("{" +:+ LF +:+
             TAB +:+ "'name': {" +:+ LF +:+
             TAB +:+ TAB +:+ "'toString': 'cli'" +:+ LF +:+
             TAB +:+ "}," +:+ LF +:+
             TAB +:+ "'version': '4.0.2'" +:+ LF +:+
             "}" +:+ LF)).
Proof. vm_compute. repeat split. Qed.

Lemma update_version_no_rollback_witness :
  exists before d after,
    dirs writable_disk example_unnamed = before ++ d :: after /\
    (d ∉ localTemplates example_templates) /\
    (forall d', d' ∈ before -> d' ∉ localTemplates example_templates ->
       exists text packageJson packageJson',
         files example_unnamed !! packageJsonPath d' = Some text /\
         parse text = Some packageJson /\
         set "version" (JString "4.0.2") packageJson = Some packageJson' /\
         files (update_version parse stringify example_templates writable_disk
                  (Some "4.0.2") example_unnamed).1 !! packageJsonPath d'
           = Some (stringify packageJson' +:+ LF)) /\
    (files (update_version parse stringify example_templates writable_disk
              (Some "4.0.2") example_unnamed).1 !! packageJsonPath d
       = files example_unnamed !! packageJsonPath d \/
     exists text packageJson packageJson',
       files example_unnamed !! packageJsonPath d = Some text /\
       parse text = Some packageJson /\
       set "version" (JString "4.0.2") packageJson = Some packageJson' /\
       displayable (get "name" packageJson) = false /\
       files (update_version parse stringify example_templates writable_disk
                (Some "4.0.2") example_unnamed).1 !! packageJsonPath d
         = Some (stringify packageJson' +:+ LF)) /\
    (forall d', d' ∈ after ->
       files (update_version parse stringify example_templates writable_disk
                (Some "4.0.2") example_unnamed).1 !! packageJsonPath d'
         = files example_unnamed !! packageJsonPath d').
Proof.
  apply (update_version_no_rollback parse stringify example_templates
           writable_disk "4.0.2" example_unnamed
           "TypeError: No default value").
  - apply (bool_decide_unpack (NoDup (entries writable_disk))).
    vm_compute. exact I.
  - reflexivity.
  - reflexivity.
  - vm_compute. reflexivity.
Defined.

Lemma update_version_count_witness :
  let run := update_version parse stringify example_templates writable_disk
               (Some "4.0.2") in
  let targets :=
    List.filter
      (fun d => negb (existsb (String.eqb d)
                        (localTemplates example_templates)))
      (dirs writable_disk example_files) in
  written (run example_files).1
    = written example_files ++ map packageJsonPath targets /\
  console (run example_files).1 =
    console example_files ++
    map (fun d =>
           updated_line
             (reported_name parse
                (default "" (files example_files !! packageJsonPath d)))
             "4.0.2")
        targets ++
    [summary_line (length targets) "4.0.2"; next_line].
Proof.
  apply (update_version_count parse stringify example_templates
           writable_disk "4.0.2" example_files).
  - apply (bool_decide_unpack (NoDup (entries writable_disk))).
    vm_compute. exact I.
  - vm_compute. reflexivity.
Defined.

(** ** [update-version-files.ts] *)

Section VersionFiles.
Variable disk : layout.
Variable version : string.

Local Abbreviation write_all l :=
  (for_of l tt (fun _ pkg =>
     let fullPath := path_join [path pkg] in
     writeFileSync disk fullPath (template pkg) ;;
     console_log (version_file_line (name pkg) version))).

Local Abbreviation written_state := (PropagateTerms.written_state version).

Lemma write_all_cons pkg l s :
  write_all (pkg :: l) s =
  if read_only disk (path pkg)
  then (s, Thrown ("EACCES: permission denied, open '" +:+ path pkg +:+ "'"))
  else write_all l (written_state pkg s).
Proof.
  cbn [for_of]. unfold bind at 1 2, writeFileSync, console_log.
  change (path_join [path pkg]) with (path pkg).
  now destruct (read_only disk (path pkg)).
Qed.

Lemma write_all_other l : forall s other,
  (forall pkg, pkg ∈ l -> other <> path pkg) ->
  files (write_all l s).1 !! other = files s !! other.
Proof.
  induction l as [|pkg l IH]; intros s other Hother; [reflexivity|].
  rewrite write_all_cons. destruct (read_only disk (path pkg)); [reflexivity|].
  rewrite IH by (intros f Hf; apply Hother; now right).
  cbn [PropagateTerms.written_state files]. apply lookup_insert_ne.
  intros H. symmetry in H. revert H. apply Hother. now left.
Qed.

Lemma write_all_returned l :
  NoDup (map path l) ->
  Forall (fun pkg => read_only disk (path pkg) = false) l ->
  forall s,
    (write_all l s).2 = Returned tt /\
    forall pkg, pkg ∈ l ->
      files (write_all l s).1 !! path pkg = Some (template pkg).
Proof.
  induction l as [|pkg l IH]; intros Hnd Hall s.
  - split; [reflexivity|]. intros pkg H. now apply elem_of_nil in H.
  - apply NoDup_cons in Hnd as [Hpkg Hnd].
    apply Forall_cons in Hall as [Hw Hall].
    rewrite write_all_cons, Hw.
    destruct (IH Hnd Hall (written_state pkg s)) as [Hret Hfiles].
    split; [exact Hret|]. intros f [->|Hf]%elem_of_cons; [|now apply Hfiles].
    rewrite write_all_other.
    + cbn [PropagateTerms.written_state files]. apply lookup_insert_eq.
    + intros f Hf Heq. apply Hpkg. rewrite Heq.
      apply list_elem_of_fmap. now exists f.
Qed.

Lemma write_all_thrown before pkg after :
  Forall (fun f => read_only disk (path f) = false) before ->
  read_only disk (path pkg) = true ->
  forall s,
    write_all (before ++ pkg :: after) s =
    ((write_all before s).1,
     Thrown ("EACCES: permission denied, open '" +:+ path pkg +:+ "'")).
Proof.
  induction 1 as [|f before Hf Hall IH]; intros Hro s.
  - cbn [app]. now rewrite write_all_cons, Hro.
  - cbn [app]. rewrite !write_all_cons, Hf. now apply IH.
Qed.

Lemma write_all_again l :
  NoDup (map path l) -> forall s t,
  files t = files (write_all l s).1 ->
  files (write_all l t).1 = files t.
Proof.
  induction l as [|pkg l IH]; intros Hnd s t Ht; [reflexivity|].
  apply NoDup_cons in Hnd as [Hpkg Hnd].
  rewrite write_all_cons in Ht |- *.
  destruct (read_only disk (path pkg)); [reflexivity|].
  assert (Hsame : files (written_state pkg t) = files t).
  { cbn [PropagateTerms.written_state files]. apply insert_id. rewrite Ht.
    rewrite write_all_other.
    - cbn [PropagateTerms.written_state files]. apply lookup_insert_eq.
    - intros f Hf Heq. apply Hpkg. rewrite Heq.
      apply list_elem_of_fmap. now exists f. }
  rewrite <- Hsame. apply (IH Hnd (written_state pkg s)).
  now rewrite Hsame.
Qed.

Lemma write_all_writable l : forall s,
  (write_all l s).2 = Returned tt ->
  Forall (fun pkg => read_only disk (path pkg) = false) l.
Proof.
  induction l as [|pkg l IH]; intros s Hret; [constructor|].
  rewrite write_all_cons in Hret.
  destruct (read_only disk (path pkg)) eqn:Hro; [discriminate|].
  constructor; [exact Hro|now apply (IH _ Hret)].
Qed.

End VersionFiles.

Lemma version_paths_NoDup version :
  NoDup (map path (packagesWithVersionFiles version)).
Proof.
  apply (bool_decide_unpack
           (NoDup (map path (packagesWithVersionFiles version)))).
  vm_compute. exact I.
Qed.

Lemma update_version_files_write_all disk version s :
  falsy (Some version) = false ->
  update_version_files disk (Some version) s =
  match for_of (packagesWithVersionFiles version) tt (fun _ pkg =>
          let fullPath := path_join [path pkg] in
          writeFileSync disk fullPath (template pkg) ;;
          console_log (version_file_line (name pkg) version)) s with
  | (s', Returned _) =>
      ({| files := files s';
          console :=
            console s' ++
            [version_files_summary
               (length (packagesWithVersionFiles version))];
          written := written s' |}, Returned tt)
  | (s', Thrown message) => (s', Thrown message)
  end.
Proof.
  intros Hf. unfold update_version_files. rewrite Hf.
  change (default "" (Some version)) with version. unfold bind at 1.
  now destruct (for_of _ _ _ s) as [s' [[]|message]].
Qed.

(** X7.  With a version argument and both version files writable,
    [update-version-files.ts] comes to its end; whatever the two files held
    before, each now holds its template, which ends with the line that
    exports the argument as [VERSION]; no other file changed. *)
Theorem update_version_files_writes disk version s :
  falsy (Some version) = false ->
  Forall (fun pkg => read_only disk (path pkg) = false)
    (packagesWithVersionFiles version) ->
  let run := update_version_files disk (Some version) in
  (run s).2 = Returned tt /\
  (forall pkg, pkg ∈ packagesWithVersionFiles version ->
     files (run s).1 !! path pkg = Some (template pkg) /\
     exists head,
       template pkg =
       head +:+ "export const VERSION = '" +:+ version +:+ "';" +:+ LF) /\
  (forall other,
     (forall pkg, pkg ∈ packagesWithVersionFiles version ->
                  other <> path pkg) ->
     files (run s).1 !! other = files s !! other).
Proof.
  intros Hf Hw run. subst run.
  rewrite (update_version_files_write_all disk version s Hf).
  destruct (write_all_returned disk version _ (version_paths_NoDup version)
              Hw s) as [Hret Hfiles].
  pose proof (write_all_other disk version
                (packagesWithVersionFiles version) s) as Hother.
  destruct (for_of _ _ _ s) as [s' [[]|message]]; [|discriminate].
  cbn [fst snd files] in *. split; [reflexivity|]. split; [|exact Hother].
  intros pkg Hpkg. split; [now apply Hfiles|].
  unfold packagesWithVersionFiles in Hpkg.
  apply elem_of_cons in Hpkg as [->|Hpkg];
    [|apply list_elem_of_singleton in Hpkg as ->]; cbn [template].
  - exists ("// Automatically generated on publish" +:+ LF +:+ LF +:+
            "/**" +:+ LF +:+
            " * @description Provides the current version number of the Remotion library."
            +:+ LF +:+
            " * @see [Documentation](https://remotion.dev/docs/version)"
            +:+ LF +:+
            " * @returns {string} The current version of the remotion package"
            +:+ LF +:+ " */" +:+ LF).
    reflexivity.
  - exists ("// Automatically generated on publish" +:+ LF). reflexivity.
Qed.

Lemma update_version_files_writes_witness :
  let run := update_version_files writable_disk (Some "4.0.2") in
  (run example_files).2 = Returned tt /\
  (forall pkg, pkg ∈ packagesWithVersionFiles "4.0.2" ->
     files (run example_files).1 !! path pkg = Some (template pkg) /\
     exists head,
       template pkg =
       head +:+ "export const VERSION = '" +:+ "4.0.2" +:+ "';" +:+ LF) /\
  (forall other,
     (forall pkg, pkg ∈ packagesWithVersionFiles "4.0.2" ->
                  other <> path pkg) ->
     files (run example_files).1 !! other = files example_files !! other).
Proof.
  apply (update_version_files_writes writable_disk "4.0.2" example_files).
  - reflexivity.
  - repeat constructor.
Defined.

(** X8.  [update-version-files.ts] does not undo what it did when it
    fails: when a version file cannot be written, the run ends with an
    exception; the version files before it in the list hold their
    templates, and it and the files after it are as they were. *)
Theorem update_version_files_no_rollback disk version s before pkg after :
  falsy (Some version) = false ->
  packagesWithVersionFiles version = before ++ pkg :: after ->
  Forall (fun f => read_only disk (path f) = false) before ->
  read_only disk (path pkg) = true ->
  let run := update_version_files disk (Some version) in
  (exists message, (run s).2 = Thrown message) /\
  (forall f, f ∈ before -> files (run s).1 !! path f = Some (template f)) /\
  (forall f, f ∈ pkg :: after ->
             files (run s).1 !! path f = files s !! path f).
Proof.
  intros Hf Hsplit Hw Hro run. subst run.
  rewrite (update_version_files_write_all disk version s Hf), Hsplit.
  rewrite (write_all_thrown disk version before pkg after Hw Hro s).
  cbn [fst snd]. pose proof (version_paths_NoDup version) as Hnd.
  rewrite Hsplit, map_app in Hnd. apply NoDup_app in Hnd as (Hb & Hdisj & _).
  split; [eauto|]. split.
  - intros f Hin.
    now apply (write_all_returned disk version before Hb Hw s).
  - intros f Hin. apply write_all_other. intros f' Hf' Heq.
    apply (Hdisj (path f')); [apply list_elem_of_fmap; eauto|].
    rewrite <- Heq. change (path f ∈ map path (pkg :: after)).
    apply list_elem_of_fmap. eauto.
Qed.

Lemma update_version_files_no_rollback_witness :
  let run := update_version_files example_disk (Some "4.0.2") in
  (exists message, (run example_files).2 = Thrown message) /\
  (forall f, f ∈ take 1 (packagesWithVersionFiles "4.0.2") ->
     files (run example_files).1 !! path f = Some (template f)) /\
  (forall f, f ∈ drop 1 (packagesWithVersionFiles "4.0.2") ->
     files (run example_files).1 !! path f = files example_files !! path f).
Proof.
  apply (update_version_files_no_rollback example_disk "4.0.2" example_files
           (take 1 (packagesWithVersionFiles "4.0.2"))
           (mkVersionFile "@remotion/media-parser"
              "packages/media-parser/src/version.ts"
              ("// Automatically generated on publish" +:+ LF +:+
               "export const VERSION = '" +:+ "4.0.2" +:+ "';" +:+ LF))
           []).
  - reflexivity.
  - reflexivity.
  - repeat constructor.
  - reflexivity.
Defined.

(** X9.  Running [update-version-files.ts] a second time with the same
    argument leaves every file as the first run left it, whether the runs
    come to their end or not. *)
Theorem update_version_files_idempotent disk argv2 s :
  let run := update_version_files disk argv2 in
  files (run (run s).1).1 = files (run s).1.
Proof.
  intros run. subst run. destruct (falsy argv2) eqn:Hf.
  - unfold update_version_files. rewrite Hf. reflexivity.
  - destruct argv2 as [version|]; [|discriminate].
    assert (Hloop : forall t,
      files (update_version_files disk (Some version) t).1 =
      files (for_of (packagesWithVersionFiles version) tt (fun _ pkg =>
               let fullPath := path_join [path pkg] in
               writeFileSync disk fullPath (template pkg) ;;
               console_log (version_file_line (name pkg) version)) t).1).
    { intros t. rewrite (update_version_files_write_all disk version t Hf).
      now destruct (for_of _ _ _ t) as [t' [[]|message]]. }
    rewrite (Hloop (update_version_files disk (Some version) s).1).
    apply (write_all_again disk version _ (version_paths_NoDup version) s).
    apply Hloop.
Qed.

(** ** One version after another *)

(** X18.  The version of the last run wins: running [update-version.ts]
    with a version on the files that an earlier run, with whatever
    argument and however it ended, left, gives the files that running it
    with that version on the files before the earlier run gives.  This
    holds of the runs with [JSON.parse] and [JSON.stringify] as they are
    modelled here, whatever the manifests hold, and of the runs with any
    [JSON.parse] and [JSON.stringify] that read back the manifests at hand
    as [rereads] says. *)
Theorem update_version_last_wins templates disk argv1 version s :
  NoDup (entries disk) -> falsy (Some version) = false ->
  (let first := update_version parse stringify templates disk argv1 in
   let second :=
     update_version parse stringify templates disk (Some version) in
   files (second (first s).1).1 = files (second s).1) /\
  (forall parse stringify,
     (forall d text,
        d ∈ dirs disk s -> d ∉ localTemplates templates ->
        files s !! packageJsonPath d = Some text ->
        rereads parse stringify (default "" argv1) version text) ->
     let first := update_version parse stringify templates disk argv1 in
     let second :=
       update_version parse stringify templates disk (Some version) in
     files (second (first s).1).1 = files (second s).1).
Proof.
  intros Hnd Hf. split.
  - apply PropagateFacts.update_version_after; [exact Hnd|exact Hf|].
    intros d text _ _ _. apply PropagateFacts.model_rereads.
  - intros parse' stringify' Hrr.
    now apply PropagateFacts.update_version_after.
Qed.

Lemma update_version_last_wins_witness :
  let first := update_version parse stringify example_templates example_disk
                 (Some "4.0.1-rc") in
  let second := update_version parse stringify example_templates example_disk
                  (Some "4.0.2") in
  files (second (first example_files).1).1 = files (second example_files).1.
Proof.
  refine (proj1 (update_version_last_wins example_templates example_disk
                   (Some "4.0.1-rc") "4.0.2" example_files _ _)).
  - apply (bool_decide_unpack (NoDup (entries example_disk))).
    vm_compute. exact I.
  - reflexivity.
Defined.

End PropagateRuns.

(* ===================================================================== *)
(** * What the orchestrator prints and spawns *)
(* ===================================================================== *)

Module ConsoleFacts.
Import JsString Publish Console.

#[local] Arguments String.append : simpl nomatch.

Section Added.
Variable child : nat -> SpawnSyncReturns.

Lemma adds_bind {A B} (m : M A) (f : A -> M B) P Q (R : _ -> _ -> Prop) :
  adds m P -> (forall a, adds (f a) Q) ->
  (forall added code, P added (Exited code) -> R added (Exited code)) ->
  (forall a added1 added2 o,
     P added1 (Returned a) -> Q added2 o -> R (added1 ++ added2) o) ->
  adds (bind m f) R.
Proof.
  intros Hm Hf Hexit Hret p. destruct (Hm p) as (added1 & Ht & HP).
  unfold bind. destruct (m p) as [p1 [a|code]]; cbn [fst snd] in *.
  - destruct (Hf a p1) as (added2 & Ht2 & HQ).
    exists (added1 ++ added2). rewrite Ht2, Ht, app_assoc. eauto.
  - exists added1. auto.
Qed.

Lemma ended_by_error_app added1 added2 code :
  Forall quiet added1 -> ended_by_error added2 code ->
  ended_by_error (added1 ++ added2) code.
Proof.
  intros H1 (-> & init & message & -> & Hinit). split; [reflexivity|].
  exists (added1 ++ init), message. rewrite app_assoc.
  split; [reflexivity|]. now apply Forall_app.
Qed.

Lemma calm_bind {A B} (m : M A) (f : A -> M B) :
  calm m -> (forall a, calm (f a)) -> calm (bind m f).
Proof.
  intros Hm Hf. eapply adds_bind; [exact Hm|exact Hf|auto|].
  intros a added1 added2 [b|code] H1 H2; cbn beta iota in *.
  - now apply Forall_app.
  - now apply ended_by_error_app.
Qed.

Lemma triumphant_bind {A B} version (m : M A) (f : A -> M B) :
  calm m -> (forall a, triumphant version (f a)) ->
  triumphant version (bind m f).
Proof.
  intros Hm Hf. eapply adds_bind; [exact Hm|exact Hf|auto|].
  intros a added1 added2 [b|code] H1 H2; cbn beta iota in *.
  - destruct H2 as (init & tail & -> & Hi & Ht).
    exists (added1 ++ init), tail. rewrite app_assoc.
    split; [reflexivity|]. split; [now apply Forall_app|assumption].
  - now apply ended_by_error_app.
Qed.

Lemma calm_ret {A} (a : A) : calm (ret a).
Proof. intros p. exists []. cbn. rewrite app_nil_r. split; constructor. Qed.

Lemma calm_console_log l : quiet (ConsoleLog l) -> calm (console_log l).
Proof. intros H p. exists [ConsoleLog l]. split; [reflexivity|]. cbn. auto. Qed.

Lemma calm_log emoji message color :
  quiet (ConsoleLog (line emoji message color)) ->
  calm (log emoji message color).
Proof. apply calm_console_log. Qed.

Lemma calm_error {A} message : calm (@error A message).
Proof.
  intros p. exists [error_report message]. split; [reflexivity|].
  cbn. split; [reflexivity|]. exists [], message. split; [reflexivity|constructor].
Qed.

Lemma quiet_blue emoji message :
  quiet (ConsoleLog (line emoji message (blue colors))).
Proof. split; reflexivity. Qed.

Lemma quiet_yellow emoji message :
  quiet (ConsoleLog (line emoji message (yellow colors))).
Proof. split; reflexivity. Qed.

Lemma quiet_spawn c a : quiet (SpawnSync c a).
Proof. split; reflexivity. Qed.

Lemma calm_spawnSync c a : calm (spawnSync child c a).
Proof.
  intros p. exists [SpawnSync c a]. split; [reflexivity|]. cbn.
  repeat constructor.
Qed.

Lemma calm_exec c a d : calm (exec child c a d).
Proof.
  unfold exec. apply calm_bind; [apply calm_log, quiet_blue|]. intros _.
  apply calm_bind; [apply calm_spawnSync|]. intros result.
  apply calm_bind.
  - destruct (result_error result); [apply calm_error|apply calm_ret].
  - intros _. destruct (result_status result) as [status|]; [|apply calm_ret].
    destruct (negb (status =? 0)); [|apply calm_ret].
    destruct (includes "Build" d); [apply calm_log, quiet_yellow|].
    apply calm_error.
Qed.

Lemma calm_for_of {A} (l : list A) (body : A -> M unit) :
  (forall x, calm (body x)) -> calm (for_of l body).
Proof.
  intros Hbody. induction l as [|x l IH]; cbn [for_of].
  - apply calm_ret.
  - apply calm_bind; [apply Hbody|]. intros _. exact IH.
Qed.

Lemma calm_publishPackages : calm (publishPackages child).
Proof.
  unfold publishPackages.
  apply calm_bind; [apply calm_log, quiet_blue|]. intros _.
  apply calm_bind; [|intros _; apply calm_ret].
  apply calm_for_of. intros pkg. apply calm_exec.
Qed.

Lemma calm_tagPackagesAsLatest version packages :
  calm (tagPackagesAsLatest child version packages).
Proof.
  unfold tagPackagesAsLatest.
  apply calm_bind; [apply calm_log, quiet_blue|]. intros _.
  apply calm_bind; [|intros _; apply calm_log; split; reflexivity].
  apply calm_for_of. intros pkg. apply calm_exec.
Qed.

(** The last lines of [main]. *)
Lemma triumphant_end version :
  triumphant version
    (log "✅"
       ("Successfully published all packages to Verdaccio at version "
        +:+ version +:+ "!") (green colors) ;;
     console_log "" ;;
     console_log "Packages are now available at: http://localhost:4873/" ;;
     console_log ("You can install them with: npm install @remotion/cli@"
                  +:+ version +:+ " --registry http://localhost:4873/") ;;
     console_log "").
Proof.
  intros p.
  exists [ConsoleLog (success_line version); ConsoleLog "";
          ConsoleLog "Packages are now available at: http://localhost:4873/";
          ConsoleLog
            ("You can install them with: npm install @remotion/cli@"
             +:+ version +:+ " --registry http://localhost:4873/");
          ConsoleLog ""].
  split.
  - cbv beta iota delta [bind log console_log emit].
    cbn [fst snd trace spawned]. now rewrite <- !app_assoc.
  - cbv beta iota delta [bind log console_log emit]. cbn [fst snd].
    exists [], [ConsoleLog "";
          ConsoleLog "Packages are now available at: http://localhost:4873/";
          ConsoleLog
            ("You can install them with: npm install @remotion/cli@"
             +:+ version +:+ " --registry http://localhost:4873/");
          ConsoleLog ""].
    split; [reflexivity|]. split; [constructor|].
    repeat constructor.
Qed.

Ltac calm_step :=
  lazymatch goal with
  | |- calm (bind _ _) => apply calm_bind; [calm_step|intros ?; calm_step]
  | |- calm (ret _) => apply calm_ret
  | |- calm (console_log _) => apply calm_console_log; split; reflexivity
  | |- calm (log _ _ _) => apply calm_log; split; reflexivity
  | |- calm (exec _ _ _ _) => apply calm_exec
  | |- calm (publishPackages _) => apply calm_publishPackages
  | |- calm (tagPackagesAsLatest _ _ _) => apply calm_tagPackagesAsLatest
  | |- calm (if ?b then _ else _) => destruct b; calm_step
  | |- calm (error _) => apply calm_error
  end.

Ltac triumph :=
  lazymatch goal with
  | |- triumphant _ (bind (log "✅" _ _) _) => apply triumphant_end
  | |- triumphant _ (bind _ _) =>
      apply triumphant_bind; [calm_step|intros ?; triumph]
  end.

Lemma main_triumphant argv2 :
  triumphant (default "" argv2) (main child argv2).
Proof. unfold main. cbv zeta. triumph. Qed.

End Added.

(** ** Every child is announced *)

Lemma announced_app steps t1 t2 :
  announced steps t1 -> announced steps t2 -> announced steps (t1 ++ t2).
Proof.
  induction 1 as [|l t Ht IH|s t Hs Ht IH]; intros H2; cbn [app].
  - exact H2.
  - apply announced_line. auto.
  - apply announced_child; auto.
Qed.

Lemma announced_lookup steps t :
  announced steps t ->
  forall i c a, t !! i = Some (SpawnSync c a) ->
    exists j s, i = S j /\ s ∈ steps /\ c = command s /\ a = args s /\
                t !! j = Some (announcement (description s)).
Proof.
  induction 1 as [|l t Ht IH|s t Hs Ht IH]; intros i c a Hi.
  - discriminate.
  - destruct i as [|i]; [discriminate|]. cbn in Hi.
    destruct (IH _ _ _ Hi) as (j & s & -> & Hs & -> & -> & Hj).
    exists (S j), s. auto 6.
  - destruct i as [|[|i]]; [discriminate| |]; cbn in Hi.
    + injection Hi as <- <-. exists 0%nat, s. auto 6.
    + destruct (IH _ _ _ Hi) as (j & s' & -> & Hs' & -> & -> & Hj).
      exists (S (S j)), s'. auto 6.
Qed.

Section Announced.
Variable child : nat -> SpawnSyncReturns.
Variable steps : list step.

Lemma orderly_bind {A B} (m : M A) (f : A -> M B) R1 R2 :
  orderly steps m R1 -> (forall a, R1 a -> orderly steps (f a) R2) ->
  orderly steps (bind m f) R2.
Proof.
  intros Hm Hf p. destruct (Hm p) as (added1 & Ht & Ha & HR).
  unfold bind. destruct (m p) as [p1 [a|code]]; cbn [fst snd] in *.
  - destruct (Hf a (HR a eq_refl) p1) as (added2 & Ht2 & Ha2 & HR2).
    exists (added1 ++ added2). rewrite Ht2, Ht, app_assoc.
    split; [reflexivity|]. split; [now apply announced_app|assumption].
  - exists added1. split; [assumption|]. split; [assumption|discriminate].
Qed.

Lemma orderly_ret {A} (a : A) : orderly steps (ret a) (fun x => x = a).
Proof.
  intros p. exists []. cbn. rewrite app_nil_r.
  split; [reflexivity|]. split; [constructor|]. now intros ? [= <-].
Qed.

Lemma orderly_console_log l : orderly steps (console_log l) (fun _ => True).
Proof.
  intros p. exists [ConsoleLog l]. split; [reflexivity|].
  split; [repeat constructor|auto].
Qed.

Lemma orderly_log emoji message color :
  orderly steps (log emoji message color) (fun _ => True).
Proof. apply orderly_console_log. Qed.

Lemma orderly_error {A} message (R : A -> Prop) :
  orderly steps (error message) R.
Proof.
  intros p. exists [error_report message]. split; [reflexivity|].
  split; [repeat constructor|discriminate].
Qed.

Lemma orderly_exec c a d :
  mkStep c a d ∈ steps -> orderly steps (exec child c a d) (fun _ => True).
Proof.
  intros Hs p.
  assert (Hpair : forall t, announced steps t ->
            announced steps (announcement d :: SpawnSync c a :: t))
    by (intros t; exact (announced_child steps (mkStep c a d) t Hs)).
  cbv beta iota delta
    [exec bind log console_log emit spawnSync error process_exit ret].
  cbn [fst snd trace spawned].
  destruct (child (spawned p)) as [[message|] [status|]];
    cbn [result_error result_status fst snd trace spawned];
    try destruct (Z.eqb_spec status 0); cbn [negb];
    try destruct (includes "Build" d);
    cbv beta iota; cbn [fst snd trace spawned];
    rewrite <- ?app_assoc; cbn [app];
    (eexists; split; [reflexivity|]);
    (split; [apply Hpair; repeat constructor|]); auto; discriminate.
Qed.

Lemma orderly_for_of {A} (l : list A) (body : A -> M unit) :
  (forall x, x ∈ l -> orderly steps (body x) (fun _ => True)) ->
  orderly steps (for_of l body) (fun _ => True).
Proof.
  induction l as [|x l IH]; intros Hbody; cbn [for_of].
  - intros p. exists []. cbn. rewrite app_nil_r.
    split; [reflexivity|]. split; [constructor|auto].
  - eapply orderly_bind; [apply Hbody; now left|]. intros _ _.
    apply IH. intros y Hy. apply Hbody. now right.
Qed.

End Announced.

Lemma plan_preparation version s :
  s ∈ [bump_step version; version_files_step version; install_step;
       build_step] -> s ∈ plan version.
Proof. intros H. unfold plan. apply elem_of_app. now left. Qed.

Lemma plan_publish_step version pkg :
  pkg ∈ publishOrder -> publish_step pkg ∈ plan version.
Proof.
  intros H. unfold plan. apply elem_of_app. right.
  apply elem_of_app. left. now apply list_elem_of_fmap_2.
Qed.

Lemma plan_tag_step version pkg :
  pkg ∈ publishOrder -> tag_step version pkg ∈ plan version.
Proof.
  intros H. unfold plan. apply elem_of_app. right.
  apply elem_of_app. right. now apply list_elem_of_fmap_2.
Qed.

Lemma main_orderly child argv2 :
  orderly (plan (default "" argv2)) (main child argv2) (fun _ => True).
Proof.
  set (version := default "" argv2).
  assert (Hexec : forall s, s ∈ [bump_step version; version_files_step version;
                                 install_step; build_step] ->
            orderly (plan version)
              (exec child (command s) (args s) (description s))
              (fun _ => True)).
  { intros [c a d] Hs. apply orderly_exec. now apply plan_preparation. }
  assert (Hpublish : orderly (plan version) (publishPackages child)
                       (fun published => published = publishOrder)).
  { unfold publishPackages.
    eapply orderly_bind; [apply orderly_log|]. intros _ _.
    eapply orderly_bind; [|intros _ _; apply orderly_ret].
    apply orderly_for_of. intros pkg Hpkg. apply orderly_exec.
    now apply plan_publish_step. }
  assert (Htag : orderly (plan version)
                   (tagPackagesAsLatest child version publishOrder)
                   (fun _ => True)).
  { unfold tagPackagesAsLatest.
    eapply orderly_bind; [apply orderly_log|]. intros _ _.
    eapply orderly_bind; [|intros _ _; apply orderly_log].
    apply orderly_for_of. intros pkg Hpkg. apply orderly_exec.
    now apply plan_tag_step. }
  unfold main. cbv zeta. fold version.
  eapply orderly_bind;
    [destruct (falsy argv2); [apply orderly_error|apply orderly_ret]|].
  intros _ _.
  eapply orderly_bind;
    [destruct (negb _); [apply orderly_error|apply orderly_ret]|].
  intros _ _.
  repeat lazymatch goal with
  | |- orderly _ (bind (console_log _) _) _ =>
      eapply orderly_bind; [apply orderly_console_log|intros _ _]
  | |- orderly _ (bind (log _ _ _) _) _ =>
      eapply orderly_bind; [apply orderly_log|intros _ _]
  | |- orderly _ (bind (exec _ "bun" ["update-version.ts"; _] _) _) _ =>
      eapply orderly_bind;
      [apply (Hexec (bump_step version)); set_solver|intros _ _]
  | |- orderly _ (bind (exec _ "bun" ["update-version-files.ts"; _] _) _) _ =>
      eapply orderly_bind;
      [apply (Hexec (version_files_step version)); set_solver|intros _ _]
  | |- orderly _ (bind (exec _ "bun" ["install"] _) _) _ =>
      eapply orderly_bind; [apply (Hexec install_step); set_solver|intros _ _]
  | |- orderly _ (bind (exec _ "bun" ["run"; "build"] _) _) _ =>
      eapply orderly_bind; [apply (Hexec build_step); set_solver|intros _ _]
  | |- orderly _ (bind (publishPackages _) _) _ =>
      eapply orderly_bind; [apply Hpublish|intros ? ->]
  | |- orderly _ (bind (tagPackagesAsLatest _ _ _) _) _ =>
      eapply orderly_bind; [apply Htag|intros _ _]
  end.
  apply orderly_console_log.
Qed.

(** X10.  Every child is announced: whatever a run spawns, it spawns
    right after the line in which [exec] announces the step with its
    description, and the command and its arguments are those of a step of
    the plan. *)
Theorem every_child_announced child argv2 i c a :
  trace (run child argv2).1 !! i = Some (SpawnSync c a) ->
  exists j s,
    i = S j /\ s ∈ plan (default "" argv2) /\
    c = command s /\ a = args s /\
    trace (run child argv2).1 !! j = Some (announcement (description s)).
Proof.
  destruct (main_orderly child argv2 start) as (added & Ht & Ha & _).
  assert (Hrun : trace (run child argv2).1 = added).
  { unfold run. now destruct (main child argv2 start) as [p [[]|code]]. }
  rewrite Hrun. now apply announced_lookup.
Qed.

Lemma every_child_announced_witness :
  exists j s,
    5%nat = S j /\ s ∈ plan (default "" (Some "4.0.428")) /\
    "bun" = command s /\ ["update-version.ts"; "4.0.428"] = args s /\
    trace (run (fun _ => ok) (Some "4.0.428")).1 !! j
      = Some (announcement (description s)).
Proof.
  apply (every_child_announced (fun _ => ok) (Some "4.0.428") 5
           "bun" ["update-version.ts"; "4.0.428"]).
  vm_compute. reflexivity.
Defined.

Lemma quiet_not_success version e :
  quiet e -> e <> ConsoleLog (success_line version).
Proof. intros [_ H] ->. discriminate H. Qed.

Lemma ended_by_error_silent version added code :
  ended_by_error added code ->
  ConsoleLog (success_line version) ∉ added.
Proof.
  intros (_ & init & message & -> & Hinit) [Hin|Hin]%elem_of_app.
  - rewrite Forall_forall in Hinit.
    now apply (quiet_not_success version _ (Hinit _ Hin)).
  - apply list_elem_of_singleton in Hin. discriminate Hin.
Qed.

(** X11.  The run prints the line that reports the success of the release
    exactly when it ends with exit code 0. *)
Theorem success_reported_iff child argv2 :
  ConsoleLog (success_line (default "" argv2)) ∈ trace (run child argv2).1
  <-> (run child argv2).2 = 0.
Proof.
  destruct (main_triumphant child argv2 start) as (added & Ht & HP).
  unfold run. destruct (main child argv2 start) as [p [[]|code]];
    cbn [fst snd trace start app] in *; rewrite Ht.
  - destruct HP as (init & tail & -> & _). split; [reflexivity|]. intros _.
    apply elem_of_app. right. now left.
  - split.
    + intros Hin. now apply (ended_by_error_silent _ _ _ HP) in Hin.
    + destruct HP as [-> _]. discriminate.
Qed.

(** X12.  An error report is the last thing a run does: a run that ends
    with exit code 1 printed an error report last and nothing that starts
    like one before, and a run that ends with exit code 0 printed
    nothing that starts like one. *)
Theorem error_report_is_last child argv2 :
  let t := trace (run child argv2).1 in
  ((run child argv2).2 = 1 ->
   exists init message,
     t = init ++ [error_report message] /\
     Forall (fun e => is_error e = false) init) /\
  ((run child argv2).2 = 0 -> Forall (fun e => is_error e = false) t).
Proof.
  destruct (main_triumphant child argv2 start) as (added & Ht & HP).
  unfold run. destruct (main child argv2 start) as [p [[]|code]];
    cbn [fst snd trace start app] in *; rewrite Ht.
  - split; [discriminate|]. intros _.
    destruct HP as (init & tail & -> & Hi & Htail).
    apply Forall_app. split; [|constructor; [reflexivity|]];
      eapply Forall_impl; eauto; now intros e [He _].
  - destruct HP as (-> & init & message & -> & Hinit).
    split; [|discriminate]. intros _. exists init, message.
    split; [reflexivity|]. eapply Forall_impl; eauto. now intros e [He _].
Qed.


(** ** The commands of a run *)

Lemma spawn_in_commands t c a :
  SpawnSync c a ∈ t -> (c, a) ∈ commands (digest t).
Proof.
  intros H. apply list_elem_of_omap. exists (Spawned c a).
  split; [|reflexivity]. apply list_elem_of_omap. now exists (SpawnSync c a).
Qed.

Lemma run_commands child argv2 :
  exists n,
    commands (digest (trace (run child argv2).1))
    = map call (take n (plan (default "" argv2))).
Proof.
  destruct (falsy argv2) eqn:Hf;
    [|destruct (Regex.test version_format (default "" argv2)) eqn:Ht].
  - destruct (PublishFacts.run_rejected child argv2) as [message ->];
      [now left|]. now exists 0%nat.
  - destruct argv2 as [v|]; [|discriminate]. cbn [default] in *.
    apply PublishFacts.test_version_format in Ht.
    destruct (PublishFacts.run_accepted child v Ht) as [-> _].
    rewrite PublishFacts.commands_marks. eauto.
  - destruct (PublishFacts.run_rejected child argv2) as [message ->];
      [now right|]. now exists 0%nat.
Qed.

Lemma run_spawns_accepted child argv2 c a :
  SpawnSync c a ∈ trace (run child argv2).1 ->
  exists v, argv2 = Some v /\ pinned_version v.
Proof.
  destruct (falsy argv2) eqn:Hf;
    [|destruct (Regex.test version_format (default "" argv2)) eqn:Ht].
  - destruct (PublishFacts.run_rejected child argv2) as [message ->];
      [now left|].
    cbn [fst trace]. intros H. apply list_elem_of_singleton in H. discriminate.
  - destruct argv2 as [v|]; [|discriminate]. intros _. exists v.
    split; [reflexivity|]. now apply PublishFacts.test_version_format.
  - destruct (PublishFacts.run_rejected child argv2) as [message ->];
      [now right|].
    cbn [fst trace]. intros H. apply list_elem_of_singleton in H. discriminate.
Qed.

Lemma plan_calls version c :
  c ∈ map call (plan version) ->
  c ∈ map call [bump_step version; version_files_step version;
                install_step; build_step] \/
  (exists pkg, pkg ∈ publishOrder /\ c = call (publish_step pkg)) \/
  (exists pkg, pkg ∈ publishOrder /\ c = call (tag_step version pkg)).
Proof.
  unfold plan. rewrite !map_app.
  intros [H|[H|H]%elem_of_app]%elem_of_app; [now left|right; left|right; right];
    apply list_elem_of_fmap in H as (s & -> & Hs);
    apply list_elem_of_fmap in Hs as (pkg & -> & Hpkg); eauto.
Qed.

(** *** Words *)

Lemma plain_chars_app a b :
  plain_chars (a +:+ b) = plain_chars a && plain_chars b.
Proof.
  unfold plain_chars. induction a as [|c a IH]; [reflexivity|].
  cbn [String.append list_ascii_of_string forallb]. now rewrite IH, andb_assoc.
Qed.

Lemma word_app a b : word a = true -> plain_chars b = true -> word (a +:+ b) = true.
Proof.
  unfold word. intros [Ha Hp]%andb_prop Hb. rewrite plain_chars_app, Hp, Hb.
  destruct a; [discriminate|reflexivity].
Qed.

Lemma all_digits_plain s : all_digits s = true -> plain_chars s = true.
Proof.
  unfold all_digits, plain_chars. rewrite !forallb_forall.
  intros H c Hc. specialize (H c Hc). unfold plain_char.
  unfold Regex.is_digit in H. now rewrite H.
Qed.

Lemma pinned_version_word v : pinned_version v -> word v = true.
Proof.
  intros (patch & -> & _ & Hd). apply (word_app "4.0."); [reflexivity|].
  now apply all_digits_plain.
Qed.

Lemma publishOrder_words : forall pkg, pkg ∈ publishOrder -> word pkg = true.
Proof.
  intros pkg Hpkg. apply list_elem_of_In in Hpkg. revert pkg Hpkg.
  apply forallb_forall. vm_compute. reflexivity.
Qed.

Lemma packageName_word pkg : word pkg = true -> word (packageName pkg) = true.
Proof.
  intros H. unfold packageName. destruct (String.eqb pkg "core");
    [reflexivity|].
  apply (word_app "@remotion/"); [reflexivity|].
  unfold word in H. now apply andb_prop in H.
Qed.

(** X13.  Whatever a run hands to [spawnSync], the command and each of its
    arguments, is a non-empty word of letters, digits and the characters
    [-._/:@]: nothing in it that the shell [spawnSync] starts the command
    in would split or expand, whatever the argument of the script. *)
Theorem spawned_words_are_plain child argv2 c a :
  SpawnSync c a ∈ trace (run child argv2).1 ->
  word c = true /\ forallb word a = true.
Proof.
  intros Hin. destruct (run_spawns_accepted _ _ _ _ Hin) as (v & -> & Hv).
  apply spawn_in_commands in Hin.
  destruct (run_commands child (Some v)) as [n Hn]. rewrite Hn in Hin.
  cbn [default] in Hin.
  assert (Hplan : (c, a) ∈ map call (plan v)).
  { apply list_elem_of_fmap in Hin as (s & -> & Hs).
    apply list_elem_of_fmap_2. revert Hs. apply subseteq_take. }
  pose proof (pinned_version_word v Hv) as Hw.
  apply plan_calls in Hplan as [H|[(pkg & Hpkg & H)|(pkg & Hpkg & H)]].
  - cbn [map call command args bump_step version_files_step install_step
         build_step] in H.
    repeat (apply elem_of_cons in H as [[= -> ->]|H]);
      [..|now apply elem_of_nil in H];
      cbn [forallb]; rewrite ?Hw; split; reflexivity.
  - injection H as -> ->. cbn [forallb].
    rewrite (publishOrder_words pkg Hpkg). split; reflexivity.
  - injection H as -> ->. cbn [forallb].
    rewrite (word_app (packageName pkg) (String "@" v)).
    + split; reflexivity.
    + apply packageName_word, publishOrder_words, Hpkg.
    + change (plain_chars ("@" +:+ v) = true).
      rewrite (plain_chars_app "@" v). unfold word in Hw.
      apply andb_prop in Hw as [_ ->]. reflexivity.
Qed.

Lemma spawned_words_are_plain_witness :
  word "bun" = true /\
  forallb word ["update-version.ts"; "4.0.428"] = true.
Proof.
  apply (spawned_words_are_plain (fun _ => ok) (Some "4.0.428")).
  apply list_elem_of_lookup. exists 5%nat. vm_compute. reflexivity.
Defined.

(** *** No command twice *)

Lemma packageName_inj p q : packageName p = packageName q -> p = q.
Proof.
  unfold packageName.
  destruct (String.eqb_spec p "core") as [->|Hp],
           (String.eqb_spec q "core") as [->|Hq]; try discriminate.
  - reflexivity.
  - intros H. now apply (inj (String.append "@remotion/")) in H.
Qed.

Lemma plan_calls_NoDup version : NoDup (map call (plan version)).
Proof.
  unfold plan. rewrite !map_app. apply NoDup_app. split; [|split].
  - cbn [map call command args bump_step version_files_step install_step
         build_step].
    repeat (apply NoDup_cons; split;
            [intros H; repeat (apply elem_of_cons in H as [[=]|H]);
             now apply elem_of_nil in H|]).
    apply NoDup_nil_2.
  - intros c Hc [H|H]%elem_of_app;
      apply list_elem_of_fmap in H as (s & -> & Hs);
      apply list_elem_of_fmap in Hs as (pkg & -> & Hpkg);
      cbn [map call command args bump_step version_files_step install_step
           build_step publish_step tag_step] in Hc;
      repeat (apply elem_of_cons in Hc as [[=]|Hc]);
      now apply elem_of_nil in Hc.
  - apply NoDup_app. split; [|split].
    + rewrite <- list_fmap_compose.
      apply (NoDup_fmap_2_strong _); [|apply PublishFacts.publishOrder_NoDup].
      now intros p q _ _ [=].
    + intros c Hc H.
      apply list_elem_of_fmap in Hc as (s & -> & Hs).
      apply list_elem_of_fmap in Hs as (pkg & -> & Hpkg).
      apply list_elem_of_fmap in H as (s & Heq & Hs).
      apply list_elem_of_fmap in Hs as (pkg' & -> & Hpkg').
      discriminate Heq.
    + rewrite <- list_fmap_compose.
      apply (NoDup_fmap_2_strong _); [|apply PublishFacts.publishOrder_NoDup].
      intros p q _ _ [= H]. apply packageName_inj.
      now apply PropagateFacts.append_cancel_r in H.
Qed.

(** X14.  No run spawns the same command with the same arguments twice:
    every package is published at most once and tagged at most once, under
    a name that no other package is tagged under. *)
Theorem no_command_twice child argv2 :
  NoDup (commands (digest (trace (run child argv2).1))).
Proof.
  destruct (run_commands child argv2) as [n ->].
  change (NoDup (call <$> take n (plan (default "" argv2)))).
  rewrite fmap_take.
  eapply sublist_NoDup; [apply plan_calls_NoDup|apply sublist_take].
Qed.
(** ** The report of a failure *)

Lemma children_app t1 t2 : children (t1 ++ t2) = (children t1 + children t2)%nat.
Proof.
  induction t1 as [|[l|c a] t1 IH]; cbn [app children]; [reflexivity|auto|].
  now rewrite IH.
Qed.

Section Explained.
Variable child : nat -> SpawnSyncReturns.

Lemma explains_bind {A B} (m : M A) (f : A -> M B) :
  explains child m -> (forall a, explains child (f a)) ->
  explains child (bind m f).
Proof.
  intros Hm Hf p Hp. destruct (Hm p Hp) as [Hc He]. unfold bind.
  destruct (m p) as [p1 [a|code]]; cbn [fst snd] in *.
  - now apply Hf.
  - split; [assumption|]. intros code' [= <-]. now apply (He code).
Qed.

Lemma explains_ret {A} (a : A) : explains child (ret a).
Proof. intros p Hp. split; [exact Hp|discriminate]. Qed.

Lemma explains_console_log l : explains child (console_log l).
Proof.
  intros p Hp. split; [|discriminate].
  unfold counted in *. cbn. rewrite children_app. cbn. lia.
Qed.

Lemma explains_log emoji message color :
  explains child (log emoji message color).
Proof. apply explains_console_log. Qed.

Lemma explains_exec c a d : explains child (exec child c a d).
Proof.
  intros p Hp. unfold counted in *.
  cbv beta iota delta
    [exec bind log console_log emit spawnSync error process_exit ret].
  cbn [fst snd trace spawned].
  unfold explained, failure_message, classify.
  destruct (child (spawned p)) as [[message|] [status|]] eqn:Hr;
    cbn [result_error result_status fst snd trace spawned];
    try destruct (Z.eqb_spec status 0); cbn [negb];
    try destruct (includes "Build" d) eqn:Hb;
    cbv beta iota; cbn [fst snd trace spawned];
    (split;
     [rewrite ?children_app; cbn [children announcement]; lia
     |try discriminate]);
    intros code _; exists (trace p), d, c, a; rewrite <- Hp, Hr;
    cbn [result_error result_status]; rewrite <- ?app_assoc;
    (split; [reflexivity|]);
    rewrite ?Hb; try reflexivity;
    now destruct (Z.eqb_spec status 0).
Qed.

Lemma explains_for_of {A} (l : list A) (body : A -> M unit) :
  (forall x, explains child (body x)) -> explains child (for_of l body).
Proof.
  intros Hbody. induction l as [|x l IH]; cbn [for_of].
  - apply explains_ret.
  - apply explains_bind; [apply Hbody|]. intros _. exact IH.
Qed.

Ltac explain :=
  lazymatch goal with
  | |- explains _ (bind _ _) =>
      apply explains_bind; [explain|intros ?; explain]
  | |- explains _ (ret _) => apply explains_ret
  | |- explains _ (console_log _) => apply explains_console_log
  | |- explains _ (log _ _ _) => apply explains_log
  | |- explains _ (exec _ _ _ _) => apply explains_exec
  | |- explains _ (for_of _ _) =>
      apply explains_for_of; intros ?; apply explains_exec
  | |- explains _ (publishPackages _) => unfold publishPackages; explain
  | |- explains _ (tagPackagesAsLatest _ _ _) =>
      unfold tagPackagesAsLatest; explain
  end.

Lemma main_explains v :
  pinned_version v -> explains child (main child (Some v)).
Proof.
  intros Hv. unfold main.
  rewrite (PublishFacts.pinned_version_nonempty v Hv).
  apply PublishFacts.test_version_format in Hv.
  change (default "" (Some v)) with v. rewrite Hv. cbn [negb].
  explain.
Qed.

End Explained.

Lemma announcement_inj d d' : announcement d = announcement d' -> d = d'.
Proof.
  unfold announcement, line. intros [= H].
  apply PropagateFacts.append_cancel_r in H.
  now apply PropagateFacts.append_cancel_r in H.
Qed.

(** X17.  When a step fails, the last thing the run prints tells which:
    a run that got an accepted version and ends with exit code 1 ends with
    the announcement of a step of the plan, the child of this step, and the
    error report [Failed to <description> (exit code <n>)] with the exit
    code of this very child, or [Failed to <description>: <message>] when
    the child could not be started. *)
Theorem failure_is_explained child v :
  pinned_version v -> (run child (Some v)).2 = 1 ->
  exists init s,
    s ∈ plan v /\
    trace (run child (Some v)).1 =
      init ++ [announcement (description s);
               SpawnSync (command s) (args s);
               error_report
                 (failure_message (description s) (child (children init)))] /\
    classify (description s) (child (children init)) = Fatal.
Proof.
  intros Hv Hexit.
  destruct (main_explains child v Hv start eq_refl) as [_ He].
  destruct (main_orderly child (Some v) start)
    as (added & Ht & Ha & _).
  assert (Hrun : trace (run child (Some v)).1
                 = trace (main child (Some v) start).1)
    by (unfold run; now destruct (main child (Some v) start) as [p [[]|code]]).
  assert (Hcode : exists code, (main child (Some v) start).2 = Exited code).
  { unfold run in Hexit.
    destruct (main child (Some v) start) as [p [[]|code]];
      [discriminate Hexit|eauto]. }
  destruct Hcode as [code Hcode].
  destruct (He code Hcode) as (init & d & c & a & Htrace & Hfatal).
  rewrite Hrun, Htrace. cbn [trace start app] in Ht.
  rewrite Htrace in Ht. subst added.
  destruct (announced_lookup _ _ Ha (S (length init)) c a)
    as (j & s & [= <-] & Hs & -> & -> & Hj).
  { rewrite lookup_app_r by lia.
    now replace (S (length init) - length init)%nat with 1%nat by lia. }
  rewrite lookup_app_r in Hj by lia. rewrite Nat.sub_diag in Hj.
  apply (inj Some), announcement_inj in Hj. subst d.
  exists init, s. auto.
Qed.

Lemma failure_is_explained_witness :
  exists init s,
    s ∈ plan "4.0.428" /\
    trace (run (only 2 (exit_with 127)) (Some "4.0.428")).1 =
      init ++ [announcement (description s);
               SpawnSync (command s) (args s);
               error_report
                 (failure_message (description s)
                    (only 2 (exit_with 127) (children init)))] /\
    classify (description s) (only 2 (exit_with 127) (children init)) = Fatal.
Proof.
  apply (failure_is_explained (only 2 (exit_with 127)) "4.0.428").
  - apply PublishFacts.pinned_4_0_428.
  - vm_compute. reflexivity.
Defined.

End ConsoleFacts.

(* ===================================================================== *)
(** * The release as a whole *)
(* ===================================================================== *)

Module ReleaseFacts.
Import JsString JSON Publish Release.

#[local] Arguments String.append : simpl nomatch.

(** ** [publish-single.ts] *)

(** [publish-single.ts] hands one command to the shell, [bun publish] for
    the local registry in the directory of the package, and prints that the
    package was published exactly when that command ended with exit code 0;
    otherwise it ends with an exception and prints nothing.  Without a
    package name it runs no command. *)
Lemma publish_single_reports exit_code argv2 :
  let r := PublishSingle.publish_single exit_code argv2 PublishSingle.start in
  let packagePath := "packages/" +:+ default "" argv2 in
  let published :=
    negb (falsy argv2) &&
    (exit_code PublishSingle.bun_publish packagePath =? 0) in
  (r.2 = Propagate.Returned tt <-> published = true) /\
  PublishSingle.console r.1 =
    (if published then ["✅ Published @remotion/" +:+ default "" argv2]
     else []) /\
  PublishSingle.shell r.1 =
    (if falsy argv2 then [] else [(PublishSingle.bun_publish, packagePath)]).
Proof.
  unfold PublishSingle.publish_single.
  change (Propagate.path_join ["packages"; default "" argv2])
    with ("packages/" +:+ default "" argv2).
  unfold PublishSingle.bind, PublishSingle.dollar, PublishSingle.console_log,
    PublishSingle.throw.
  destruct (falsy argv2); cbn [negb andb fst snd].
  - split; [split; discriminate|split; reflexivity].
  - destruct (exit_code _ _ =? 0); cbn [fst snd PublishSingle.console
      PublishSingle.shell PublishSingle.start app];
      (split; [split; intros H; (reflexivity || discriminate H)
              |split; reflexivity]).
Qed.


(** ** The children of the orchestrator *)

Lemma script_result_returned {A} description (o : Propagate.outcome A) :
  includes "Build" description = false ->
  classify description (script_result o) <> Fatal ->
  exists a, o = Propagate.Returned a.
Proof.
  intros Hb Hc. destruct o as [a|message]; [eauto|].
  unfold classify in Hc. cbn in Hc. rewrite Hb in Hc. now destruct Hc.
Qed.

Lemma exit_0_no_fatal child argv2 :
  (run child argv2).2 = 0 ->
  exists v, argv2 = Some v /\ pinned_version v /\
    forall k s, plan v !! k = Some s ->
                classify (description s) (child k) <> Fatal.
Proof.
  intros Hexit.
  destruct (falsy argv2) eqn:Hf;
    [|destruct (Regex.test version_format (default "" argv2)) eqn:Ht].
  - destruct (PublishFacts.run_rejected child argv2) as [message Hr];
      [now left|]. rewrite Hr in Hexit. discriminate.
  - destruct argv2 as [v|]; [|discriminate]. cbn [default] in Ht.
    apply PublishFacts.test_version_format in Ht. exists v.
    split; [reflexivity|]. split; [exact Ht|].
    destruct (PublishFacts.run_accepted child v Ht) as [_ Hcode].
    rewrite Hexit in Hcode.
    destruct (halts child (plan v) 0) eqn:Hh; [discriminate|].
    now apply PublishFacts.halts_false_iff.
  - destruct (PublishFacts.run_rejected child argv2) as [message Hr];
      [now right|]. rewrite Hr in Hexit. discriminate.
Qed.

(** A step is spawned only when no step before it was fatal. *)
Lemma spawned_after child v k s :
  pinned_version v -> plan v !! k = Some s ->
  SpawnSync (command s) (args s) ∈ trace (run child (Some v)).1 ->
  forall j sj, (j < k)%nat -> plan v !! j = Some sj ->
    classify (description sj) (child j) <> Fatal.
Proof.
  intros Hv Hk Hin j sj Hj Hsj Hfatal.
  apply ConsoleFacts.spawn_in_commands in Hin.
  destruct (PublishFacts.run_accepted child v Hv) as [Hd _].
  rewrite Hd, PublishFacts.commands_marks in Hin.
  pose proof (PublishFacts.executed_fatal child (plan v) 0 j sj Hsj Hfatal)
    as Hex.
  change (call s ∈ call <$> take (executed child (plan v) 0) (plan v)) in Hin.
  rewrite fmap_take in Hin.
  apply list_elem_of_lookup in Hin as [i Hi].
  apply lookup_take_Some in Hi as [Hi Hlt].
  assert (Hk' : (call <$> plan v) !! k = Some (call s))
    by now rewrite list_lookup_fmap, Hk.
  pose proof (NoDup_lookup _ _ _ _ (ConsoleFacts.plan_calls_NoDup v) Hi Hk').
  lia.
Qed.

(** X15.  When the children that publish are [publish-single.ts], a
    release that ends with exit code 0 has published every package of the
    publish order: [bun publish] ended with exit code 0 in the directory
    of each of them. *)
Theorem release_published child exit_code argv2 :
  (forall i pkg,
     publishOrder !! i = Some pkg ->
     child (4 + i)%nat =
     script_result
       (PublishSingle.publish_single exit_code (Some pkg)
          PublishSingle.start).2) ->
  (run child argv2).2 = 0 ->
  forall pkg, pkg ∈ publishOrder ->
    exit_code PublishSingle.bun_publish ("packages/" +:+ pkg) = 0.
Proof.
  intros Hchild Hexit pkg Hpkg.
  destruct (exit_0_no_fatal child argv2 Hexit) as (v & -> & Hv & Hplan).
  pose proof Hpkg as Hi. apply list_elem_of_lookup in Hi as [i Hi].
  pose proof (Hplan _ _ (PublishFacts.plan_publish v i pkg Hi)) as Hc.
  rewrite (Hchild i pkg Hi) in Hc.
  pose proof PublishFacts.publish_not_tolerated as Hnt.
  rewrite Forall_forall in Hnt.
  apply (script_result_returned _ _ (Hnt pkg Hpkg)) in Hc as [[] Hret].
  pose proof (ConsoleFacts.publishOrder_words pkg Hpkg) as Hw.
  unfold PublishSingle.publish_single in Hret.
  destruct pkg as [|c pkg]; [discriminate Hw|]. cbn [falsy] in Hret.
  change (Propagate.path_join ["packages"; default "" (Some (String c pkg))])
    with ("packages/" +:+ String c pkg) in Hret.
  unfold PublishSingle.bind, PublishSingle.dollar in Hret.
  cbv zeta in Hret.
  destruct (exit_code PublishSingle.bun_publish
              ("packages/" +:+ String c pkg) =? 0) eqn:H0;
    [now apply Z.eqb_eq|discriminate Hret].
Qed.

Lemma release_published_witness :
  (fun _ cwd => if startsWith "packages/" cwd then 0 else 1)
    PublishSingle.bun_publish ("packages/" +:+ "skia")
  = 0.
Proof.
  refine (release_published (fun _ => ok)
            (fun _ cwd => if startsWith "packages/" cwd then 0 else 1)
            (Some "4.0.428") _ _ "skia" _).
  - intros i pkg Hi. apply list_elem_of_lookup_2 in Hi.
    pose proof (ConsoleFacts.publishOrder_words pkg Hi) as Hw.
    destruct pkg; [discriminate Hw|reflexivity].
  - vm_compute. reflexivity.
  - apply list_elem_of_lookup. exists 28%nat. reflexivity.
Defined.

(** ** The build after the propagation *)

Lemma manifest_not_version_file d version pkg :
  pkg ∈ Propagate.packagesWithVersionFiles version ->
  Propagate.packageJsonPath d <> Propagate.path pkg.
Proof.
  unfold Propagate.packagesWithVersionFiles.
  intros [->|Hpkg]%elem_of_cons;
    [|apply list_elem_of_singleton in Hpkg as ->];
    cbn [Propagate.path]; unfold Propagate.packageJsonPath,
      Propagate.path_join; cbn [join];
    intros H; apply (inj (String.append "packages")) in H;
    apply (inj (String.append "/")) in H;
    apply (f_equal String.length) in H as Hlen;
    rewrite JSONFacts.length_append in Hlen; cbn in Hlen;
    do 20 (destruct d as [|? d]; try (cbn in Hlen; lia); try discriminate H).
Qed.

(** X16.  When the first two children are [update-version.ts] and
    [update-version-files.ts], run one after the other on the same files,
    the build is started only on a tree that holds the new version: every
    manifest of a listed package directory that is no template is the
    serialization of the value that was parsed from it with only its
    [version] changed, and each version file holds its template. *)
Theorem build_after_propagation parse stringify templates disk child v s :
  NoDup (Propagate.entries disk) ->
  let r0 := Propagate.update_version parse stringify templates disk
              (Some v) s in
  let r1 := Propagate.update_version_files disk (Some v) r0.1 in
  child 0%nat = script_result r0.2 ->
  child 1%nat = script_result r1.2 ->
  SpawnSync "bun" ["run"; "build"] ∈ trace (run child (Some v)).1 ->
  (forall d, d ∈ Propagate.dirs disk s ->
     d ∉ Propagate.localTemplates templates ->
     exists text packageJson packageJson',
       Propagate.files s !! Propagate.packageJsonPath d = Some text /\
       parse text = Some packageJson /\
       set "version" (JString v) packageJson = Some packageJson' /\
       Propagate.only_version_changed v packageJson packageJson' /\
       Propagate.files r1.1 !! Propagate.packageJsonPath d
         = Some (stringify packageJson' +:+ LF)) /\
  (forall pkg, pkg ∈ Propagate.packagesWithVersionFiles v ->
     Propagate.files r1.1 !! Propagate.path pkg
     = Some (Propagate.template pkg)).
Proof.
  intros Hnd r0 r1 H0 H1 Hbuild.
  destruct (ConsoleFacts.run_spawns_accepted _ _ _ _ Hbuild)
    as (v' & [= <-] & Hv).
  pose proof (spawned_after child v 3 build_step Hv
                (PublishFacts.plan_build v) Hbuild) as Hbefore.
  assert (Hf : falsy (Some v) = false)
    by now apply PublishFacts.pinned_version_nonempty.
  (* both scripts came to their end *)
  assert (Hr0 : r0.2 = Propagate.Returned tt).
  { pose proof (Hbefore 0%nat (bump_step v) ltac:(lia) eq_refl) as Hc.
    rewrite H0 in Hc. apply script_result_returned in Hc as [[] Hc];
      [exact Hc|].
    destruct (includes "Build" (description (bump_step v))) eqn:Hb;
      [|reflexivity].
    now pose proof (PublishFacts.plan_tolerated v 0 _ Hv eq_refl Hb). }
  assert (Hr1 : r1.2 = Propagate.Returned tt).
  { pose proof (Hbefore 1%nat (version_files_step v) ltac:(lia) eq_refl)
      as Hc.
    rewrite H1 in Hc. apply script_result_returned in Hc as [[] Hc];
      [exact Hc|].
    destruct (includes "Build" (description (version_files_step v))) eqn:Hb;
      [|reflexivity].
    now pose proof (PublishFacts.plan_tolerated v 1 _ Hv eq_refl Hb). }
  (* what the second script wrote, and what it left *)
  subst r1.
  rewrite (PropagateRuns.update_version_files_write_all disk v r0.1 Hf)
    in Hr1 |- *.
  pose proof (PropagateRuns.write_all_writable disk v
                (Propagate.packagesWithVersionFiles v) r0.1) as Hw.
  pose proof (PropagateRuns.write_all_other disk v
                (Propagate.packagesWithVersionFiles v) r0.1) as Hother.
  pose proof (fun H => PropagateRuns.write_all_returned disk v
                (Propagate.packagesWithVersionFiles v)
                (PropagateRuns.version_paths_NoDup v) H r0.1) as Hfiles.
  destruct (Propagate.for_of _ _ _ r0.1) as [s' [[]|message]];
    [|discriminate].
  cbn [fst snd Propagate.files] in *.
  specialize (Hfiles (Hw eq_refl)). destruct Hfiles as [_ Hfiles].
  split; [|exact Hfiles].
  intros d Hd Hex.
  destruct (PropagateRuns.returned_manifests parse stringify templates disk
              v s Hnd Hr0 d Hd Hex) as (text & pj & pj' & Ht & Hp & Hs & Ht').
  exists text, pj, pj'. repeat split; try assumption.
  - now apply PropagateFacts.set_version_changes.
  - rewrite Hother; [exact Ht'|].
    intros pkg Hpkg. exact (manifest_not_version_file d v pkg Hpkg).
Qed.

Lemma build_after_propagation_witness :
  let r0 := Propagate.update_version parse stringify
              Propagate.example_templates Propagate.writable_disk
              (Some "4.0.428") Propagate.example_files in
  let r1 := Propagate.update_version_files Propagate.writable_disk
              (Some "4.0.428") r0.1 in
  (forall d, d ∈ Propagate.dirs Propagate.writable_disk
                   Propagate.example_files ->
     d ∉ Propagate.localTemplates Propagate.example_templates ->
     exists text packageJson packageJson',
       Propagate.files Propagate.example_files
         !! Propagate.packageJsonPath d = Some text /\
       parse text = Some packageJson /\
       set "version" (JString "4.0.428") packageJson = Some packageJson' /\
       Propagate.only_version_changed "4.0.428" packageJson packageJson' /\
       Propagate.files r1.1 !! Propagate.packageJsonPath d
         = Some (stringify packageJson' +:+ LF)) /\
  (forall pkg, pkg ∈ Propagate.packagesWithVersionFiles "4.0.428" ->
     Propagate.files r1.1 !! Propagate.path pkg
     = Some (Propagate.template pkg)).
Proof.
  apply (build_after_propagation parse stringify Propagate.example_templates
           Propagate.writable_disk (fun _ => ok) "4.0.428"
           Propagate.example_files).
  - apply (bool_decide_unpack (NoDup (Propagate.entries Propagate.writable_disk))).
    vm_compute. exact I.
  - vm_compute. reflexivity.
  - vm_compute. reflexivity.
  - apply list_elem_of_lookup. exists 17%nat. vm_compute. reflexivity.
Defined.

End ReleaseFacts.
